(** * SURR-back: the catalog store, the upload pipeline and the catalog API

  A shallow embedding of [index.js].  The handlers run in a small state
  and exception monad over a [world] that holds the files on disk, the
  JavaScript heap, the console and the objects kept by Google Drive.
  Objects live on the heap and are compared by their location, as
  JavaScript compares them.  What the external services answer (Drive,
  music-metadata, MusicBrainz, LRCLIB, uuid, the clock) is an argument
  of each handler. *)

From Stdlib Require Import ZArith String Ascii.
From stdpp Require Import base option list strings gmap.

(** ** Strings

  Strings are byte strings: the text in UTF-8.  [fold_ascii] makes the
  letters A to Z small and leaves every other byte alone, which is what
  [String.prototype.toLowerCase] does to ASCII text, and to ASCII text
  only (see [engine] below). *)

Module Str.

Definition fold_byte (c : ascii) : ascii :=
  let n := nat_of_ascii c in
  if (65 <=? n)%nat && (n <=? 90)%nat then ascii_of_nat (n + 32) else c.

Fixpoint fold_ascii (s : string) : string :=
  match s with
  | EmptyString => EmptyString
  | String c s' => String (fold_byte c) (fold_ascii s')
  end.

(** The text is ASCII: every byte is below 128. *)
Fixpoint is_ascii (s : string) : bool :=
  match s with
  | EmptyString => true
  | String c s' => (nat_of_ascii c <? 128) && is_ascii s'
  end.

(** [s.startsWith(q)] *)
Fixpoint startsWith (s q : string) : bool :=
  match q, s with
  | EmptyString, _ => true
  | String _ _, EmptyString => false
  | String b q', String a s' => bool_decide (a = b) && startsWith s' q'
  end.

(** [s.includes(q)] *)
Fixpoint includes (s q : string) : bool :=
  startsWith s q ||
  match s with
  | EmptyString => false
  | String _ s' => includes s' q
  end.

Fixpoint drop (n : nat) (s : string) : string :=
  match n, s with
  | O, _ => s
  | S _, EmptyString => EmptyString
  | S n', String _ s' => drop n' s'
  end.

Fixpoint take (n : nat) (s : string) : string :=
  match n, s with
  | O, _ => EmptyString
  | S _, EmptyString => EmptyString
  | S n', String c s' => String c (take n' s')
  end.

(** [s.indexOf(pat)]: where [pat] first occurs in [s]. *)
Fixpoint indexOf (s pat : string) : option nat :=
  if startsWith s pat then Some O
  else match s with
       | EmptyString => None
       | String _ s' => S <$> indexOf s' pat
       end.

(** [s.replace(pat, rep)] with a string pattern: only the first
    occurrence of [pat] is replaced. *)
Fixpoint replace (s pat rep : string) : string :=
  if startsWith s pat then rep +:+ drop (String.length pat) s
  else match s with
       | EmptyString => EmptyString
       | String c s' => String c (replace s' pat rep)
       end.

(** JavaScript truthiness of a string. *)
Definition nonempty (s : string) : bool :=
  match s with EmptyString => false | String _ _ => true end.

End Str.

(** ** [path.extname] of Node (POSIX flavour)

  The scan runs from the last character to the first and keeps the
  same five variables as Node's implementation; an index of [-1] stands
  for "not seen yet". *)

Module Path.

Record scan := Scan {
  startDot : Z;
  startPart : Z;
  end_ : Z;
  matchedSlash : bool;
  preDotState : Z
}.

Definition scan0 : scan :=
  {| startDot := -1; startPart := 0; end_ := -1; matchedSlash := true; preDotState := 0 |}.

(** One round of the loop at index [i] on character [code]; [inl] is the
    [break]. *)
Definition scan_step (i : Z) (code : ascii) (st : scan) : scan + scan :=
  if bool_decide (code = "/"%char) then
    if negb (matchedSlash st) then
      inl {| startDot := startDot st; startPart := i + 1; end_ := end_ st;
             matchedSlash := matchedSlash st; preDotState := preDotState st |}
    else inr st
  else
    let st1 :=
      if (end_ st =? -1)%Z then
        {| startDot := startDot st; startPart := startPart st; end_ := i + 1;
           matchedSlash := false; preDotState := preDotState st |}
      else st in
    if bool_decide (code = "."%char) then
      if (startDot st1 =? -1)%Z then
        inr {| startDot := i; startPart := startPart st1; end_ := end_ st1;
               matchedSlash := matchedSlash st1; preDotState := preDotState st1 |}
      else if negb (preDotState st1 =? 1)%Z then
        inr {| startDot := startDot st1; startPart := startPart st1; end_ := end_ st1;
               matchedSlash := matchedSlash st1; preDotState := 1 |}
      else inr st1
    else if negb (startDot st1 =? -1)%Z then
      inr {| startDot := startDot st1; startPart := startPart st1; end_ := end_ st1;
             matchedSlash := matchedSlash st1; preDotState := -1 |}
    else inr st1.

(** [for (let i = path.length - 1; i >= 0; --i)], on the reversed
    characters. *)
Fixpoint scan_loop (rev_chars : list ascii) (i : Z) (st : scan) : scan :=
  match rev_chars with
  | [] => st
  | code :: rest =>
      match scan_step i code st with
      | inl st' => st'
      | inr st' => scan_loop rest (i - 1) st'
      end
  end.

Definition slice (s : string) (from to : Z) : string :=
  Str.take (Z.to_nat (to - from)) (Str.drop (Z.to_nat from) s).

Definition extname (p : string) : string :=
  let st := scan_loop (rev (list_ascii_of_string p)) (Z.of_nat (String.length p) - 1) scan0 in
  if (startDot st =? -1)%Z
     || (end_ st =? -1)%Z
     || (preDotState st =? 0)%Z
     || ((preDotState st =? 1)%Z
         && (startDot st =? end_ st - 1)%Z
         && (startDot st =? startPart st + 1)%Z)
  then EmptyString
  else slice p (startDot st) (end_ st).

End Path.

(** ** [String.prototype.toLowerCase]

  Lower-casing is the engine's: the Unicode case mapping, which looks at
  the letters around a letter (a capital sigma that ends a word becomes a
  final sigma) and can lengthen a text.  It is an argument of the code
  that calls it; all that is assumed of it is what it does to ASCII
  text. *)

Record engine := Engine {
  String_toLowerCase : string → string;
  toLowerCase_ascii :
    ∀ s, Str.is_ascii s = true → String_toLowerCase s = Str.fold_ascii s
}.

(** ** JavaScript values

  A value is a primitive or a reference to an object on the heap.  Numbers
  are integers here; nothing below depends on a fractional duration, nor
  on [NaN] or on the sign of zero. *)

Abbreviation loc := nat (only parsing).

Inductive value :=
| VUndefined
| VNull
| VBool (b : bool)
| VNumber (n : Z)
| VString (s : string)
| VRef (l : loc).

Inductive object :=
| OArray (elems : list value)
| ORecord (props : list (string * value))
| ODate (iso : string).

Global Instance value_eq_dec : EqDecision value.
Proof. solve_decision. Defined.

(** [!!v] *)
Definition truthy (v : value) : bool :=
  match v with
  | VUndefined | VNull => false
  | VBool b => b
  | VNumber n => negb (n =? 0)%Z
  | VString s => Str.nonempty s
  | VRef _ => true
  end.

(** [a === b]: primitives by value, objects by location.  [includes]
    compares the same way (SameValueZero differs only on NaN). *)
Definition strict_eq (a b : value) : bool := bool_decide (a = b).

Fixpoint lookup_prop (k : string) (ps : list (string * value)) : option value :=
  match ps with
  | [] => None
  | (k', v) :: ps' => if bool_decide (k' = k) then Some v else lookup_prop k ps'
  end.

(** ** JSON documents and file contents

  [json] is what [JSON.parse] returns, as a tree: white space is gone,
  and of properties written twice only the one [JSON.parse] keeps is
  there.  A file's content is kept up to what the code asks of it:
  whether it is blank once trimmed, whether [JSON.parse] rejects it, or
  which document it parses to.  A staged audio file is [Invalid].  Faults
  of the disk itself (permissions, a full disk) are not modelled: an
  operation of [fs] fails only when the file it needs is not there. *)

Local Unset Elimination Schemes.
Inductive json :=
| JNull
| JBool (b : bool)
| JNumber (n : Z)
| JString (s : string)
| JArray (elems : list json)
| JObject (props : list (string * json)).
Local Set Elimination Schemes.

Inductive content :=
| Blank
| Invalid
| Document (d : json).

(** The files the server touches: the two catalog files beside the script
    and the staged uploads under [temp_uploads]. *)
Inductive file :=
| SONGS_FILE
| PLAYLISTS_FILE
| UPLOAD_DIR (filename : string).

Global Instance file_eq_dec : EqDecision file.
Proof. solve_decision. Defined.

Global Instance file_countable : Countable file.
Proof.
  refine (inj_countable'
    (λ f, match f with
          | SONGS_FILE => inl false
          | PLAYLISTS_FILE => inl true
          | UPLOAD_DIR n => inr n
          end)
    (λ x, match x with
          | inl false => SONGS_FILE
          | inl true => PLAYLISTS_FILE
          | inr n => UPLOAD_DIR n
          end) _).
  by intros [].
Defined.

Definition file_name (f : file) : string :=
  match f with
  | SONGS_FILE => "songs.json"
  | PLAYLISTS_FILE => "playlists.json"
  | UPLOAD_DIR n => "temp_uploads/" +:+ n
  end.

(** ** The world *)

Inductive line :=
| Log (msg : string)
| Err (msg : string).

Record remote_object := RemoteObject {
  remote_id : string;
  remote_name : string;
  remote_mimeType : string;
  remote_public : bool
}.

Record world := World {
  files : gmap file content;
  heap : list object;
  console : list line;
  drive : list remote_object
}.

Definition set_files (fs : gmap file content) (w : world) : world :=
  {| files := fs; heap := heap w; console := console w; drive := drive w |}.
Definition set_heap (h : list object) (w : world) : world :=
  {| files := files w; heap := h; console := console w; drive := drive w |}.
Definition set_console (c : list line) (w : world) : world :=
  {| files := files w; heap := heap w; console := c; drive := drive w |}.
Definition set_drive (d : list remote_object) (w : world) : world :=
  {| files := files w; heap := heap w; console := console w; drive := d |}.

(** ** Exceptions and the monad of handlers *)

Inductive exn :=
| TypeError (msg : string)
| SyntaxError (msg : string)
| Error (msg : string)
| ENOENT (f : file).

Definition message (e : exn) : string :=
  match e with
  | TypeError m | SyntaxError m | Error m => m
  | ENOENT f => "ENOENT: no such file or directory, " +:+ file_name f
  end.

Inductive outcome (A : Type) :=
| Returned (a : A)
| Thrown (e : exn).
Arguments Returned {A} a.
Arguments Thrown {A} e.

Definition js (A : Type) : Type := world → outcome A * world.

Global Instance js_ret : MRet js := λ A a w, (Returned a, w).
Global Instance js_bind : MBind js := λ A B f m w,
  match m w with
  | (Returned a, w') => f a w'
  | (Thrown e, w') => (Thrown e, w')
  end.

Definition throw {A} (e : exn) : js A := λ w, (Thrown e, w).

(** [try { body } catch (err) { handler }], and [promise.catch(handler)]. *)
Definition try_catch {A} (body : js A) (handler : exn → js A) : js A := λ w,
  match body w with
  | (Thrown e, w') => handler e w'
  | r => r
  end.

Definition console_log (msg : string) : js unit := λ w,
  (Returned (), set_console (console w ++ [Log msg]) w).
Definition console_error (msg : string) : js unit := λ w,
  (Returned (), set_console (console w ++ [Err msg]) w).

(** ** The heap *)

Definition alloc (o : object) : js value := λ w,
  (Returned (VRef (length (heap w))), set_heap (heap w ++ [o]) w).

(** [v.k]: reading a property of undefined or null throws; primitives,
    arrays and dates have none of the properties the handlers read. *)
Definition get (v : value) (k : string) : js value := λ w,
  match v with
  | VUndefined | VNull =>
      (Thrown (TypeError ("Cannot read properties of undefined or null, reading " +:+ k)), w)
  | VRef l =>
      match heap w !! l with
      | Some (ORecord ps) => (Returned (default VUndefined (lookup_prop k ps)), w)
      | _ => (Returned VUndefined, w)
      end
  | _ => (Returned VUndefined, w)
  end.

(** [v[i]] *)
Definition get_index (v : value) (i : nat) : js value := λ w,
  match v with
  | VUndefined | VNull =>
      (Thrown (TypeError "Cannot read properties of undefined or null, reading an index"), w)
  | VRef l =>
      match heap w !! l with
      | Some (OArray vs) => (Returned (default VUndefined (vs !! i)), w)
      | _ => (Returned VUndefined, w)
      end
  | _ => (Returned VUndefined, w)
  end.

(** The elements of [v] when it is an array; calling the array method
    [method] on anything else throws. *)
Definition elements (v : value) (method : string) : js (list value) := λ w,
  match v with
  | VRef l =>
      match heap w !! l with
      | Some (OArray vs) => (Returned vs, w)
      | _ => (Thrown (TypeError (method +:+ " is not a function")), w)
      end
  | VUndefined | VNull =>
      (Thrown (TypeError ("Cannot read properties of undefined or null, reading " +:+ method)), w)
  | _ => (Thrown (TypeError (method +:+ " is not a function")), w)
  end.

Fixpoint find_first (p : value → js bool) (vs : list value) : js value :=
  match vs with
  | [] => mret VUndefined
  | v :: vs' => b ← p v; if b : bool then mret v else find_first p vs'
  end.

Fixpoint keep (p : value → js bool) (vs : list value) : js (list value) :=
  match vs with
  | [] => mret []
  | v :: vs' => b ← p v; rest ← keep p vs'; mret (if b : bool then v :: rest else rest)
  end.

(** [arr.find(p)] *)
Definition Array_find (arr : value) (p : value → js bool) : js value :=
  vs ← elements arr "find"; find_first p vs.

(** [arr.filter(p)]: a new array. *)
Definition Array_filter (arr : value) (p : value → js bool) : js value :=
  vs ← elements arr "filter"; kept ← keep p vs; alloc (OArray kept).

(** [arr.includes(v)] *)
Definition Array_includes (arr : value) (v : value) : js bool :=
  vs ← elements arr "includes"; mret (existsb (strict_eq v) vs).

Definition store (l : loc) (o : object) : js unit := λ w,
  (Returned (), set_heap (<[l := o]> (heap w)) w).

(** [arr.push(v)]: the array is changed in place. *)
Definition Array_push (arr : value) (v : value) : js unit :=
  vs ← elements arr "push";
  match arr with
  | VRef l => store l (OArray (vs ++ [v]))
  | _ => mret ()
  end.

(** [v.toLowerCase()] *)
Definition toLowerCase (E : engine) (v : value) : js string :=
  match v with
  | VString s => mret (String_toLowerCase E s)
  | VUndefined | VNull =>
      throw (TypeError "Cannot read properties of undefined or null, reading toLowerCase")
  | _ => throw (TypeError "toLowerCase is not a function")
  end.

(** ** [JSON.parse] and [JSON.stringify]

  Parsing builds new objects: every array and object of the document
  gets a location of its own, past every location in use. *)

Definition thread {A B S} (f : A → S → B * S) : list A → S → list B * S :=
  fix go l s :=
    match l with
    | [] => ([], s)
    | a :: l' =>
        let '(b, s1) := f a s in
        let '(bs, s2) := go l' s1 in
        (b :: bs, s2)
    end.

Fixpoint reify (d : json) (h : list object) : value * list object :=
  match d with
  | JNull => (VNull, h)
  | JBool b => (VBool b, h)
  | JNumber n => (VNumber n, h)
  | JString s => (VString s, h)
  | JArray ds =>
      let '(vs, h') := thread reify ds h in
      (VRef (length h'), h' ++ [OArray vs])
  | JObject ps =>
      let '(vs, h') :=
        thread (λ p h, let '(v, h1) := reify p.2 h in ((p.1, v), h1)) ps h in
      (VRef (length h'), h' ++ [ORecord vs])
  end.

Definition JSON_parse (c : option content) : js value :=
  match c with
  | Some (Document d) => λ w, let '(v, h) := reify d (heap w) in (Returned v, set_heap h w)
  | Some Blank => throw (SyntaxError "Unexpected end of JSON input")
  | Some Invalid => throw (SyntaxError "Unexpected token in JSON")
  | None => throw (SyntaxError "undefined is not valid JSON")
  end.

(** The structure below a value, as deep comparison sees it. *)
Local Unset Elimination Schemes.
Inductive shape :=
| SUndefined
| SNull
| SBool (b : bool)
| SNumber (n : Z)
| SString (s : string)
| SDate (iso : string)
| SArray (elems : list shape)
| SObject (props : list (string * shape)).
Local Set Elimination Schemes.

(** [fuel] bounds the depth of nesting; a cyclic structure exhausts any
    fuel. *)
Fixpoint inspect (fuel : nat) (h : list object) (v : value) : option shape :=
  match v with
  | VUndefined => Some SUndefined
  | VNull => Some SNull
  | VBool b => Some (SBool b)
  | VNumber n => Some (SNumber n)
  | VString s => Some (SString s)
  | VRef l =>
      match fuel with
      | O => None
      | S fuel' =>
          match h !! l with
          | Some (OArray vs) => SArray <$> mapM (inspect fuel' h) vs
          | Some (ORecord ps) =>
              SObject <$> mapM (λ p, pair p.1 <$> inspect fuel' h p.2) ps
          | Some (ODate iso) => Some (SDate iso)
          | None => None
          end
      end
  end.

(** What [JSON.stringify] writes for a shape: a date as its ISO string,
    [undefined] as [null] in an array and not at all in an object; at the
    top [undefined] gives no text ([None]). *)
Fixpoint toJSON (s : shape) : option json :=
  match s with
  | SUndefined => None
  | SNull => Some JNull
  | SBool b => Some (JBool b)
  | SNumber n => Some (JNumber n)
  | SString s => Some (JString s)
  | SDate iso => Some (JString iso)
  | SArray ss => Some (JArray (map (λ s, default JNull (toJSON s)) ss))
  | SObject ps => Some (JObject (omap (λ p, pair p.1 <$> toJSON p.2) ps))
  end.

Fixpoint of_json (d : json) : shape :=
  match d with
  | JNull => SNull
  | JBool b => SBool b
  | JNumber n => SNumber n
  | JString s => SString s
  | JArray ds => SArray (map of_json ds)
  | JObject ps => SObject (map (λ p, (p.1, of_json p.2)) ps)
  end.

(** A structure without cycles nests no deeper than the heap has
    objects, so the heap's size is fuel enough; running out means a
    cycle, on which [JSON.stringify] throws. *)
Definition JSON_stringify (v : value) : js (option json) := λ w,
  match inspect (length (heap w)) (heap w) v with
  | Some s => (Returned (toJSON s), w)
  | None => (Thrown (TypeError "Converting circular structure to JSON"), w)
  end.

(** ** [fs] *)

Definition existsSync (f : file) : js bool := λ w,
  (Returned (bool_decide (is_Some (files w !! f))), w).

Definition readFileSync (f : file) : js content := λ w,
  match files w !! f with
  | Some c => (Returned c, w)
  | None => (Thrown (ENOENT f), w)
  end.

(** [fs.writeFileSync(f, text)]; a [text] of [undefined] is refused. *)
Definition writeFileSync (f : file) (text : option content) : js unit := λ w,
  match text with
  | Some c => (Returned (), set_files (<[f := c]> (files w)) w)
  | None => (Thrown (TypeError "The data argument must be of type string"), w)
  end.

(** [fsPromises.unlink(f)] rejects when there is no such file. *)
Definition unlink (f : file) : js unit := λ w,
  match files w !! f with
  | Some _ => (Returned (), set_files (delete f (files w)) w)
  | None => (Thrown (ENOENT f), w)
  end.

(** ** The catalog store: [readJSON] and [writeJSON] *)

(** The text ['[]'], and the array literal [[]]. *)
Definition empty_array_text : option content := Some (Document (JArray [])).
Definition new_array : js value := alloc (OArray []).

(** [content.trim()] is empty. *)
Definition blank (c : content) : bool :=
  match c with Blank => true | _ => false end.

Definition readJSON (f : file) : js value :=
  try_catch
    (ex ← existsSync f;
     if negb ex then
       writeFileSync f empty_array_text;; new_array
     else
       content ← readFileSync f;
       if blank content then
         writeFileSync f empty_array_text;; new_array
       else JSON_parse (Some content))
    (λ err,
       console_error ("Invalid JSON in " +:+ file_name f +:+ ", resetting...");;
       writeFileSync f empty_array_text;;
       new_array).

Definition writeJSON (f : file) (data : value) : js unit :=
  text ← JSON_stringify data;
  writeFileSync f (Document <$> text).

(** ** Requests, responses and the external services *)

Inductive body :=
| Json (d : option json)
| Stream (bytes : string).

Record response := Response {
  status : nat;
  headers : list (string * string);
  body_of : body
}.

(** [res.status(code).json({ error: msg })] *)
Definition error_reply (code : nat) (msg : string) : response :=
  {| status := code; headers := [];
     body_of := Json (Some (JObject [("error", JString msg)])) |}.

(** [res.json(v)] *)
Definition res_json (v : value) : js response :=
  d ← JSON_stringify v;
  mret {| status := 200; headers := []; body_of := Json d |}.

(** [req.file] as multer leaves it. *)
Record multer_file := MulterFile {
  originalname : string;
  filename : string;
  mimetype : string
}.

(** The tags music-metadata reports; a field that is [None] is absent. *)
Record common_tags := CommonTags {
  tag_title : option string;
  tag_artist : option string;
  tag_album : option string;
  tag_genre : option (list string)
}.

Record audio_metadata := AudioMetadata {
  common : option common_tags;
  format_duration : option Z
}.

(** The empty object [{}] the handler starts from. *)
Definition no_tags : common_tags :=
  {| tag_title := None; tag_artist := None; tag_album := None; tag_genre := None |}.
Definition no_metadata : audio_metadata :=
  {| common := None; format_duration := None |}.

(** How a promise of an external call settles. *)
Inductive reply (A : Type) :=
| Resolved (a : A)
| Rejected (msg : string).
Arguments Resolved {A} a.
Arguments Rejected {A} msg.

(** A primitive, as an external call delivers it. *)
Inductive primitive_value :=
| PUndefined
| PNull
| PBool (b : bool)
| PNumber (n : Z)
| PString (s : string).

Definition of_primitive (p : primitive_value) : value :=
  match p with
  | PUndefined => VUndefined
  | PNull => VNull
  | PBool b => VBool b
  | PNumber n => VNumber n
  | PString s => VString s
  end.

(** What the handlers are given from outside, for one request: the two
    environment variables (absent, or a text as [JSON.parse] sees it) and
    the way each external call settles.  A handler makes each call at most
    once.
    - [parseFile p]: music-metadata on the file at [p];
    - [files_create name mimeType]: the id of the new Drive file;
    - [files_get fileId]: the bytes of the media stream;
    - [mb_search title artist]: the ids of [searchResult.recordings];
    - [mb_lookup mbid]: the ids of [lookupResult.releases] and the names
      of [lookupResult.genres];
    - [getUnsynced title artist]: [None] for a falsy result, else what
      [lrcResult.plainLyrics] evaluates to on the result, taken to be a
      primitive: [undefined] when the result has no such property, as the
      array of lines the library resolves to has none;
    - [uuidv4], [now]: the identifier and the instant the handler draws. *)
Record services := Services {
  CLIENT_SECRET_JSON : option content;
  TOKEN_JSON : option content;
  parseFile : file → reply audio_metadata;
  files_create : string → string → reply string;
  permissions_create : string → reply unit;
  files_get : value → reply string;
  mb_search : string → string → reply (list string);
  mb_lookup : string → reply (list string * list string);
  getUnsynced : string → string → reply (option primitive_value);
  uuidv4 : string;
  now : string
}.

Definition await {A} (r : reply A) : js A :=
  match r with
  | Resolved a => mret a
  | Rejected msg => throw (Error msg)
  end.

Definition modify_drive (g : list remote_object → list remote_object) : js unit := λ w,
  (Returned (), set_drive (g (drive w)) w).

Definition publish (fileId : string) (o : remote_object) : remote_object :=
  if bool_decide (remote_id o = fileId)
  then {| remote_id := remote_id o; remote_name := remote_name o;
          remote_mimeType := remote_mimeType o; remote_public := true |}
  else o.

(** [drive.files.create]: on success Drive keeps a new, private object. *)
Definition drive_files_create (sv : services) (name mimeType : string) : js string :=
  id ← await (files_create sv name mimeType);
  modify_drive (λ d, d ++ [{| remote_id := id; remote_name := name;
                              remote_mimeType := mimeType; remote_public := false |}]);;
  mret id.

(** [drive.permissions.create] with role reader for anyone. *)
Definition drive_permissions_create (sv : services) (fileId : string) : js unit :=
  await (permissions_create sv fileId);;
  modify_drive (map (publish fileId)).

(** ** [getDriveClient] *)

(** [Object.keys(v)], for its exception only. *)
Definition Object_keys (v : value) : js unit :=
  match v with
  | VUndefined | VNull => throw (TypeError "Cannot convert undefined or null to object")
  | _ => mret ()
  end.

Definition getDriveClient (sv : services) : js unit :=
  try_catch
    (credentials ← JSON_parse (CLIENT_SECRET_JSON sv);
     web ← get credentials "web";
     client_id ← get web "client_id";
     console_log "Credentials loaded:";;
     invalid ←
       (if negb (truthy web) then mret true
        else if negb (truthy client_id) then mret true
        else client_secret ← get web "client_secret"; mret (negb (truthy client_secret)));
     if invalid : bool then
       throw (Error "Invalid CLIENT_SECRET_JSON format")
     else
       redirect_uris ← get web "redirect_uris";
       get_index redirect_uris 0;;
       tokens ← JSON_parse (TOKEN_JSON sv);
       Object_keys tokens;;
       console_log "Tokens loaded:";;
       access_token ← get tokens "access_token";
       if negb (truthy access_token) then
         throw (Error "Invalid TOKEN_JSON: missing access_token")
       else mret ())
    (λ err,
       console_error ("Error setting up Drive client: " +:+ message err);;
       throw err).

(** ** Multer's disk storage *)

(** Multer's [filename] callback (lines 76 to 79): the name an upload is
    staged under, made of a fresh identifier and of the extension of the
    name the client sent. *)
Definition staged_name (uuid originalname : string) : string :=
  uuid +:+ Path.extname originalname.

(** ** POST /upload *)

(** [a || b] on a tag that may be absent. *)
Definition or_else (a : option string) (b : string) : string :=
  match a with
  | Some s => if Str.nonempty s then s else b
  | None => b
  end.

(** [fsPromises.unlink(songPath).catch(err => console.error(...))] *)
Definition delete_temp (songPath : file) : js unit :=
  try_catch (unlink songPath)
    (λ err, console_error ("Failed to delete temp file: " +:+ message err)).

(** Lines 113 to 122: the tags, or none when extraction throws. *)
Definition extract_metadata (sv : services) (songPath : file) : js audio_metadata :=
  try_catch
    (metadata ← await (parseFile sv songPath);
     console_log "music-metadata result:";;
     mret metadata)
    (λ err,
       console_error ("Metadata extraction failed: " +:+ message err);;
       mret no_metadata).

(** Lines 125 to 129. *)
Definition basic_title (c : common_tags) (f : multer_file) : string :=
  or_else (tag_title c)
    (Str.replace (originalname f) (Path.extname (originalname f)) "").
Definition basic_artist (c : common_tags) : string := or_else (tag_artist c) "Unknown".
Definition basic_album (c : common_tags) : string := or_else (tag_album c) "Unknown".
Definition basic_genre (c : common_tags) : value :=
  match tag_genre c with
  | Some gs => match gs with g :: _ => VString g | [] => VUndefined end
  | None => VString "Unknown"
  end.
Definition basic_duration (m : audio_metadata) : Z :=
  match format_duration m with
  | Some d => d
  | None => 0
  end.

(** Lines 172 to 194: album art and genre from MusicBrainz. *)
Definition musicbrainz (sv : services) (title artist : string) (genre : value)
  : js (value * value) :=
  try_catch
    (recordings ← await (mb_search sv title artist);
     match recordings with
     | recordingMbid :: _ =>
         lookupResult ← await (mb_lookup sv recordingMbid);
         let albumArt :=
           match lookupResult.1 with
           | releaseMbid :: _ =>
               VString ("https://coverartarchive.org/release/" +:+ releaseMbid +:+ "/front-500")
           | [] => VNull
           end in
         let genre' :=
           match lookupResult.2 with
           | g :: _ => VString g
           | [] => genre
           end in
         mret (albumArt, genre')
     | [] => mret (VNull, genre)
     end)
    (λ err,
       console_error ("MusicBrainz API error: " +:+ message err);;
       mret (VNull, genre)).

(** Lines 196 to 205: lyrics from LRCLIB. *)
Definition lrclib (sv : services) (title artist : string) : js value :=
  try_catch
    (lrcResult ← await (getUnsynced sv title artist);
     mret (match lrcResult with
           | Some plainLyrics => of_primitive plainLyrics
           | None => VNull
           end))
    (λ err,
       console_error ("LRCLIB API error: " +:+ message err);;
       mret VNull).

(** Lines 133 to 162: [inl] is the early return of the catch block. *)
Definition upload_to_drive (sv : services) (f : multer_file) (songPath : file)
  : js (response + string) :=
  try_catch
    (driveFileId ← drive_files_create sv (filename f) (mimetype f);
     console_log ("Uploaded to Drive, file ID: " +:+ driveFileId);;
     drive_permissions_create sv driveFileId;;
     mret (inr driveFileId))
    (λ err,
       console_error ("Drive upload failed: " +:+ message err);;
       delete_temp songPath;;
       mret (inl (error_reply 500 "Failed to upload to Google Drive"))).

(** Lines 209 to 225. *)
Definition save_song (sv : services) (title artist album : string) (genre : value)
    (duration : Z) (albumArt lyrics : value) (driveFileId : string) : js response :=
  songs ← readJSON SONGS_FILE;
  createdAt ← alloc (ODate (now sv));
  newSong ← alloc (ORecord [
    ("id", VString (uuidv4 sv));
    ("title", VString title);
    ("artist", VString artist);
    ("album", VString album);
    ("genre", genre);
    ("duration", VNumber duration);
    ("albumArt", albumArt);
    ("lyrics", lyrics);
    ("driveFileId", VString driveFileId);
    ("createdAt", createdAt)]);
  console_log "Saving song:";;
  Array_push songs newSong;;
  writeJSON SONGS_FILE songs;;
  res_json newSong.

Definition upload (sv : services) (req_file : option multer_file) : js response :=
  match req_file with
  | None => mret (error_reply 400 "No file uploaded")
  | Some f =>
      let songPath := UPLOAD_DIR (filename f) in
      client ← try_catch (getDriveClient sv;; mret None)
        (λ err,
           console_error ("Failed to initialize Drive client: " +:+ message err);;
           delete_temp songPath;;
           mret (Some (error_reply 500 "Failed to initialize Google Drive")));
      match client with
      | Some early => mret early
      | None =>
          metadata ← extract_metadata sv songPath;
          let c := default no_tags (common metadata) in
          let title := basic_title c f in
          let artist := basic_artist c in
          let album := basic_album c in
          let genre := basic_genre c in
          let duration := basic_duration metadata in
          uploaded ← upload_to_drive sv f songPath;
          match uploaded with
          | inl early => mret early
          | inr driveFileId =>
              delete_temp songPath;;
              enriched ←
                (if Str.nonempty title && negb (bool_decide (artist = "Unknown")) then
                   art_genre ← musicbrainz sv title artist genre;
                   lyrics ← lrclib sv title artist;
                   mret (art_genre.1, art_genre.2, lyrics)
                 else mret (VNull, genre, VNull));
              save_song sv title artist album enriched.1.2 duration
                enriched.1.1 enriched.2 driveFileId
          end
      end
  end.

(** ** GET /songs *)

Definition list_songs : js response :=
  songs ← readJSON SONGS_FILE;
  res_json songs.

(** ** GET /stream/:id *)

(** [s => s.id === id] *)
Definition has_id (id : value) (s : value) : js bool :=
  sid ← get s "id";
  mret (strict_eq sid id).

Definition stream (sv : services) (id : string) : js response :=
  songs ← readJSON SONGS_FILE;
  song ← Array_find songs (has_id (VString id));
  if negb (truthy song) then
    console_error ("Song not found for ID: " +:+ id);;
    mret (error_reply 404 "Song not found")
  else
    driveFileId ← get song "driveFileId";
    if negb (truthy driveFileId) then
      get song "title";;
      console_error "No Drive file ID for song:";;
      mret (error_reply 404 "Audio file not found")
    else
      client ← try_catch (getDriveClient sv;; mret None)
        (λ err,
           console_error ("Failed to initialize Drive client: " +:+ message err);;
           mret (Some (error_reply 500 "Failed to initialize Google Drive")));
      match client with
      | Some early => mret early
      | None =>
          try_catch
            (data ← await (files_get sv driveFileId);
             mret {| status := 200;
                     headers := [("Content-Type", "audio/mpeg"); ("Accept-Ranges", "bytes")];
                     body_of := Stream data |})
            (λ err,
               console_error ("Drive streaming error: " +:+ message err);;
               mret (error_reply 500 "Failed to stream audio"))
      end.

(** ** GET /search *)

(** [s => s.title.toLowerCase().includes(q) || s.artist.toLowerCase().includes(q)] *)
Definition matches (E : engine) (q : string) (s : value) : js bool :=
  title ← get s "title";
  title ← toLowerCase E title;
  if Str.includes title q then mret true
  else
    artist ← get s "artist";
    artist ← toLowerCase E artist;
    mret (Str.includes artist q).

(** [query_q] is [req.query.q]: [None] when the parameter is absent. *)
Definition search (E : engine) (query_q : option string) : js response :=
  let q := String_toLowerCase E (or_else query_q "") in
  songs ← readJSON SONGS_FILE;
  results ← Array_filter songs (matches E q);
  res_json results.

(** ** The playlist routes *)

Definition list_playlists : js response :=
  playlists ← readJSON PLAYLISTS_FILE;
  res_json playlists.

(** POST /playlist; [name] is [req.body.name]. *)
Definition create_playlist (sv : services) (name : value) : js response :=
  if negb (truthy name) then mret (error_reply 400 "Playlist name required")
  else
    playlists ← readJSON PLAYLISTS_FILE;
    songs ← alloc (OArray []);
    newPlaylist ← alloc (ORecord [("id", VString (uuidv4 sv)); ("name", name); ("songs", songs)]);
    Array_push playlists newPlaylist;;
    writeJSON PLAYLISTS_FILE playlists;;
    res_json newPlaylist.

(** PUT /playlist/:id/add; [songId] is [req.body.songId]. *)
Definition add_song (id : string) (songId : value) : js response :=
  playlists ← readJSON PLAYLISTS_FILE;
  playlist ← Array_find playlists (has_id (VString id));
  if negb (truthy playlist) then mret (error_reply 404 "Playlist not found")
  else
    songs ← readJSON SONGS_FILE;
    song ← Array_find songs (has_id songId);
    if negb (truthy song) then mret (error_reply 404 "Song not found")
    else
      in_playlist ← get playlist "songs";
      present ← Array_includes in_playlist song;
      (if negb present then
         in_playlist ← get playlist "songs";
         Array_push in_playlist song
       else mret ());;
      writeJSON PLAYLISTS_FILE playlists;;
      res_json playlist.

(** GET /playlist/:id *)
Definition get_playlist (id : string) : js response :=
  playlists ← readJSON PLAYLISTS_FILE;
  playlist ← Array_find playlists (has_id (VString id));
  if negb (truthy playlist) then mret (error_reply 404 "Playlist not found")
  else res_json playlist.

(** * The vocabulary of the properties

  The predicates in which the properties below are stated, and the
  worlds and services on which they are run. *)

(** ** Documents *)

(** Nesting depth of a document: the fuel [inspect] needs. *)
Fixpoint depth (d : json) : nat :=
  match d with
  | JArray ds => S (foldr (λ d n, depth d `max` n) 0 ds)
  | JObject ps => S (foldr (λ p n, depth p.2 `max` n) 0 ps)
  | _ => 0
  end.

(** ** What [reify] builds *)

Definition max_depth (ds : list json) : nat := foldr (λ d n, depth d `max` n) 0 ds.

Definition reify_ok (d : json) : Prop :=
  ∀ h v h', reify d h = (v, h') →
    (∃ k, h' = h ++ k) ∧
    length h + depth d ≤ length h' ∧
    inspect (depth d) h' v = Some (of_json d).

(** [v] has shape [s] in world [w]. *)
Definition holds (w : world) (v : value) (s : shape) : Prop :=
  inspect (length (heap w)) (heap w) v = Some s.

(** ** [readJSON] case by case *)

Definition reset (f : file) (w : world) : world :=
  set_heap (heap w ++ [OArray []])
    (set_files (<[f := Document (JArray [])]> (files w)) w).

(** ** The catalog store *)

Definition empty_world : world :=
  {| files := ∅; heap := []; console := []; drive := [] |}.

Definition one_song_heap : world :=
  set_heap [ORecord [("id", VString "s1"); ("title", VString "Blue Skies")];
            OArray [VRef 0]] empty_world.

(** The collection the upload handler writes holds a [Date]; what a read
    returns holds the date's ISO string in its place. *)
Definition dated_heap : world :=
  set_heap [ODate "2026-01-01T00:00:00.000Z";
            ORecord [("id", VString "s1"); ("createdAt", VRef 0)];
            OArray [VRef 1]] empty_world.

(** ** Heap values and the documents they came from *)

(** [v] was built from document [d]: it has the document's shape, found
    within the fuel [JSON.stringify] has. *)
Definition denotes (h : list object) (v : value) (d : json) : Prop :=
  ∃ n, n ≤ length h ∧ inspect n h v = Some (of_json d).

(** The first property named [k] of a document that is an object. *)
Fixpoint field_in (k : string) (ps : list (string * json)) : option json :=
  match ps with
  | [] => None
  | (k', d) :: ps' => if bool_decide (k' = k) then Some d else field_in k ps'
  end.

Definition field (k : string) (d : json) : option json :=
  match d with
  | JObject ps => field_in k ps
  | _ => None
  end.

Definition json_truthy (d : json) : bool :=
  match d with
  | JNull => false
  | JBool b => b
  | JNumber n => negb (n =? 0)%Z
  | JString s => Str.nonempty s
  | JArray _ | JObject _ => true
  end.

(** ** What a read of the store returns *)

(** The collection a backing file stands for: empty when the file is
    absent, blank or rejected, the array it holds otherwise. *)
Definition stored (c : option content) (ds : list json) : Prop :=
  match c with
  | None | Some Blank | Some Invalid => ds = []
  | Some (Document d) => d = JArray ds
  end.

(** ** GET /search *)

(** Two bytes that are one letter when case is ignored: the same byte,
    or a letter A to Z and its small form. *)
Definition capital_of (a b : ascii) : Prop :=
  65 ≤ nat_of_ascii a ≤ 90 ∧ nat_of_ascii b = nat_of_ascii a + 32.
Definition same_letter (a b : ascii) : Prop :=
  a = b ∨ capital_of a b ∨ capital_of b a.

(** The same text, case ignored. *)
Definition same_text (s t : string) : Prop :=
  Forall2 same_letter (list_ascii_of_string s) (list_ascii_of_string t).

(** [q] occurs in [s] when case is ignored: a part of [s] is [q] but for
    the case of its letters. *)
Definition ci_substring (q s : string) : Prop :=
  ∃ pre mid post, s = pre +:+ mid +:+ post ∧ same_text mid q.

(** The lower-cased [q] occurs in the lower-cased [s]: what the code
    tests. *)
Definition lowered_in (E : engine) (q s : string) : Prop :=
  ∃ pre post, String_toLowerCase E s = pre +:+ String_toLowerCase E q +:+ post.

Definition string_field (k : string) (d : json) : option string :=
  match field k d with
  | Some (JString s) => Some s
  | _ => None
  end.

(** A record of the song collection: an object whose title and artist
    are strings. *)
Definition song_record (d : json) : Prop :=
  is_Some (string_field "title" d) ∧ is_Some (string_field "artist" d).

(** The query is, case ignored, a substring of the title or of the
    artist. *)
Definition query_matches (q : string) (d : json) : Prop :=
  ci_substring q (default "" (string_field "title" d)) ∨
  ci_substring q (default "" (string_field "artist" d)).

(** The lower-cased query occurs in the lower-cased title or in the
    lower-cased artist. *)
Definition lowered_match (E : engine) (q : string) (d : json) : Prop :=
  lowered_in E q (default "" (string_field "title" d)) ∨
  lowered_in E q (default "" (string_field "artist" d)).

(** A song record whose title and artist are ASCII text. *)
Definition ascii_record (d : json) : Prop :=
  ∃ t a, string_field "title" d = Some t ∧ string_field "artist" d = Some a ∧
         Str.is_ascii t = true ∧ Str.is_ascii a = true.

(** What the filter's callback computes on the document a value denotes. *)
Definition json_matches (E : engine) (q : string) (d : json) : option bool :=
  match string_field "title" d with
  | Some t =>
      if Str.includes (String_toLowerCase E t) q then Some true
      else match string_field "artist" d with
           | Some a => Some (Str.includes (String_toLowerCase E a) q)
           | None => None
           end
  | None => None
  end.

(** An engine for ASCII text: it lower-cases the letters A to Z and
    nothing else. *)
Definition ascii_engine : engine :=
  {| String_toLowerCase := Str.fold_ascii;
     toLowerCase_ascii := λ s _, eq_refl |}.

(** An engine that lower-cases ASCII text, and the two Greek texts used
    below as ECMAScript does: a capital sigma becomes a final sigma at
    the end of a word and a plain small sigma elsewhere.  The texts are
    the capitals omicron and sigma (U+039F U+03A3), which become a small
    omicron and a final sigma (U+03BF U+03C2), and the capital sigma
    alone, which becomes a small sigma (U+03C3). *)
Definition final_sigma (s : string) : string :=
  if Str.is_ascii s then Str.fold_ascii s
  else if bool_decide (s = "ΟΣ") then "ος"
  else if bool_decide (s = "Σ") then "σ"
  else s.
Definition sigma_engine : engine :=
  {| String_toLowerCase := final_sigma;
     toLowerCase_ascii := λ s H,
       f_equal (λ b : bool,
                  if b then Str.fold_ascii s
                  else if bool_decide (s = "ΟΣ") then "ος"
                  else if bool_decide (s = "Σ") then "σ"
                  else s) H |}.

(** A song whose title ends in a capital sigma. *)
Definition sigma_song : json :=
  JObject [("id", JString "s5"); ("title", JString "ΟΣ"); ("artist", JString "Ana")].

Definition blue_skies : json :=
  JObject [("id", JString "s1"); ("title", JString "Blue Skies"); ("artist", JString "Ana")].

Definition blue_world : world :=
  set_files {[ SONGS_FILE := Document (JArray [blue_skies]) ]} empty_world.

Definition sigma_world : world :=
  set_files {[ SONGS_FILE := Document (JArray [sigma_song]) ]} empty_world.

Definition found (ds : list json) : outcome response :=
  Returned {| status := 200; headers := []; body_of := Json (Some (JArray ds)) |}.

(** ** GET /stream/:id *)

(** The document has the string [id] as its id. *)
Definition has_json_id (id : string) (d : json) : bool :=
  bool_decide (string_field "id" d = Some id).

(** The record's remote-storage handle is absent or falsy (null, false,
    0 or the empty string). *)
Definition no_handle (d : json) : Prop :=
  match field "driveFileId" d with
  | Some h => json_truthy h = false
  | None => True
  end.

(** Nothing is created, changed or removed, on Drive or on disk, except
    that file [f] is left holding the empty collection when it was absent,
    blank or rejected by the parser (the reset a read performs). *)
Definition untouched_but_reset (f : file) (w w' : world) : Prop :=
  drive w' = drive w ∧
  (∀ g, g ≠ f → files w' !! g = files w !! g) ∧
  match files w !! f with
  | Some (Document d) => files w' !! f = Some (Document d)
  | _ => files w' !! f = Some (Document (JArray []))
  end.

(** Services that answer nothing: every external call is rejected. *)
Definition offline : services :=
  {| CLIENT_SECRET_JSON := None;
     TOKEN_JSON := None;
     parseFile := λ _, Rejected "offline";
     files_create := λ _ _, Rejected "offline";
     permissions_create := λ _, Rejected "offline";
     files_get := λ _, Rejected "offline";
     mb_search := λ _ _, Rejected "offline";
     mb_lookup := λ _, Rejected "offline";
     getUnsynced := λ _ _, Rejected "offline";
     uuidv4 := "00000000-0000-4000-8000-000000000000";
     now := "2026-01-01T00:00:00.000Z" |}.

(** A song that was catalogued without a Drive handle. *)
Definition orphan_song : json :=
  JObject [("id", JString "s2"); ("title", JString "Lost"); ("artist", JString "Ana");
           ("driveFileId", JNull)].

Definition orphan_world : world :=
  set_files {[ SONGS_FILE := Document (JArray [blue_skies; orphan_song]) ]} empty_world.

(** ** Actions that leave the disk and Drive alone *)

Definition quiet {A} (m : js A) : Prop :=
  ∀ w, files (m w).2 = files w ∧
       drive (m w).2 = drive w ∧
       console w `prefix_of` console (m w).2.

(** ** POST /upload: the staged file and the Drive step *)

(** The object Drive keeps for an upload, before it is shared. *)
Definition uploaded_object (f : multer_file) (id : string) : remote_object :=
  {| remote_id := id; remote_name := filename f;
     remote_mimeType := mimetype f; remote_public := false |}.

(** The Drive step fails: the upload is rejected, or the upload is
    accepted and sharing it is rejected. *)
Definition drive_upload_fails (sv : services) (f : multer_file) : Prop :=
  match files_create sv (filename f) (mimetype f) with
  | Rejected _ => True
  | Resolved id => ∃ msg, permissions_create sv id = Rejected msg
  end.

(** The line a failed deletion of [p] leaves on the console. *)
Definition deletion_failure (p : file) : line :=
  Err ("Failed to delete temp file: " +:+ message (ENOENT p)).

(** Credentials and tokens that [getDriveClient] accepts. *)
Definition good_secret : option content :=
  Some (Document (JObject [("web", JObject [
    ("client_id", JString "client");
    ("client_secret", JString "secret");
    ("redirect_uris", JArray [JString "http://localhost:3000/oauth2callback"])])])).
Definition good_token : option content :=
  Some (Document (JObject [("access_token", JString "token")])).

(** Drive is reachable and refuses the upload; nothing else answers. *)
Definition drive_refuses : services :=
  {| CLIENT_SECRET_JSON := good_secret;
     TOKEN_JSON := good_token;
     parseFile := λ _, Rejected "unsupported format";
     files_create := λ _ _, Rejected "quota exceeded";
     permissions_create := λ _, Rejected "offline";
     files_get := λ _, Rejected "offline";
     mb_search := λ _ _, Rejected "offline";
     mb_lookup := λ _, Rejected "offline";
     getUnsynced := λ _ _, Rejected "offline";
     uuidv4 := "00000000-0000-4000-8000-000000000000";
     now := "2026-01-01T00:00:00.000Z" |}.

Definition take_five : multer_file :=
  {| originalname := "Take Five.mp3";
     filename := "3f2c9d0e-8a41-4c55-9b1e-7d6f5a4b3c2d.mp3";
     mimetype := "audio/mpeg" |}.

(** The catalog holds one song and the upload is staged. *)
Definition staged_world : world :=
  set_files {[ SONGS_FILE := Document (JArray [blue_skies]);
               UPLOAD_DIR (filename take_five) := Invalid ]} empty_world.

(** ** Actions that write one file only *)

Definition touches (f : file) {A} (m : js A) : Prop :=
  ∀ w, (∀ g, g ≠ f → files (m w).2 !! g = files w !! g) ∧
       drive (m w).2 = drive w ∧
       console w `prefix_of` console (m w).2.

(** Everything the handler does once the staged file has been deleted
    after a successful Drive step. *)
Definition after_cleanup (sv : services) (title artist album : string) (genre : value)
    (duration : Z) (driveFileId : string) : js response :=
  enriched ←
    (if Str.nonempty title && negb (bool_decide (artist = "Unknown")) then
       art_genre ← musicbrainz sv title artist genre;
       lyrics ← lrclib sv title artist;
       mret (art_genre.1, art_genre.2, lyrics)
     else mret (VNull, genre, VNull));
  save_song sv title artist album enriched.1.2 duration enriched.1.1 enriched.2 driveFileId.

(** ** Actions that cannot tell whether a file is there *)

Definition alike (p : file) (w1 w2 : world) : Prop :=
  heap w1 = heap w2 ∧ drive w1 = drive w2 ∧ delete p (files w1) = delete p (files w2).

Definition blind (p : file) {A} (m : js A) : Prop :=
  ∀ w1 w2, alike p w1 w2 → (m w1).1 = (m w2).1 ∧ alike p (m w1).2 (m w2).2.

(** ** POST /upload: the record that is saved *)

Definition primitive (v : value) : Prop :=
  match v with VRef _ => False | _ => True end.

(** What [JSON.stringify] writes for a primitive; [None] for [undefined],
    which is left out of an object. *)
Definition prim_json (v : value) : option json :=
  match v with
  | VUndefined | VRef _ => None
  | VNull => Some JNull
  | VBool b => Some (JBool b)
  | VNumber n => Some (JNumber n)
  | VString s => Some (JString s)
  end.

Definition prim_shape (v : value) : shape :=
  match v with
  | VUndefined | VRef _ => SUndefined
  | VNull => SNull
  | VBool b => SBool b
  | VNumber n => SNumber n
  | VString s => SString s
  end.

(** The properties of [newSong] before [createdAt], in the order of the
    object literal. *)
Definition song_props (sv : services) (title artist album : string) (genre : value)
    (duration : Z) (albumArt lyrics : value) (driveFileId : string)
  : list (string * value) :=
  [("id", VString (uuidv4 sv));
   ("title", VString title);
   ("artist", VString artist);
   ("album", VString album);
   ("genre", genre);
   ("duration", VNumber duration);
   ("albumArt", albumArt);
   ("lyrics", lyrics);
   ("driveFileId", VString driveFileId)].

(** The record as it is written to the songs file and sent back. *)
Definition song_document (sv : services) (title artist album : string) (genre : value)
    (duration : Z) (albumArt lyrics : value) (driveFileId : string) : json :=
  JObject
    (omap (λ p, pair p.1 <$> prim_json p.2)
       (song_props sv title artist album genre duration albumArt lyrics driveFileId)
     ++ [("createdAt", JString (now sv))]).

(** ** POST /upload: the whole success path *)

(** The metadata the handler works from: what music-metadata reports, or
    the empty object when extraction throws. *)
Definition extracted (sv : services) (f : multer_file) : audio_metadata :=
  match parseFile sv (UPLOAD_DIR (filename f)) with
  | Resolved m => m
  | Rejected _ => no_metadata
  end.

Definition tags_of (sv : services) (f : multer_file) : common_tags :=
  default no_tags (common (extracted sv f)).

(** What the MusicBrainz stage yields: album art and genre. *)
Definition mb_result (sv : services) (title artist : string) (genre : value) : value * value :=
  match mb_search sv title artist with
  | Resolved (recordingMbid :: _) =>
      match mb_lookup sv recordingMbid with
      | Resolved lookupResult =>
          (match lookupResult.1 with
           | releaseMbid :: _ =>
               VString ("https://coverartarchive.org/release/" +:+ releaseMbid +:+ "/front-500")
           | [] => VNull
           end,
           match lookupResult.2 with
           | g :: _ => VString g
           | [] => genre
           end)
      | Rejected _ => (VNull, genre)
      end
  | _ => (VNull, genre)
  end.

Definition lrc_result (sv : services) (title artist : string) : value :=
  match getUnsynced sv title artist with
  | Resolved (Some plainLyrics) => of_primitive plainLyrics
  | _ => VNull
  end.

(** Whether the enrichment stage runs. *)
Definition enriches (title artist : string) : bool :=
  Str.nonempty title && negb (bool_decide (artist = "Unknown")).

(** The record a successful upload of [f] creates, given the handle Drive
    returned. *)
Definition uploaded_song (sv : services) (f : multer_file) (driveFileId : string) : json :=
  let c := tags_of sv f in
  let title := basic_title c f in
  let artist := basic_artist c in
  song_document sv title artist (basic_album c)
    (if enriches title artist then (mb_result sv title artist (basic_genre c)).2
     else basic_genre c)
    (basic_duration (extracted sv f))
    (if enriches title artist then (mb_result sv title artist (basic_genre c)).1 else VNull)
    (if enriches title artist then lrc_result sv title artist else VNull)
    driveFileId.

(** ** The extension and the title *)

(** The file name without its last [length ext] characters. *)
Definition strip_extension (name : string) : string :=
  Str.take (String.length name - String.length (Path.extname name)) name.

(** The name has no extension, or the text of its extension first occurs
    in the name where the extension itself stands, at the end. *)
Definition extension_occurs_last (name : string) : Prop :=
  Path.extname name = "" ∨
  Str.indexOf name (Path.extname name)
  = Some (String.length name - String.length (Path.extname name)).

(** ** POST /upload: the defaults *)

(** A tag is missing when it is absent or the empty string. *)
Definition missing (tag : option string) : Prop := tag = None ∨ tag = Some "".

(** The genre MusicBrainz reports for the upload, when the enrichment
    stage runs and the lookup names one. *)
Definition reported_genre (sv : services) (f : multer_file) : option string :=
  let title := basic_title (tags_of sv f) f in
  let artist := basic_artist (tags_of sv f) in
  if enriches title artist then
    match mb_search sv title artist with
    | Resolved (recordingMbid :: _) =>
        match mb_lookup sv recordingMbid with
        | Resolved lookupResult => head lookupResult.2
        | Rejected _ => None
        end
    | _ => None
    end
  else None.

(** Drive accepts the upload; the file carries no tags and nothing else
    answers. *)
Definition untagged : services :=
  {| CLIENT_SECRET_JSON := good_secret;
     TOKEN_JSON := good_token;
     parseFile := λ _, Rejected "unsupported format";
     files_create := λ _ _, Resolved "drive-1";
     permissions_create := λ _, Resolved ();
     files_get := λ _, Rejected "offline";
     mb_search := λ _ _, Rejected "offline";
     mb_lookup := λ _, Rejected "offline";
     getUnsynced := λ _ _, Rejected "offline";
     uuidv4 := "00000000-0000-4000-8000-000000000000";
     now := "2026-01-01T00:00:00.000Z" |}.

(** The tags name title and artist but no genre, and MusicBrainz reports
    one. *)
Definition enriching : services :=
  {| CLIENT_SECRET_JSON := good_secret;
     TOKEN_JSON := good_token;
     parseFile := λ _, Resolved
       {| common := Some {| tag_title := Some "Take Five";
                            tag_artist := Some "Dave Brubeck";
                            tag_album := None;
                            tag_genre := None |};
          format_duration := None |};
     files_create := λ _ _, Resolved "drive-1";
     permissions_create := λ _, Resolved ();
     files_get := λ _, Rejected "offline";
     mb_search := λ _ _, Resolved ["recording-1"];
     mb_lookup := λ _, Resolved (["release-1"], ["jazz"]);
     getUnsynced := λ _ _, Resolved None;
     uuidv4 := "00000000-0000-4000-8000-000000000000";
     now := "2026-01-01T00:00:00.000Z" |}.

(** ** PUT /playlist/:id/add *)

Definition mix (songs : list json) : json :=
  JObject [("id", JString "p1"); ("name", JString "Mix"); ("songs", JArray songs)].

(** The catalog holds Blue Skies, and the playlist Mix already lists it. *)
Definition mix_world : world :=
  set_files {[ SONGS_FILE := Document (JArray [blue_skies]);
               PLAYLISTS_FILE := Document (JArray [mix [blue_skies]]) ]} empty_world.

(** ** Where [reify] puts a document *)

Definition laid_out {A B} (P : B → nat → nat → A → Prop)
  : list B → nat → nat → list A → Prop :=
  fix go ds lo hi vs :=
    match ds, vs with
    | [], [] => hi = lo
    | d :: ds', v :: vs' => ∃ mid, P d lo mid v ∧ go ds' mid hi vs'
    | _, _ => False
    end.

Fixpoint built (h : list object) (d : json) (lo hi : nat) (v : value) : Prop :=
  match d with
  | JNull => v = VNull ∧ hi = lo
  | JBool b => v = VBool b ∧ hi = lo
  | JNumber n => v = VNumber n ∧ hi = lo
  | JString s => v = VString s ∧ hi = lo
  | JArray ds =>
      ∃ top vs, hi = S top ∧ v = VRef top ∧ h !! top = Some (OArray vs) ∧
                laid_out (built h) ds lo top vs
  | JObject ps =>
      ∃ top qs, hi = S top ∧ v = VRef top ∧ h !! top = Some (ORecord qs) ∧
                laid_out (λ p lo hi q, q.1 = p.1 ∧ built h p.2 lo hi q.2) ps lo top qs
  end.

Definition reify_built (d : json) : Prop :=
  ∀ h v h', reify d h = (v, h') → built h' d (length h) (length h') v.

(** The document with the value of its first property [k] replaced. *)
Fixpoint set_field_in (k : string) (d' : json) (ps : list (string * json))
  : list (string * json) :=
  match ps with
  | [] => []
  | (k', d) :: ps' =>
      if bool_decide (k' = k) then (k', d') :: ps' else (k', d) :: set_field_in k d' ps'
  end.

Definition set_field (k : string) (d' : json) (d : json) : json :=
  match d with
  | JObject ps => JObject (set_field_in k d' ps)
  | _ => d
  end.

(** * The vocabulary of the further properties *)

(** ** [getDriveClient] *)

(** Absent or [null]: reading a property of it throws. *)
Definition nullish (od : option json) : bool :=
  match od with
  | None | Some JNull => true
  | Some _ => false
  end.

(** Property [k] of the document is there and truthy. *)
Definition truthy_field (k : string) (d : json) : bool :=
  match field k d with
  | Some v => json_truthy v
  | None => false
  end.

(** Credentials [getDriveClient] accepts: [web] carries a truthy
    [client_id] and [client_secret], and a [redirect_uris] that can be
    indexed. *)
Definition usable_credentials (c : json) : bool :=
  match field "web" c with
  | Some web =>
      truthy_field "client_id" web && truthy_field "client_secret" web
      && negb (nullish (field "redirect_uris" web))
  | None => false
  end.

(** Both environment variables parse, to usable credentials and to tokens
    with a truthy [access_token]. *)
Definition configured (sv : services) : bool :=
  match CLIENT_SECRET_JSON sv, TOKEN_JSON sv with
  | Some (Document c), Some (Document t) =>
      usable_credentials c && truthy_field "access_token" t
  | _, _ => false
  end.

(** A value read from a document: it denotes the part read, or is
    [undefined] when the part is not there. *)
Definition denotes_opt (h : list object) (v : value) (od : option json) : Prop :=
  match od with
  | Some d => denotes h v d
  | None => v = VUndefined
  end.

(** ** Reading any backing file *)

(** The document a read makes of a backing file: the one it holds, or the
    empty collection when the file is absent, blank or rejected. *)
Definition read_back (c : option content) : json :=
  match c with
  | Some (Document d) => d
  | _ => JArray []
  end.

(** ** POST /upload: what Drive is left with *)

(** Drive accepts the upload and refuses to share it. *)
Definition sharing_refused : services :=
  {| CLIENT_SECRET_JSON := good_secret;
     TOKEN_JSON := good_token;
     parseFile := λ _, Rejected "unsupported format";
     files_create := λ _ _, Resolved "drive-1";
     permissions_create := λ _, Rejected "insufficient permissions";
     files_get := λ _, Rejected "offline";
     mb_search := λ _ _, Rejected "offline";
     mb_lookup := λ _, Rejected "offline";
     getUnsynced := λ _ _, Rejected "offline";
     uuidv4 := "00000000-0000-4000-8000-000000000000";
     now := "2026-01-01T00:00:00.000Z" |}.

(** The object of an upload once it is readable by anyone. *)
Definition shared_object (f : multer_file) (id : string) : remote_object :=
  {| remote_id := id; remote_name := filename f;
     remote_mimeType := mimetype f; remote_public := true |}.

(** The tags carry an empty list of genres, and nothing else answers. *)
Definition genreless : services :=
  {| CLIENT_SECRET_JSON := good_secret;
     TOKEN_JSON := good_token;
     parseFile := λ _, Resolved
       {| common := Some {| tag_title := Some "Take Five";
                            tag_artist := Some "Dave Brubeck";
                            tag_album := Some "Time Out";
                            tag_genre := Some [] |};
          format_duration := Some 324%Z |};
     files_create := λ _ _, Resolved "drive-1";
     permissions_create := λ _, Resolved ();
     files_get := λ _, Rejected "offline";
     mb_search := λ _ _, Rejected "offline";
     mb_lookup := λ _, Rejected "offline";
     getUnsynced := λ _ _, Rejected "offline";
     uuidv4 := "00000000-0000-4000-8000-000000000000";
     now := "2026-01-01T00:00:00.000Z" |}.

(** ** GET /stream/:id: a song that has a Drive handle *)

(** What [res.set] and [pipe] send when Drive delivers the bytes. *)
Definition audio_reply (data : string) : response :=
  {| status := 200;
     headers := [("Content-Type", "audio/mpeg"); ("Accept-Ranges", "bytes")];
     body_of := Stream data |}.

(** Drive is reachable: it stores an upload under the handle drive-7 and
    serves that file, and no other. *)
Definition serving : services :=
  {| CLIENT_SECRET_JSON := good_secret;
     TOKEN_JSON := good_token;
     parseFile := λ _, Rejected "unsupported format";
     files_create := λ _ _, Resolved "drive-7";
     permissions_create := λ _, Resolved ();
     files_get := λ fileId,
       if bool_decide (fileId = VString "drive-7") then Resolved "ID3 audio bytes"
       else Rejected "File not found";
     mb_search := λ _ _, Rejected "offline";
     mb_lookup := λ _, Rejected "offline";
     getUnsynced := λ _ _, Rejected "offline";
     uuidv4 := "00000000-0000-4000-8000-000000000000";
     now := "2026-01-01T00:00:00.000Z" |}.

(** A catalogued song whose audio is on Drive, and one whose handle Drive
    no longer knows. *)
Definition kept_song : json :=
  JObject [("id", JString "s7"); ("title", JString "So What"); ("artist", JString "Miles");
           ("driveFileId", JString "drive-7")].
Definition stale_song : json :=
  JObject [("id", JString "s8"); ("title", JString "Gone"); ("artist", JString "Miles");
           ("driveFileId", JString "drive-8")].
Definition kept_world : world :=
  set_files {[ SONGS_FILE := Document (JArray [kept_song; stale_song]) ]} empty_world.

(** ** The playlist routes *)

(** The playlist POST /playlist creates for a name that is a primitive. *)
Definition new_playlist (sv : services) (name : value) : json :=
  JObject [("id", JString (uuidv4 sv));
           ("name", default JNull (prim_json name));
           ("songs", JArray [])].

Definition ok_reply (d : json) : response :=
  {| status := 200; headers := []; body_of := Json (Some d) |}.

(** Two playlists on disk, the second without a list of songs. *)
Definition bare_playlist : json :=
  JObject [("id", JString "p2"); ("name", JString "Bare")].
Definition playlists_world : world :=
  set_files {[ SONGS_FILE := Document (JArray [blue_skies]);
               PLAYLISTS_FILE := Document (JArray [mix []; bare_playlist]) ]} empty_world.

(** ** GET /search over records of any form *)

(** The callback of the filter can be evaluated on the record: the title
    is a string and, unless the lower-cased query occurs in the
    lower-cased title, the artist is a string too. *)
Definition searchable (E : engine) (q : string) (d : json) : Prop :=
  match string_field "title" d with
  | Some t => lowered_in E q t ∨ is_Some (string_field "artist" d)
  | None => False
  end.

(** The title and the artist of the record, where they are strings, are
    ASCII text. *)
Definition ascii_text (d : json) : Prop :=
  Str.is_ascii (default "" (string_field "title" d)) = true ∧
  Str.is_ascii (default "" (string_field "artist" d)) = true.

(** A record that has lost its artist. *)
Definition anonymous_song : json :=
  JObject [("id", JString "s3"); ("title", JString "Untitled Blues")].
Definition anonymous_world : world :=
  set_files {[ SONGS_FILE := Document (JArray [blue_skies; anonymous_song]) ]} empty_world.

(** ** A songs file that is not a collection *)

(** The document is anything but an array. *)
Definition not_an_array (d : json) : Prop :=
  match d with
  | JArray _ => False
  | _ => True
  end.

(** The songs file holds valid JSON that is an object, and the upload is
    staged. *)
Definition misfiled_world : world :=
  set_files {[ SONGS_FILE := Document (JObject [("songs", JArray [])]);
               UPLOAD_DIR (filename take_five) := Invalid ]} empty_world.

(** ** File names *)

(** A character that is neither the dot nor the slash, and a string made
    of such characters. *)
Definition plain_char (c : ascii) : Prop := c ≠ "."%char ∧ c ≠ "/"%char.
Definition plain (s : string) : Prop := Forall plain_char (list_ascii_of_string s).

(** The string holds no slash. *)
Definition slashless (s : string) : Prop := "/"%char ∉ list_ascii_of_string s.

(** ** POST /upload: what the enrichment stage adds *)





(** * Properties *)

(** ** Running the monad *)

Lemma bind_returned {A B} (m : js A) (f : A → js B) w a w1 :
  m w = (Returned a, w1) → (m ≫= f) w = f a w1.
Proof. intros H. unfold mbind, js_bind. by rewrite H. Qed.

Lemma bind_thrown {A B} (m : js A) (f : A → js B) w e w1 :
  m w = (Thrown e, w1) → (m ≫= f) w = (Thrown e, w1).
Proof. intros H. unfold mbind, js_bind. by rewrite H. Qed.

Lemma try_returned {A} (m : js A) (k : exn → js A) w a w1 :
  m w = (Returned a, w1) → try_catch m k w = (Returned a, w1).
Proof. intros H. unfold try_catch. by rewrite H. Qed.

Lemma try_thrown {A} (m : js A) (k : exn → js A) w e w1 :
  m w = (Thrown e, w1) → try_catch m k w = k e w1.
Proof. intros H. unfold try_catch. by rewrite H. Qed.

(** ** Induction on documents *)

Lemma json_ind (P : json → Prop) :
  P JNull → (∀ b, P (JBool b)) → (∀ n, P (JNumber n)) → (∀ s, P (JString s)) →
  (∀ ds, Forall P ds → P (JArray ds)) →
  (∀ ps, Forall (λ p, P p.2) ps → P (JObject ps)) →
  ∀ d, P d.
Proof.
  intros Hnull Hbool Hnum Hstr Harr Hobj. fix IH 1.
  intros [ | b | n | s | ds | ps];
    [apply Hnull | apply Hbool | apply Hnum | apply Hstr | apply Harr | apply Hobj].
  - induction ds as [|d ds IHds]; constructor; [apply IH | apply IHds].
  - induction ps as [|[k d] ps IHps]; constructor; [apply IH | apply IHps].
Qed.

(** ** [inspect] reads only the cells it reaches *)

Lemma inspect_agree fuel fuel' h h' v s :
  inspect fuel h v = Some s →
  fuel ≤ fuel' →
  (∀ l o, h !! l = Some o → h' !! l = Some o) →
  inspect fuel' h' v = Some s.
Proof.
  revert fuel' v s. induction fuel as [|fuel IH]; intros fuel' v s Hi Hle Hh.
  - destruct v; simpl in *; try done; by destruct fuel'.
  - destruct v as [ | | | | |l]; try (by destruct fuel').
    destruct fuel' as [|fuel']; [lia|]. cbn [inspect] in *.
    destruct (h !! l) as [o|] eqn:Hl; [|done].
    rewrite (Hh _ _ Hl). destruct o as [vs|ps|iso]; [| |done].
    + destruct (mapM (inspect fuel h) vs) as [ss|] eqn:Hm; [|done].
      simpl in Hi. simplify_eq.
      apply mapM_Some in Hm.
      assert (mapM (inspect fuel' h') vs = Some ss) as ->; [|done].
      apply mapM_Some. eapply Forall2_impl; [exact Hm|].
      intros x y Hxy. apply IH; [done|lia|done].
    + destruct (mapM (λ p, pair p.1 <$> inspect fuel h p.2) ps) as [ss|] eqn:Hm; [|done].
      simpl in Hi. simplify_eq.
      apply mapM_Some in Hm.
      assert (mapM (λ p, pair p.1 <$> inspect fuel' h' p.2) ps = Some ss) as ->; [|done].
      apply mapM_Some. eapply Forall2_impl; [exact Hm|].
      intros [k x] [k' y] Hxy. simpl in *.
      destruct (inspect fuel h x) as [sx|] eqn:Hx; [|done].
      rewrite (IH fuel' x sx Hx ltac:(lia) Hh). done.
Qed.

Lemma inspect_app fuel fuel' h k v s :
  inspect fuel h v = Some s → fuel ≤ fuel' → inspect fuel' (h ++ k) v = Some s.
Proof.
  intros Hi Hle. eapply inspect_agree; [done..|].
  intros l o Hl. by apply lookup_app_l_Some.
Qed.

(** ** What [reify] builds

  The heap only grows, by at least the depth of the document, and the
  value built has the shape of the document. *)

Lemma max_depth_cons d ds : max_depth (d :: ds) = depth d `max` max_depth ds.
Proof. done. Qed.

Lemma thread_reify_ok ds :
  Forall reify_ok ds →
  ∀ h vs h', thread reify ds h = (vs, h') →
    (∃ k, h' = h ++ k) ∧
    length h + max_depth ds ≤ length h' ∧
    Forall2 (λ d v, inspect (max_depth ds) h' v = Some (of_json d)) ds vs.
Proof.
  induction 1 as [|d ds Hd _ IH]; intros h vs h' Ht; simpl in Ht.
  - simplify_eq. split; [by exists []; rewrite app_nil_r|]. split; [simpl; lia|constructor].
  - destruct (reify d h) as [v h1] eqn:Hr.
    destruct (thread reify ds h1) as [vs' h2] eqn:Ht'. simplify_eq.
    destruct (Hd _ _ _ Hr) as ([k1 ->] & Hlen1 & Hi1).
    destruct (IH _ _ _ Ht') as ([k2 ->] & Hlen2 & Hi2).
    split; [exists (k1 ++ k2); by rewrite app_assoc|].
    split; [rewrite max_depth_cons; lia|].
    constructor.
    + apply (inspect_app (depth d) _ _ _ _ _ Hi1). rewrite max_depth_cons; lia.
    + eapply Forall2_impl; [exact Hi2|]. intros x y Hxy.
      apply (inspect_agree _ _ _ _ _ _ Hxy); [|done]. rewrite max_depth_cons; lia.
Qed.

Lemma thread_reify_props_ok (ps : list (string * json)) :
  Forall (λ p, reify_ok p.2) ps →
  ∀ h vs h',
    thread (λ p h, let '(v, h1) := reify p.2 h in ((p.1, v), h1)) ps h = (vs, h') →
    (∃ k, h' = h ++ k) ∧
    length h + max_depth (ps.*2) ≤ length h' ∧
    Forall2 (λ p q, q.1 = p.1 ∧
                    inspect (max_depth (ps.*2)) h' q.2 = Some (of_json p.2)) ps vs.
Proof.
  induction 1 as [|[key d] ps Hd _ IH]; intros h vs h' Ht; simpl in Ht.
  - simplify_eq. split; [by exists []; rewrite app_nil_r|]. split; [simpl; lia|constructor].
  - rewrite fmap_cons, max_depth_cons. cbn [snd] in *.
    destruct (reify d h) as [v h1] eqn:Hr.
    destruct (thread _ ps h1) as [vs' h2] eqn:Ht'. simplify_eq.
    destruct (Hd _ _ _ Hr) as ([k1 ->] & Hlen1 & Hi1).
    destruct (IH _ _ _ Ht') as ([k2 ->] & Hlen2 & Hi2).
    split; [exists (k1 ++ k2); by rewrite app_assoc|].
    split; [lia|].
    constructor.
    + split; [done|]. simpl. apply (inspect_app (depth d) _ _ _ _ _ Hi1). lia.
    + eapply Forall2_impl; [exact Hi2|]. intros x y [Hk Hxy]. split; [done|].
      apply (inspect_agree _ _ _ _ _ _ Hxy); [lia|done].
Qed.

Lemma reify_spec d : reify_ok d.
Proof.
  induction d as [ | b | n | s | ds IH | ps IH] using json_ind;
    intros h v h' Hr; simpl in Hr.
  1-4: simplify_eq; (split; [by exists []; rewrite app_nil_r|]); by split; [simpl; lia|].
  - destruct (thread reify ds h) as [vs h1] eqn:Ht. simplify_eq.
    destruct (thread_reify_ok ds IH _ _ _ Ht) as ([k ->] & Hlen & Hi).
    split; [exists (k ++ [OArray vs]); by rewrite app_assoc|].
    split; [rewrite length_app; simpl; fold (max_depth ds); lia|].
    cbn [depth inspect of_json]. fold (max_depth ds).
    rewrite lookup_app_r, Nat.sub_diag by done. simpl.
    assert (mapM (inspect (max_depth ds) ((h ++ k) ++ [OArray vs])) vs
            = Some (of_json <$> ds)) as ->; [|done].
    apply mapM_Some, Forall2_fmap_r, Forall2_flip.
    eapply Forall2_impl; [exact Hi|]. intros x y Hxy.
    by apply (inspect_app _ _ _ _ _ _ Hxy).
  - destruct (thread _ ps h) as [vs h1] eqn:Ht. simplify_eq.
    destruct (thread_reify_props_ok ps IH _ _ _ Ht) as ([k ->] & Hlen & Hi).
    split; [exists (k ++ [ORecord vs]); by rewrite app_assoc|].
    assert (foldr (λ p n, depth p.2 `max` n) 0 ps = max_depth (ps.*2)) as Hfold.
    { clear. induction ps as [|p ps IHp]; [done|]. unfold max_depth in *. simpl. by rewrite IHp. }
    split; [rewrite length_app; simpl; rewrite Hfold; lia|].
    cbn [depth inspect of_json]. rewrite Hfold.
    rewrite lookup_app_r, Nat.sub_diag by done. simpl.
    assert (mapM (λ p, pair p.1 <$> inspect (max_depth (ps.*2)) ((h ++ k) ++ [ORecord vs]) p.2) vs
            = Some ((λ p, (p.1, of_json p.2)) <$> ps)) as ->; [|done].
    apply mapM_Some, Forall2_fmap_r, Forall2_flip.
    eapply Forall2_impl; [exact Hi|]. intros [k1 d1] [k2 v2] [Hk Hxy]. simpl in *.
    rewrite (inspect_app _ _ _ _ _ _ Hxy ltac:(done)). simpl. by rewrite Hk.
Qed.

(** The JSON image of a document's shape is the document. *)
Lemma toJSON_of_json d : toJSON (of_json d) = Some d.
Proof.
  induction d as [ | b | n | s | ds IH | ps IH] using json_ind; try done.
  - cbn [of_json toJSON]. do 2 f_equal.
    rewrite map_map. induction IH as [|d ds Hd _ IHds]; [done|].
    simpl. by rewrite Hd, IHds.
  - cbn [of_json toJSON]. do 2 f_equal.
    induction IH as [|[k d] ps Hd _ IHps]; [done|].
    cbn [map omap list_omap fst snd] in *. rewrite Hd. cbn [fmap option_fmap option_map].
    by rewrite IHps.
Qed.

Lemma reify_holds d h v h' :
  reify d h = (v, h') → inspect (length h') h' v = Some (of_json d).
Proof.
  intros Hr. destruct (reify_spec d _ _ _ Hr) as (_ & Hlen & Hi).
  eapply inspect_agree; [exact Hi|lia|done].
Qed.

(** ** [readJSON] case by case *)

Lemma readJSON_absent f w :
  files w !! f = None →
  readJSON f w = (Returned (VRef (length (heap w))), reset f w).
Proof.
  intros Hf. unfold readJSON, try_catch, existsSync, mbind, js_bind.
  rewrite Hf. rewrite bool_decide_eq_false_2 by (by intros [? ?]). reflexivity.
Qed.

Lemma readJSON_blank f w :
  files w !! f = Some Blank →
  readJSON f w = (Returned (VRef (length (heap w))), reset f w).
Proof.
  intros Hf. unfold readJSON, try_catch, existsSync, readFileSync, mbind, js_bind.
  rewrite Hf. rewrite bool_decide_eq_true_2 by (by eexists). cbn. rewrite Hf. reflexivity.
Qed.

Lemma readJSON_invalid f w :
  files w !! f = Some Invalid →
  readJSON f w =
    (Returned (VRef (length (heap w))),
     reset f (set_console
       (console w ++ [Err ("Invalid JSON in " +:+ file_name f +:+ ", resetting...")]) w)).
Proof.
  intros Hf. unfold readJSON, try_catch, existsSync, readFileSync, mbind, js_bind.
  rewrite Hf. rewrite bool_decide_eq_true_2 by (by eexists). cbn. rewrite Hf. reflexivity.
Qed.

Lemma readJSON_document f w d :
  files w !! f = Some (Document d) →
  readJSON f w = (Returned (reify d (heap w)).1, set_heap (reify d (heap w)).2 w).
Proof.
  intros Hf. unfold readJSON, try_catch, existsSync, readFileSync, mbind, js_bind.
  rewrite Hf. rewrite bool_decide_eq_true_2 by (by eexists). cbn. rewrite Hf. cbn.
  by destruct (reify d (heap w)).
Qed.

(** ** The catalog store *)

Lemma holds_new_array f w :
  holds (reset f w) (VRef (length (heap w))) (SArray []).
Proof.
  unfold holds, reset. simpl. rewrite length_app, Nat.add_1_r. simpl.
  by rewrite lookup_app_r, Nat.sub_diag.
Qed.

(** C3. When the backing file is absent, blank or rejected by the parser,
    [readJSON] returns (it does not throw) a new empty array, leaves the
    file holding the empty collection, and reading again returns an empty
    array once more without touching the file. *)
Theorem readJSON_recovers (f : file) (w : world) :
  files w !! f = None ∨ files w !! f = Some Blank ∨ files w !! f = Some Invalid →
  ∃ v1 w1 v2 w2,
    readJSON f w = (Returned v1, w1) ∧
    holds w1 v1 (SArray []) ∧
    files w1 = <[f := Document (JArray [])]> (files w) ∧
    readJSON f w1 = (Returned v2, w2) ∧
    holds w2 v2 (SArray []) ∧
    files w2 = files w1.
Proof.
  intros Hf.
  assert (∃ w0, readJSON f w = (Returned (VRef (length (heap w0))), reset f w0) ∧
                files w0 = files w) as (w0 & Hread & Hfiles).
  { destruct Hf as [Hf|[Hf|Hf]].
    - exists w. by split; [apply readJSON_absent|].
    - exists w. by split; [apply readJSON_blank|].
    - exists (set_console
        (console w ++ [Err ("Invalid JSON in " +:+ file_name f +:+ ", resetting...")]) w).
      split; [|done]. rewrite readJSON_invalid by done. reflexivity. }
  set (w1 := reset f w0).
  assert (files w1 !! f = Some (Document (JArray []))) as Hf1.
  { unfold w1, reset. simpl. by rewrite lookup_insert_eq. }
  eexists _, w1, _, _. split; [exact Hread|].
  split; [apply holds_new_array|].
  split; [unfold w1, reset; simpl; by rewrite Hfiles|].
  split; [by apply readJSON_document|].
  split; [|done].
  unfold holds. simpl. rewrite length_app, Nat.add_1_r. simpl.
  by rewrite lookup_app_r, Nat.sub_diag.
Qed.

Lemma readJSON_recovers_witness :
  ∃ v1 w1 v2 w2,
    readJSON SONGS_FILE empty_world = (Returned v1, w1) ∧
    holds w1 v1 (SArray []) ∧
    files w1 = <[SONGS_FILE := Document (JArray [])]> (files empty_world) ∧
    readJSON SONGS_FILE w1 = (Returned v2, w2) ∧
    holds w2 v2 (SArray []) ∧
    files w2 = files w1.
Proof. apply (readJSON_recovers SONGS_FILE empty_world). left. reflexivity. Defined.

(** C9, as the code has it.  Writing a serialisable value and reading the
    file back returns a value whose shape is the JSON image of what was
    written, with no second write; when the value written is JSON data
    its image is itself, so the read returns the same collection. *)
Theorem write_then_read (f : file) (w : world) (v : value) (s : shape) (d : json) :
  holds w v s →
  toJSON s = Some d →
  ∃ w1 v' w2,
    writeJSON f v w = (Returned (), w1) ∧
    files w1 = <[f := Document d]> (files w) ∧
    readJSON f w1 = (Returned v', w2) ∧
    holds w2 v' (of_json d) ∧
    files w2 = files w1 ∧
    (∀ d0, s = of_json d0 → of_json d = s).
Proof.
  intros Hs Hd.
  set (w1 := set_files (<[f := Document d]> (files w)) w).
  assert (writeJSON f v w = (Returned (), w1)) as Hw.
  { unfold writeJSON, JSON_stringify, mbind, js_bind. unfold holds in Hs.
    rewrite Hs, Hd. reflexivity. }
  assert (files w1 !! f = Some (Document d)) as Hf1.
  { unfold w1. simpl. by rewrite lookup_insert_eq. }
  eexists w1, _, _. split; [exact Hw|]. split; [done|].
  split; [by apply readJSON_document|].
  split; [|split; [done|]].
  - unfold holds. simpl. destruct (reify d (heap w)) as [v' h'] eqn:Hr.
    simpl. by eapply reify_holds.
  - intros d0 ->. rewrite toJSON_of_json in Hd. by simplify_eq.
Qed.

Lemma write_then_read_witness :
  ∃ w1 v' w2,
    writeJSON SONGS_FILE (VRef 1) one_song_heap = (Returned (), w1) ∧
    files w1 = <[SONGS_FILE := Document (JArray [JObject [("id", JString "s1");
                   ("title", JString "Blue Skies")]])]> (files one_song_heap) ∧
    readJSON SONGS_FILE w1 = (Returned v', w2) ∧
    holds w2 v' (of_json (JArray [JObject [("id", JString "s1");
                   ("title", JString "Blue Skies")]])) ∧
    files w2 = files w1 ∧
    (∀ d0, SArray [SObject [("id", SString "s1"); ("title", SString "Blue Skies")]]
           = of_json d0 →
           of_json (JArray [JObject [("id", JString "s1");
                   ("title", JString "Blue Skies")]])
           = SArray [SObject [("id", SString "s1"); ("title", SString "Blue Skies")]]).
Proof.
  apply (write_then_read SONGS_FILE one_song_heap (VRef 1)
           (SArray [SObject [("id", SString "s1"); ("title", SString "Blue Skies")]])).
  - reflexivity.
  - reflexivity.
Defined.

Lemma write_then_read_changes_dates :
  ∃ w1 v' w2,
    writeJSON SONGS_FILE (VRef 2) dated_heap = (Returned (), w1) ∧
    readJSON SONGS_FILE w1 = (Returned v', w2) ∧
    holds dated_heap (VRef 2)
      (SArray [SObject [("id", SString "s1");
                        ("createdAt", SDate "2026-01-01T00:00:00.000Z")]]) ∧
    holds w2 v'
      (SArray [SObject [("id", SString "s1");
                        ("createdAt", SString "2026-01-01T00:00:00.000Z")]]) ∧
    SArray [SObject [("id", SString "s1");
                     ("createdAt", SDate "2026-01-01T00:00:00.000Z")]]
    ≠ SArray [SObject [("id", SString "s1");
                       ("createdAt", SString "2026-01-01T00:00:00.000Z")]].
Proof. eexists _, _, _. repeat split; try reflexivity. discriminate. Qed.

(** ** Heap values and the documents they came from *)

Lemma agree_length (h h' : list object) :
  (∀ l o, h !! l = Some o → h' !! l = Some o) → length h ≤ length h'.
Proof.
  intros Hh. destruct (decide (length h = 0)) as [->|Hne]; [lia|].
  destruct (lookup_lt_is_Some_2 h (length h - 1)) as [o Ho]; [lia|].
  apply Hh, lookup_lt_Some in Ho. lia.
Qed.

Lemma denotes_agree h h' v d :
  denotes h v d → (∀ l o, h !! l = Some o → h' !! l = Some o) → denotes h' v d.
Proof.
  intros (n & Hle & Hn) Hh. exists n. split.
  - apply agree_length in Hh. lia.
  - by eapply inspect_agree.
Qed.

Lemma denotes_app h k v d : denotes h v d → denotes (h ++ k) v d.
Proof. intros H. eapply denotes_agree; [done|]. intros l o. apply lookup_app_l_Some. Qed.

Lemma denotes_holds w v d : denotes (heap w) v d → holds w v (of_json d).
Proof. intros (n & Hle & Hn). unfold holds. by eapply inspect_agree. Qed.

Lemma denotes_inv h v d :
  denotes h v d →
  match d with
  | JNull => v = VNull
  | JBool b => v = VBool b
  | JNumber n => v = VNumber n
  | JString s => v = VString s
  | JArray ds =>
      ∃ l vs, v = VRef l ∧ h !! l = Some (OArray vs) ∧ Forall2 (denotes h) vs ds
  | JObject ps =>
      ∃ l qs, v = VRef l ∧ h !! l = Some (ORecord qs) ∧
              Forall2 (λ q p, q.1 = p.1 ∧ denotes h q.2 p.2) qs ps
  end.
Proof.
  intros (n & Hle & Hn). destruct v as [ | | b | z | s | l].
  1-5: destruct n, d; simpl in Hn; by simplify_eq.
  destruct n as [|n]; [done|]. cbn [inspect] in Hn.
  destruct (h !! l) as [[vs|qs|iso]|] eqn:Hl; [| | |done].
  - destruct (mapM (inspect n h) vs) as [ss|] eqn:Hm; [|done].
    destruct d; simpl in Hn; simplify_eq.
    exists l, vs. split; [done|]. split; [done|].
    apply mapM_Some in Hm. apply Forall2_fmap_r in Hm.
    eapply Forall2_impl; [exact Hm|]. intros x y Hxy. exists n. split; [lia|done].
  - destruct (mapM (λ p, pair p.1 <$> inspect n h p.2) qs) as [ss|] eqn:Hm; [|done].
    destruct d; simpl in Hn; simplify_eq.
    exists l, qs. split; [done|]. split; [done|].
    apply mapM_Some in Hm. apply Forall2_fmap_r in Hm.
    eapply Forall2_impl; [exact Hm|]. intros [k x] [k' y] Hxy. simpl in *.
    destruct (inspect n h x) as [sx|] eqn:Hx; [|done]. simpl in Hxy. simplify_eq.
    split; [done|]. exists n. split; [lia|done].
  - destruct d; simpl in Hn; by simplify_eq.
Qed.

Lemma denotes_truthy h v d : denotes h v d → truthy v = json_truthy d.
Proof.
  intros H. apply denotes_inv in H.
  destruct d; try (by subst); by destruct H as (l & ? & -> & _).
Qed.

Lemma denotes_strict_eq_string h v d s :
  denotes h v d → strict_eq v (VString s) = true ↔ d = JString s.
Proof.
  intros H. apply denotes_inv in H. unfold strict_eq. rewrite bool_decide_eq_true.
  destruct d; try (destruct H as (l & ? & -> & _)); subst; split; intros; by simplify_eq.
Qed.

Lemma lookup_prop_denotes h k qs ps :
  Forall2 (λ q p, q.1 = p.1 ∧ denotes h q.2 p.2) qs ps →
  match field_in k ps with
  | Some d' => denotes h (default VUndefined (lookup_prop k qs)) d'
  | None => default VUndefined (lookup_prop k qs) = VUndefined
  end.
Proof.
  induction 1 as [|[k1 x] [k2 y] qs ps [Hk Hxy] _ IH]; [done|].
  simpl in *. subst k2. by case_bool_decide.
Qed.

(** Reading a property of a value that denotes a document other than
    [null] never throws and gives what the document has there. *)
Lemma get_denotes w v d k :
  denotes (heap w) v d → d ≠ JNull →
  ∃ v', get v k w = (Returned v', w) ∧
        match field k d with
        | Some d' => denotes (heap w) v' d'
        | None => v' = VUndefined
        end.
Proof.
  intros H Hnull. apply denotes_inv in H.
  destruct d as [ | b | n | s | ds | ps]; [done|..]; simpl.
  1-3: subst; by eexists.
  - destruct H as (l & vs & -> & Hl & _). unfold get. rewrite Hl. by eexists.
  - destruct H as (l & qs & -> & Hl & Hqs). unfold get. rewrite Hl.
    eexists. split; [done|]. by apply lookup_prop_denotes.
Qed.

(** An array whose elements denote [ds] denotes [JArray ds], provided the
    elements are found in a part [h0] of the heap that the array itself
    lies beyond. *)
Lemma denotes_array h h0 l vs ds :
  h !! l = Some (OArray vs) →
  Forall2 (denotes h0) vs ds →
  (∀ l o, h0 !! l = Some o → h !! l = Some o) →
  length h0 < length h →
  denotes h (VRef l) (JArray ds).
Proof.
  intros Hl Hvs Hh Hlen. exists (S (length h0)). split; [lia|].
  cbn [inspect of_json]. rewrite Hl.
  assert (mapM (inspect (length h0) h) vs = Some (of_json <$> ds)) as ->; [|done].
  apply mapM_Some, Forall2_fmap_r.
  eapply Forall2_impl; [exact Hvs|]. intros x y (n & Hle & Hn).
  by eapply inspect_agree.
Qed.

Lemma res_json_denotes w v d :
  denotes (heap w) v d →
  res_json v w = (Returned {| status := 200; headers := []; body_of := Json (Some d) |}, w).
Proof.
  intros H. apply denotes_holds in H. unfold holds in H.
  unfold res_json, JSON_stringify, mbind, js_bind. rewrite H, toJSON_of_json. reflexivity.
Qed.

(** ** What a read of the store returns *)

Lemma readJSON_stored f w ds :
  stored (files w !! f) ds →
  ∃ h1 vs w1,
    readJSON f w = (Returned (VRef (length h1)), w1) ∧
    heap w1 = h1 ++ [OArray vs] ∧
    (∃ k, h1 = heap w ++ k) ∧
    Forall2 (denotes h1) vs ds ∧
    files w1 = <[f := Document (JArray ds)]> (files w) ∧
    drive w1 = drive w.
Proof.
  intros Hst. destruct (files w !! f) as [[ | |d]|] eqn:Hf; simpl in Hst; subst.
  - exists (heap w), [], (reset f w). rewrite readJSON_blank by done.
    repeat split; try done. by exists []; rewrite app_nil_r.
  - eexists (heap w), [], _. rewrite readJSON_invalid by done.
    repeat split; try done. by exists []; rewrite app_nil_r.
  - rewrite (readJSON_document _ _ _ Hf). simpl.
    destruct (thread reify ds (heap w)) as [vs h1] eqn:Ht. simpl.
    assert (Forall reify_ok ds) as Hok by (apply Forall_forall; intros; apply reify_spec).
    destruct (thread_reify_ok ds Hok _ _ _ Ht) as ([k ->] & Hlen & Hi).
    exists (heap w ++ k), vs. eexists. repeat split; try done.
    + by exists k.
    + apply Forall2_flip. eapply Forall2_impl; [exact Hi|].
      intros d v Hv. exists (max_depth ds). split; [lia|done].
    + simpl. by rewrite insert_id.
  - exists (heap w), [], (reset f w). rewrite readJSON_absent by done.
    repeat split; try done. by exists []; rewrite app_nil_r.
Qed.

(** ** Strings: [includes] finds exactly the substrings *)

Lemma append_cons c s t : String c s +:+ t = String c (s +:+ t).
Proof. reflexivity. Qed.

Lemma append_nil t : "" +:+ t = t.
Proof. reflexivity. Qed.

Lemma startsWith_spec s q :
  Str.startsWith s q = true ↔ ∃ post, s = q +:+ post.
Proof.
  revert s. induction q as [|b q IH]; intros s; cbn [Str.startsWith].
  - destruct s; (split; [intros _; by eexists|done]).
  - destruct s as [|a s].
    + split; [done|]. by intros [post ?].
    + cbn [Str.startsWith]. rewrite andb_true_iff, bool_decide_eq_true, IH. split.
      * intros [-> [post ->]]. by exists post.
      * intros [post Hpost]. rewrite append_cons in Hpost. simplify_eq.
        split; [done|by exists post].
Qed.

Lemma includes_spec s q :
  Str.includes s q = true ↔ ∃ pre post, s = pre +:+ q +:+ post.
Proof.
  induction s as [|a s IH]; cbn [Str.includes].
  - rewrite orb_false_r, startsWith_spec. split.
    + intros [post ->]. by exists "", post.
    + intros (pre & post & H). destruct pre; [by exists post|].
      by rewrite append_cons in H.
  - rewrite orb_true_iff, startsWith_spec, IH. split.
    + intros [[post ->]|(pre & post & ->)]; [by exists "", post|].
      by exists (String a pre), post.
    + intros (pre & post & H). destruct pre as [|c pre]; [left; by exists post|].
      right. rewrite append_cons in H. simplify_eq. by exists pre, post.
Qed.

Lemma includes_empty s : Str.includes s "" = true.
Proof. apply includes_spec. by exists "", s. Qed.

(** ** Strings as lists of bytes *)

Lemma chars_app s t :
  list_ascii_of_string (s +:+ t) = list_ascii_of_string s ++ list_ascii_of_string t.
Proof.
  induction s as [|c s IH]; [by rewrite append_nil|].
  rewrite append_cons. simpl. by rewrite IH.
Qed.

Lemma length_chars s : length (list_ascii_of_string s) = String.length s.
Proof. induction s as [|c s IH]; simpl; congruence. Qed.

Lemma chars_take n s : list_ascii_of_string (Str.take n s) = take n (list_ascii_of_string s).
Proof.
  revert s. induction n as [|n IH]; intros [|c s]; simpl; try done. by rewrite IH.
Qed.

Lemma chars_drop n s : list_ascii_of_string (Str.drop n s) = drop n (list_ascii_of_string s).
Proof.
  revert s. induction n as [|n IH]; intros [|c s]; simpl; try done.
Qed.

Lemma chars_inj s t : list_ascii_of_string s = list_ascii_of_string t → s = t.
Proof.
  intros H. rewrite <- (string_of_list_ascii_of_string s), <- (string_of_list_ascii_of_string t).
  by rewrite H.
Qed.

Lemma string_of_chars_app l1 l2 :
  string_of_list_ascii (l1 ++ l2) = string_of_list_ascii l1 +:+ string_of_list_ascii l2.
Proof.
  apply chars_inj. by rewrite chars_app, !list_ascii_of_string_of_list_ascii.
Qed.

Lemma chars_fold s :
  list_ascii_of_string (Str.fold_ascii s) = Str.fold_byte <$> list_ascii_of_string s.
Proof. induction s as [|c s IH]; [done|]. simpl. by rewrite IH. Qed.

Lemma fold_ascii_app s t :
  Str.fold_ascii (s +:+ t) = Str.fold_ascii s +:+ Str.fold_ascii t.
Proof.
  apply chars_inj. by rewrite chars_fold, !chars_app, fmap_app, !chars_fold.
Qed.

(** ** Case, letter by letter *)

Lemma fold_byte_same_letter a b :
  Str.fold_byte a = Str.fold_byte b ↔ same_letter a b.
Proof.
  pose proof (nat_ascii_bounded a) as Ha. pose proof (nat_ascii_bounded b) as Hb.
  assert (∀ x y, nat_of_ascii x = nat_of_ascii y → x = y) as Hinj.
  { intros x y H. by rewrite <- (ascii_nat_embedding x), <- (ascii_nat_embedding y), H. }
  unfold Str.fold_byte, same_letter, capital_of. cbv zeta.
  destruct ((65 <=? nat_of_ascii a) && (nat_of_ascii a <=? 90)) eqn:Hua;
    destruct ((65 <=? nat_of_ascii b) && (nat_of_ascii b <=? 90)) eqn:Hub.
  all: try (apply andb_true_iff in Hua as [Hua1 Hua2];
            apply Nat.leb_le in Hua1; apply Nat.leb_le in Hua2).
  all: try (apply andb_true_iff in Hub as [Hub1 Hub2];
            apply Nat.leb_le in Hub1; apply Nat.leb_le in Hub2).
  all: try (apply andb_false_iff in Hua; rewrite !Nat.leb_gt in Hua).
  all: try (apply andb_false_iff in Hub; rewrite !Nat.leb_gt in Hub).
  - split.
    + intros H. apply (f_equal nat_of_ascii) in H.
      rewrite !nat_ascii_embedding in H by lia. left. apply Hinj. lia.
    + intros [->|[[_ ?]|[_ ?]]]; [done|lia..].
  - split.
    + intros H. apply (f_equal nat_of_ascii) in H.
      rewrite nat_ascii_embedding in H by lia. right. left. lia.
    + intros [->|[[_ H]|[? _]]]; [lia| |lia].
      apply Hinj. rewrite nat_ascii_embedding by lia. lia.
  - split.
    + intros H. apply (f_equal nat_of_ascii) in H.
      rewrite nat_ascii_embedding in H by lia. right. right. lia.
    + intros [->|[[? _]|[_ H]]]; [lia|lia|].
      apply Hinj. rewrite nat_ascii_embedding by lia. lia.
  - split; [by left|]. intros [->|[[? _]|[? _]]]; [done|lia..].
Qed.

Lemma fmap_lower_same_letter l1 l2 :
  Str.fold_byte <$> l1 = Str.fold_byte <$> l2 ↔ Forall2 same_letter l1 l2.
Proof.
  revert l2. induction l1 as [|a l1 IH]; intros [|b l2]; simpl.
  - split; [constructor|done].
  - split; [done|]. intros H. inversion H.
  - split; [done|]. intros H. inversion H.
  - split.
    + intros H. injection H as Hab Hl. constructor.
      * by apply fold_byte_same_letter.
      * by apply IH.
    + intros H. inversion H as [|? ? ? ? Hab Hl]; subst. f_equal.
      * by apply fold_byte_same_letter.
      * by apply IH.
Qed.

Lemma fold_ascii_same_text s t :
  Str.fold_ascii s = Str.fold_ascii t ↔ same_text s t.
Proof.
  unfold same_text. rewrite <- fmap_lower_same_letter, <- !chars_fold. split.
  - by intros ->.
  - apply chars_inj.
Qed.

(** [q] occurs in [s], case ignored, exactly when the folded [q] is found
    in the folded [s]. *)
Lemma includes_fold s q :
  Str.includes (Str.fold_ascii s) (Str.fold_ascii q) = true ↔ ci_substring q s.
Proof.
  rewrite includes_spec. split.
  - intros (pre & post & H). apply (f_equal list_ascii_of_string) in H.
    rewrite chars_fold, !chars_app, chars_fold in H.
    apply fmap_app_inv in H as (l1 & l23 & _ & H23 & Hs).
    symmetry in H23. apply fmap_app_inv in H23 as (l2 & l3 & H2 & _ & ->).
    exists (string_of_list_ascii l1), (string_of_list_ascii l2), (string_of_list_ascii l3).
    split.
    + apply chars_inj. by rewrite !chars_app, !list_ascii_of_string_of_list_ascii.
    + unfold same_text. rewrite list_ascii_of_string_of_list_ascii.
      apply fmap_lower_same_letter. by rewrite <- H2.
  - intros (pre & mid & post & -> & Hmid). apply fold_ascii_same_text in Hmid.
    exists (Str.fold_ascii pre), (Str.fold_ascii post).
    by rewrite !fold_ascii_app, Hmid.
Qed.

Lemma is_ascii_empty : Str.is_ascii "" = true.
Proof. done. Qed.

(** On ASCII text the test of the code is the occurrence of [q] in [s],
    case ignored, whatever the engine does elsewhere. *)
Lemma lowered_in_ascii E q s :
  Str.is_ascii q = true → Str.is_ascii s = true →
  lowered_in E q s ↔ ci_substring q s.
Proof.
  intros Hq Hs. unfold lowered_in.
  rewrite (toLowerCase_ascii E q Hq), (toLowerCase_ascii E s Hs).
  rewrite <- includes_fold. symmetry. apply includes_spec.
Qed.

(** ** GET /search *)

Global Instance ci_substring_dec q s : Decision (ci_substring q s).
Proof.
  destruct (Str.includes (Str.fold_ascii s) (Str.fold_ascii q)) eqn:H.
  - left. by apply includes_fold.
  - right. intros H'. apply includes_fold in H'. congruence.
Defined.

Global Instance lowered_in_dec E q s : Decision (lowered_in E q s).
Proof.
  destruct (Str.includes (String_toLowerCase E s) (String_toLowerCase E q)) eqn:H.
  - left. by apply includes_spec.
  - right. intros H'. apply includes_spec in H'. congruence.
Defined.

Lemma get_string w v d k s :
  denotes (heap w) v d → string_field k d = Some s →
  get v k w = (Returned (VString s), w).
Proof.
  intros Hv Hs. unfold string_field in Hs.
  destruct (field k d) as [[]|] eqn:Hf; simplify_eq.
  destruct (get_denotes w v d k Hv) as (v' & Hget & Hv'); [by intros ->|].
  rewrite Hf in Hv'. apply denotes_inv in Hv'. by subst.
Qed.

Lemma matches_denotes E w q v d b :
  denotes (heap w) v d → json_matches E q d = Some b →
  matches E q v w = (Returned b, w).
Proof.
  intros Hv Hm. unfold json_matches in Hm.
  destruct (string_field "title" d) as [t|] eqn:Ht; [|done].
  unfold matches. rewrite (bind_returned _ _ _ _ _ (get_string _ _ _ _ _ Hv Ht)).
  cbn [toLowerCase]. rewrite (bind_returned _ _ w (String_toLowerCase E t) w) by done.
  destruct (Str.includes (String_toLowerCase E t) q); [by simplify_eq|].
  destruct (string_field "artist" d) as [a|] eqn:Ha; [|done].
  rewrite (bind_returned _ _ _ _ _ (get_string _ _ _ _ _ Hv Ha)).
  cbn [toLowerCase]. rewrite (bind_returned _ _ w (String_toLowerCase E a) w) by done.
  by simplify_eq.
Qed.

Lemma keep_matches E w q (b : json → bool) vs ds :
  Forall2 (denotes (heap w)) vs ds →
  Forall (λ d, json_matches E q d = Some (b d)) ds →
  ∃ kept, keep (matches E q) vs w = (Returned kept, w) ∧
          Forall2 (denotes (heap w)) kept (filter b ds).
Proof.
  induction 1 as [|v d vs ds Hv _ IH]; intros Hb.
  - by exists [].
  - apply Forall_cons in Hb as [Hd Hds]. destruct (IH Hds) as (kept & Hk & Hkept).
    cbn [keep]. rewrite (bind_returned _ _ _ _ _ (matches_denotes _ _ _ _ _ _ Hv Hd)).
    rewrite (bind_returned _ _ _ _ _ Hk).
    eexists. split; [reflexivity|].
    rewrite filter_cons. destruct (b d); simpl; [by constructor|done].
Qed.

(** The filter over a stored collection, for any callback whose answers
    [b] are known. *)
Lemma search_filter E w query_q ds (b : json → bool) :
  stored (files w !! SONGS_FILE) ds →
  Forall (λ d, json_matches E (String_toLowerCase E (or_else query_q "")) d = Some (b d)) ds →
  (search E query_q w).1 =
    Returned {| status := 200; headers := []; body_of := Json (Some (JArray (filter b ds))) |}.
Proof.
  intros Hst Hb.
  destruct (readJSON_stored _ _ _ Hst) as (h1 & vs & w1 & Hread & Hheap & _ & Hvs & _).
  unfold search. rewrite (bind_returned _ _ _ _ _ Hread).
  assert (Forall2 (denotes (heap w1)) vs ds) as Hvs1.
  { rewrite Hheap. eapply Forall2_impl; [exact Hvs|]. intros. by apply denotes_app. }
  destruct (keep_matches E w1 _ b vs ds Hvs1 Hb) as (kept & Hk & Hkept).
  assert (elements (VRef (length h1)) "filter" w1 = (Returned vs, w1)) as Hel.
  { unfold elements. by rewrite Hheap, lookup_app_r, Nat.sub_diag. }
  assert (Array_filter (VRef (length h1))
            (matches E (String_toLowerCase E (or_else query_q ""))) w1
          = (Returned (VRef (length (heap w1))), set_heap (heap w1 ++ [OArray kept]) w1))
    as Hfilter.
  { unfold Array_filter. rewrite (bind_returned _ _ _ _ _ Hel).
    by rewrite (bind_returned _ _ _ _ _ Hk). }
  rewrite (bind_returned _ _ _ _ _ Hfilter).
  rewrite res_json_denotes with (d := JArray (filter b ds)); [done|].
  simpl. eapply denotes_array with (h0 := heap w1).
  - by rewrite lookup_app_r, Nat.sub_diag.
  - done.
  - intros l o. apply lookup_app_l_Some.
  - rewrite length_app. simpl. lia.
Qed.

Lemma or_else_Some q : or_else (Some q) "" = q.
Proof. by destruct q. Qed.

Lemma json_matches_record E q d :
  song_record d →
  json_matches E (String_toLowerCase E q) d = Some (bool_decide (lowered_match E q d)).
Proof.
  intros [[t Ht] [a Ha]]. unfold json_matches, lowered_match. rewrite Ht, Ha. simpl.
  destruct (Str.includes (String_toLowerCase E t) (String_toLowerCase E q)) eqn:Hti.
  - rewrite bool_decide_eq_true_2; [done|]. left. by apply includes_spec.
  - f_equal. destruct (Str.includes (String_toLowerCase E a) (String_toLowerCase E q)) eqn:Hai.
    + rewrite bool_decide_eq_true_2; [done|]. right. by apply includes_spec.
    + rewrite bool_decide_eq_false_2; [done|].
      intros [H|H]; apply includes_spec in H; congruence.
Qed.

Lemma lowered_match_ascii E q d :
  Str.is_ascii q = true → ascii_record d →
  lowered_match E q d ↔ query_matches q d.
Proof.
  intros Hq (t & a & Ht & Ha & Hta & Haa). unfold lowered_match, query_matches.
  rewrite Ht, Ha. simpl. by rewrite !lowered_in_ascii.
Qed.

(** C8, as the code has it.  Over a collection of song records the search
    answers 200 with exactly the records, in order, for which the
    lower-cased query is a substring of the lower-cased title or of the
    lower-cased artist, lower-casing being the engine's.  When the query,
    the titles and the artists are ASCII text, these are exactly the
    records in whose title or artist the query occurs with case
    ignored. *)
Theorem search_spec (E : engine) (w : world) (q : string) (ds : list json) :
  stored (files w !! SONGS_FILE) ds →
  Forall song_record ds →
  (search E (Some q) w).1 =
    Returned {| status := 200; headers := [];
                body_of := Json (Some (JArray (filter (lowered_match E q) ds))) |} ∧
  (Str.is_ascii q = true → Forall ascii_record ds →
   (search E (Some q) w).1 =
     Returned {| status := 200; headers := [];
                 body_of := Json (Some (JArray (filter (query_matches q) ds))) |}).
Proof.
  intros Hst Hds.
  assert ((search E (Some q) w).1 =
            Returned {| status := 200; headers := [];
                        body_of := Json (Some (JArray (filter (lowered_match E q) ds))) |})
    as Hgeneral.
  { rewrite (search_filter E w (Some q) ds (λ d, bool_decide (lowered_match E q d)) Hst).
    - do 5 f_equal. apply list_filter_iff. intros d. apply bool_decide_spec.
    - rewrite or_else_Some. eapply Forall_impl; [exact Hds|].
      intros d Hd. by apply json_matches_record. }
  split; [done|]. intros Hq Hascii. rewrite Hgeneral. do 5 f_equal.
  clear Hgeneral Hst Hds. induction Hascii as [|d ds Hd _ IH]; [done|].
  rewrite !filter_cons, IH.
  pose proof (lowered_match_ascii E q d Hq Hd) as Hiff.
  destruct (decide (lowered_match E q d)) as [H|H], (decide (query_matches q d)) as [H'|H'];
    try done; tauto.
Qed.

Lemma search_spec_witness :
  (search ascii_engine (Some "blue") blue_world).1 = found [blue_skies] ∧
  (search ascii_engine (Some "ANA") blue_world).1 = found [blue_skies] ∧
  (search ascii_engine (Some "ue sk") blue_world).1 = found [blue_skies] ∧
  (search ascii_engine (Some "red") blue_world).1 = found [].
Proof.
  assert (Forall song_record [blue_skies]) as Hrec.
  { constructor; [|constructor]. split; by eexists. }
  assert (Forall ascii_record [blue_skies]) as Hascii.
  { constructor; [|constructor]. by exists "Blue Skies", "Ana". }
  split; [|split; [|split]].
  - exact (proj2 (search_spec ascii_engine blue_world "blue" [blue_skies] eq_refl Hrec)
             eq_refl Hascii).
  - exact (proj2 (search_spec ascii_engine blue_world "ANA" [blue_skies] eq_refl Hrec)
             eq_refl Hascii).
  - exact (proj2 (search_spec ascii_engine blue_world "ue sk" [blue_skies] eq_refl Hrec)
             eq_refl Hascii).
  - exact (proj2 (search_spec ascii_engine blue_world "red" [blue_skies] eq_refl Hrec)
             eq_refl Hascii).
Defined.

(** The title ΟΣ holds the query Σ as it stands, so the query is a
    substring of the title with or without regard to case; yet the search
    does not return the song.  Lower-casing makes the sigma that ends the
    title a final sigma and the sigma of the query a plain one, and the
    one is not found in the other. *)
Lemma search_misses_final_sigma :
  String_toLowerCase sigma_engine "ΟΣ" = "ος" ∧
  String_toLowerCase sigma_engine "Σ" = "σ" ∧
  "ΟΣ" = "Ο" +:+ "Σ" +:+ "" ∧
  query_matches "Σ" sigma_song ∧
  (search sigma_engine (Some "Σ") sigma_world).1 = found [].
Proof.
  split; [reflexivity|]. split; [reflexivity|]. split; [reflexivity|]. split.
  - left. exists "Ο", "Σ", "". split; [reflexivity|].
    unfold same_text. apply Forall_Forall2_diag, Forall_forall. intros a _. by left.
  - reflexivity.
Qed.

(** C10. With no query parameter, or an empty one, the search answers
    200 with the whole collection: the empty string is found in every
    title, so the artist is not even read. *)
Theorem search_without_query (E : engine) (w : world) (query_q : option string)
    (ds : list json) :
  query_q = None ∨ query_q = Some "" →
  stored (files w !! SONGS_FILE) ds →
  Forall (λ d, is_Some (string_field "title" d)) ds →
  (search E query_q w).1 =
    Returned {| status := 200; headers := []; body_of := Json (Some (JArray ds)) |}.
Proof.
  intros Hq Hst Hds.
  rewrite (search_filter E w query_q ds (λ _, true) Hst).
  - do 5 f_equal. clear. induction ds as [|d ds IH]; [done|].
    rewrite filter_cons_True by done. by f_equal.
  - assert (String_toLowerCase E (or_else query_q "") = "") as ->.
    { assert (or_else query_q "" = "") as -> by (by destruct Hq as [->| ->]).
      by rewrite (toLowerCase_ascii E "" is_ascii_empty). }
    eapply Forall_impl; [exact Hds|]. intros d [t Ht].
    unfold json_matches. by rewrite Ht, includes_empty.
Qed.

Lemma search_without_query_witness :
  (search ascii_engine None blue_world).1 = found [blue_skies] ∧
  (search ascii_engine (Some "") blue_world).1 = found [blue_skies].
Proof.
  assert (Forall (λ d, is_Some (string_field "title" d)) [blue_skies]) as Hrec.
  { constructor; [by eexists|constructor]. }
  split.
  - exact (search_without_query ascii_engine blue_world None [blue_skies]
             (or_introl eq_refl) eq_refl Hrec).
  - exact (search_without_query ascii_engine blue_world (Some "") [blue_skies]
             (or_intror eq_refl) eq_refl Hrec).
Defined.

(** ** GET /stream/:id *)

Lemma has_id_denotes w v d id :
  denotes (heap w) v d → d ≠ JNull →
  has_id (VString id) v w = (Returned (has_json_id id d), w).
Proof.
  intros Hv Hd. destruct (get_denotes w v d "id" Hv Hd) as (v' & Hget & Hv').
  unfold has_id. rewrite (bind_returned _ _ _ _ _ Hget).
  unfold mret, js_ret. do 2 f_equal.
  unfold has_json_id, string_field.
  destruct (field "id" d) as [d'|].
  - destruct (strict_eq v' (VString id)) eqn:Heq.
    + apply (denotes_strict_eq_string _ _ _ _ Hv') in Heq as ->.
      by rewrite bool_decide_eq_true_2.
    + symmetry. apply bool_decide_eq_false_2. intros Hs.
      assert (d' = JString id) as Hd' by (destruct d'; by simplify_eq).
      apply (denotes_strict_eq_string _ _ _ _ Hv') in Hd'. congruence.
  - subst v'. by rewrite bool_decide_eq_false_2.
Qed.

Lemma find_first_denotes w id vs ds :
  Forall2 (denotes (heap w)) vs ds →
  Forall (λ d, d ≠ JNull) ds →
  ∃ r, find_first (has_id (VString id)) vs w = (Returned r, w) ∧
       match List.find (has_json_id id) ds with
       | Some d => denotes (heap w) r d
       | None => r = VUndefined
       end.
Proof.
  induction 1 as [|v d vs ds Hv _ IH]; intros Hnn.
  - by exists VUndefined.
  - apply Forall_cons in Hnn as [Hd Hds]. destruct (IH Hds) as (r & Hr & Hfound).
    cbn [find_first List.find].
    rewrite (bind_returned _ _ _ _ _ (has_id_denotes _ _ _ _ Hv Hd)).
    destruct (has_json_id id d); [by exists v|by exists r].
Qed.

Lemma has_json_id_object id d : has_json_id id d = true → ∃ ps, d = JObject ps.
Proof.
  unfold has_json_id, string_field. rewrite bool_decide_eq_true.
  destruct d; simpl; try done. by eexists.
Qed.

(** What the handler does up to the two not-found answers. *)
Lemma stream_lookup sv id w ds :
  stored (files w !! SONGS_FILE) ds →
  Forall (λ d, d ≠ JNull) ds →
  match List.find (has_json_id id) ds with
  | None =>
      ∃ w', stream sv id w = (Returned (error_reply 404 "Song not found"), w') ∧
            files w' = <[SONGS_FILE := Document (JArray ds)]> (files w) ∧
            drive w' = drive w
  | Some d =>
      no_handle d →
      ∃ w', stream sv id w = (Returned (error_reply 404 "Audio file not found"), w') ∧
            files w' = <[SONGS_FILE := Document (JArray ds)]> (files w) ∧
            drive w' = drive w
  end.
Proof.
  intros Hst Hnn.
  destruct (readJSON_stored _ _ _ Hst) as (h1 & vs & w1 & Hread & Hheap & _ & Hvs & Hfiles & Hdrive).
  assert (Forall2 (denotes (heap w1)) vs ds) as Hvs1.
  { rewrite Hheap. eapply Forall2_impl; [exact Hvs|]. intros. by apply denotes_app. }
  destruct (find_first_denotes w1 id vs ds Hvs1 Hnn) as (song & Hfind & Hsong).
  assert (Array_find (VRef (length h1)) (has_id (VString id)) w1 = (Returned song, w1)) as Hfind'.
  { assert (elements (VRef (length h1)) "find" w1 = (Returned vs, w1)) as Hel.
    { unfold elements. by rewrite Hheap, lookup_app_r, Nat.sub_diag. }
    unfold Array_find. by rewrite (bind_returned _ _ _ _ _ Hel). }
  unfold stream. rewrite (bind_returned _ _ _ _ _ Hread), (bind_returned _ _ _ _ _ Hfind').
  destruct (List.find (has_json_id id) ds) as [d|] eqn:Hd.
  - intros Hno. apply find_some in Hd as [_ Hid].
    apply has_json_id_object in Hid as [ps ->].
    rewrite (denotes_truthy _ _ _ Hsong). simpl.
    destruct (get_denotes w1 song (JObject ps) "driveFileId" Hsong) as (h & Hget & Hh); [done|].
    rewrite (bind_returned _ _ _ _ _ Hget).
    assert (truthy h = false) as ->.
    { unfold no_handle in Hno. destruct (field "driveFileId" (JObject ps)) as [dh|].
      - by rewrite (denotes_truthy _ _ _ Hh).
      - by subst. }
    simpl.
    destruct (get_denotes w1 song (JObject ps) "title" Hsong) as (t & Hgett & _); [done|].
    rewrite (bind_returned _ _ _ _ _ Hgett).
    eexists. split; [reflexivity|]. by simpl.
  - subst song. simpl. eexists. split; [reflexivity|]. by simpl.
Qed.

Lemma stored_untouched f w w' ds :
  stored (files w !! f) ds →
  files w' = <[f := Document (JArray ds)]> (files w) →
  drive w' = drive w →
  untouched_but_reset f w w'.
Proof.
  intros Hst Hfiles Hdrive. split; [done|]. split.
  - intros g Hg. by rewrite Hfiles, lookup_insert_ne.
  - rewrite Hfiles, lookup_insert_eq.
    destruct (files w !! f) as [[]|]; simpl in Hst; by subst.
Qed.

(** C6, as the code has it.  Over a stored collection without null
    entries: when no entry has the requested id the answer is 404 "Song
    not found"; when the first entry with that id has no usable Drive
    handle the answer is 404 "Audio file not found".  In both cases
    Drive and every file are left as they were, except that a songs file
    that was absent, blank or rejected is reset to the empty collection
    by the read. *)
Theorem stream_not_found (sv : services) (id : string) (w : world) (ds : list json) :
  stored (files w !! SONGS_FILE) ds →
  Forall (λ d, d ≠ JNull) ds →
  (List.find (has_json_id id) ds = None →
     (stream sv id w).1 = Returned (error_reply 404 "Song not found") ∧
     untouched_but_reset SONGS_FILE w (stream sv id w).2) ∧
  (∀ d, List.find (has_json_id id) ds = Some d → no_handle d →
     (stream sv id w).1 = Returned (error_reply 404 "Audio file not found") ∧
     untouched_but_reset SONGS_FILE w (stream sv id w).2).
Proof.
  intros Hst Hnn. pose proof (stream_lookup sv id w ds Hst Hnn) as H. split.
  - intros Hnone. rewrite Hnone in H. destruct H as (w' & -> & Hfiles & Hdrive).
    split; [done|]. by eapply stored_untouched.
  - intros d Hsome Hno. rewrite Hsome in H.
    destruct (H Hno) as (w' & -> & Hfiles & Hdrive).
    split; [done|]. by eapply stored_untouched.
Qed.

Lemma stream_not_found_witness :
  ((stream offline "nope" orphan_world).1 = Returned (error_reply 404 "Song not found") ∧
   untouched_but_reset SONGS_FILE orphan_world (stream offline "nope" orphan_world).2) ∧
  ((stream offline "s2" orphan_world).1 = Returned (error_reply 404 "Audio file not found") ∧
   untouched_but_reset SONGS_FILE orphan_world (stream offline "s2" orphan_world).2).
Proof.
  assert (Forall (λ d, d ≠ JNull) [blue_skies; orphan_song]) as Hnn.
  { repeat constructor; discriminate. }
  split.
  - apply (stream_not_found offline "nope" orphan_world _ eq_refl Hnn). reflexivity.
  - apply (stream_not_found offline "s2" orphan_world _ eq_refl Hnn) with orphan_song;
      reflexivity.
Defined.

(** With no songs file on disk the request is answered 404, and the
    file exists afterwards: the read has created it. *)
Lemma stream_creates_songs_file :
  (stream offline "s1" empty_world).1 = Returned (error_reply 404 "Song not found") ∧
  files empty_world !! SONGS_FILE = None ∧
  files (stream offline "s1" empty_world).2 !! SONGS_FILE = Some (Document (JArray [])).
Proof. split; [|split]; reflexivity. Qed.

(** ** Actions that leave the disk and Drive alone

  A quiet action changes no file and no Drive object; all it may do to
  the console is add lines. *)

Lemma quiet_ret {A} (a : A) : quiet (mret a).
Proof. by intros w. Qed.

Lemma quiet_throw {A} e : quiet (@throw A e).
Proof. by intros w. Qed.

Lemma quiet_bind {A B} (m : js A) (f : A → js B) :
  quiet m → (∀ a, quiet (f a)) → quiet (m ≫= f).
Proof.
  intros Hm Hf w. specialize (Hm w). unfold mbind, js_bind.
  destruct (m w) as [[a|e] w1]; simpl in *; [|done].
  destruct Hm as (? & ? & ?), (Hf a w1) as (? & ? & ?).
  split; [congruence|]. split; [congruence|by etrans].
Qed.

Lemma quiet_try {A} (m : js A) (k : exn → js A) :
  quiet m → (∀ e, quiet (k e)) → quiet (try_catch m k).
Proof.
  intros Hm Hk w. specialize (Hm w). unfold try_catch.
  destruct (m w) as [[a|e] w1]; simpl in *; [done|].
  destruct Hm as (? & ? & ?), (Hk e w1) as (? & ? & ?).
  split; [congruence|]. split; [congruence|by etrans].
Qed.

Lemma quiet_console_log msg : quiet (console_log msg).
Proof. intros w. repeat split. by apply prefix_app_r. Qed.

Lemma quiet_console_error msg : quiet (console_error msg).
Proof. intros w. repeat split. by apply prefix_app_r. Qed.

Lemma quiet_alloc o : quiet (alloc o).
Proof. by intros w. Qed.

Lemma quiet_store l o : quiet (store l o).
Proof. by intros w. Qed.

Lemma quiet_get v k : quiet (get v k).
Proof. intros w. unfold get. by repeat case_match. Qed.

Lemma quiet_get_index v i : quiet (get_index v i).
Proof. intros w. unfold get_index. by repeat case_match. Qed.

Lemma quiet_elements v method : quiet (elements v method).
Proof. intros w. unfold elements. by repeat case_match. Qed.

Lemma quiet_JSON_parse c : quiet (JSON_parse c).
Proof.
  intros w. destruct c as [[| |d]|]; try done.
  simpl. by destruct (reify d (heap w)).
Qed.

Lemma quiet_JSON_stringify v : quiet (JSON_stringify v).
Proof. intros w. unfold JSON_stringify. by case_match. Qed.

Lemma quiet_Object_keys v : quiet (Object_keys v).
Proof. intros w. by destruct v. Qed.

Lemma quiet_await {A} (r : reply A) : quiet (await r).
Proof. intros w. by destruct r. Qed.

Create HintDb quiet.
#[export] Hint Resolve quiet_ret quiet_throw quiet_console_log quiet_console_error
  quiet_alloc quiet_store quiet_get quiet_get_index quiet_elements quiet_JSON_parse
  quiet_JSON_stringify quiet_Object_keys quiet_await : quiet.

Ltac quiet_step :=
  match goal with
  | |- quiet (_ ≫= _) => apply quiet_bind; [|intros ?]
  | |- quiet (try_catch _ _) => apply quiet_try; [|intros ?]
  | |- quiet (if ?b then _ else _) => destruct b
  | |- quiet (match ?x with _ => _ end) => destruct x
  | |- quiet _ => solve [auto with quiet]
  end.

Lemma quiet_getDriveClient sv : quiet (getDriveClient sv).
Proof. unfold getDriveClient. repeat quiet_step. Qed.

Lemma quiet_extract_metadata sv p : quiet (extract_metadata sv p).
Proof. unfold extract_metadata. repeat quiet_step. Qed.

Lemma quiet_musicbrainz sv title artist genre : quiet (musicbrainz sv title artist genre).
Proof. unfold musicbrainz. repeat quiet_step. Qed.

Lemma quiet_lrclib sv title artist : quiet (lrclib sv title artist).
Proof. unfold lrclib. repeat quiet_step. Qed.

(** The enrichment calls and the tag extraction never throw. *)
Lemma extract_metadata_returns sv p w :
  ∃ m, (extract_metadata sv p w).1 = Returned m ∧
       m = match parseFile sv p with Resolved m => m | Rejected _ => no_metadata end.
Proof. unfold extract_metadata, try_catch, await, mbind, js_bind. destruct (parseFile sv p); by eexists. Qed.

(** ** POST /upload: the staged file and the Drive step *)

Lemma delete_temp_run p w :
  ∃ w', delete_temp p w = (Returned (), w') ∧
        files w' = delete p (files w) ∧
        drive w' = drive w ∧
        heap w' = heap w ∧
        console w' =
          console w ++
          match files w !! p with
          | Some _ => []
          | None => [Err ("Failed to delete temp file: " +:+ message (ENOENT p))]
          end.
Proof.
  unfold delete_temp, try_catch, unlink. destruct (files w !! p) as [c|] eqn:Hp.
  - eexists. split; [reflexivity|]. simpl. by rewrite app_nil_r.
  - eexists. split; [reflexivity|]. simpl. by rewrite delete_id.
Qed.

Lemma upload_to_drive_run sv f p w :
  match files_create sv (filename f) (mimetype f) with
  | Rejected _ =>
      ∃ w', upload_to_drive sv f p w =
              (Returned (inl (error_reply 500 "Failed to upload to Google Drive")), w') ∧
            files w' = delete p (files w) ∧ drive w' = drive w ∧
            (files w !! p = None → deletion_failure p ∈ console w')
  | Resolved id =>
      match permissions_create sv id with
      | Rejected _ =>
          ∃ w', upload_to_drive sv f p w =
                  (Returned (inl (error_reply 500 "Failed to upload to Google Drive")), w') ∧
                files w' = delete p (files w) ∧
                drive w' = drive w ++ [uploaded_object f id] ∧
                (files w !! p = None → deletion_failure p ∈ console w')
      | Resolved _ =>
          ∃ w', upload_to_drive sv f p w = (Returned (inr id), w') ∧
                files w' = files w ∧
                drive w' = publish id <$> (drive w ++ [uploaded_object f id])
      end
  end.
Proof.
  unfold upload_to_drive, drive_files_create, drive_permissions_create.
  destruct (files_create sv (filename f) (mimetype f)) as [id|msg] eqn:Hc.
  - destruct (permissions_create sv id) as [[]|msg] eqn:Hp.
    + eexists. unfold try_catch, mbind, js_bind. simpl. rewrite Hp. simpl.
      split; [reflexivity|]. done.
    + unfold try_catch, mbind, js_bind. simpl. rewrite Hp. simpl.
      match goal with |- context [delete_temp p ?w0] =>
        destruct (delete_temp_run p w0) as (w' & -> & Hf & Hd & _ & Hcon) end.
      eexists. split; [reflexivity|]. repeat split; try done.
      intros Hnone. rewrite Hcon. simpl. rewrite Hnone. set_solver.
  - unfold try_catch, mbind, js_bind. simpl.
    match goal with |- context [delete_temp p ?w0] =>
      destruct (delete_temp_run p w0) as (w' & -> & Hf & Hd & _ & Hcon) end.
    eexists. split; [reflexivity|]. repeat split; try done.
    intros Hnone. rewrite Hcon. simpl. rewrite Hnone. set_solver.
Qed.

(** The first step of the handler when the Drive client is obtained. *)
Lemma upload_client_ok sv f w :
  (getDriveClient sv w).1 = Returned () →
  ∃ w1 m w2,
    getDriveClient sv w = (Returned (), w1) ∧
    extract_metadata sv (UPLOAD_DIR (filename f)) w1 = (Returned m, w2) ∧
    m = match parseFile sv (UPLOAD_DIR (filename f)) with
        | Resolved m => m
        | Rejected _ => no_metadata
        end ∧
    files w2 = files w ∧ drive w2 = drive w.
Proof.
  intros Hc. destruct (getDriveClient sv w) as [r w1] eqn:Hg. simpl in Hc. subst r.
  destruct (quiet_getDriveClient sv w) as (Hf1 & Hd1 & _). rewrite Hg in Hf1, Hd1. simpl in *.
  destruct (extract_metadata_returns sv (UPLOAD_DIR (filename f)) w1) as (m & Hm & Hmeta).
  destruct (quiet_extract_metadata sv (UPLOAD_DIR (filename f)) w1) as (Hf2 & Hd2 & _).
  destruct (extract_metadata sv (UPLOAD_DIR (filename f)) w1) as [r w2] eqn:He.
  simpl in *. subst r. exists w1, m, w2. repeat split; congruence.
Qed.

(** C2. When the Drive client is obtained and the Drive step fails, the
    answer is 500, the songs file is what it was (no record is created)
    and the staged file is gone. *)
Theorem upload_drive_failure (sv : services) (f : multer_file) (w : world) :
  (getDriveClient sv w).1 = Returned () →
  drive_upload_fails sv f →
  (upload sv (Some f) w).1 = Returned (error_reply 500 "Failed to upload to Google Drive") ∧
  files (upload sv (Some f) w).2 !! SONGS_FILE = files w !! SONGS_FILE ∧
  files (upload sv (Some f) w).2 !! PLAYLISTS_FILE = files w !! PLAYLISTS_FILE ∧
  files (upload sv (Some f) w).2 !! UPLOAD_DIR (filename f) = None.
Proof.
  intros Hc Hfail.
  destruct (upload_client_ok sv f w Hc) as (w1 & m & w2 & Hg & He & _ & Hf2 & Hd2).
  pose proof (upload_to_drive_run sv f (UPLOAD_DIR (filename f)) w2) as Hup.
  assert (∃ w3, upload_to_drive sv f (UPLOAD_DIR (filename f)) w2 =
            (Returned (inl (error_reply 500 "Failed to upload to Google Drive")), w3) ∧
            files w3 = delete (UPLOAD_DIR (filename f)) (files w2)) as (w3 & Hup' & Hf3).
  { unfold drive_upload_fails in Hfail.
    destruct (files_create sv (filename f) (mimetype f)) as [id|msg].
    - destruct Hfail as [msg Hp]. rewrite Hp in Hup.
      destruct Hup as (w3 & ? & ? & _). by exists w3.
    - destruct Hup as (w3 & ? & ? & _). by exists w3. }
  assert (upload sv (Some f) w =
            (Returned (error_reply 500 "Failed to upload to Google Drive"), w3)) as ->.
  { unfold upload.
    erewrite bind_returned; [|by erewrite try_returned; [|by erewrite bind_returned]].
    cbn beta iota. rewrite (bind_returned _ _ _ _ _ He).
    by rewrite (bind_returned _ _ _ _ _ Hup'). }
  simpl. rewrite Hf3, Hf2. split; [done|].
  split; [by rewrite lookup_delete_ne|].
  split; [by rewrite lookup_delete_ne|by rewrite lookup_delete_eq].
Qed.

Lemma upload_drive_failure_witness :
  (upload drive_refuses (Some take_five) staged_world).1 =
    Returned (error_reply 500 "Failed to upload to Google Drive") ∧
  files (upload drive_refuses (Some take_five) staged_world).2 !! SONGS_FILE =
    files staged_world !! SONGS_FILE ∧
  files (upload drive_refuses (Some take_five) staged_world).2 !! PLAYLISTS_FILE =
    files staged_world !! PLAYLISTS_FILE ∧
  files (upload drive_refuses (Some take_five) staged_world).2
    !! UPLOAD_DIR (filename take_five) = None.
Proof.
  apply (upload_drive_failure drive_refuses take_five staged_world).
  - reflexivity.
  - exact I.
Defined.

(** C7. Without a file part the handler answers 400 at once and the
    world is what it was: no file is written, Drive receives nothing and
    nothing is even logged. *)
Theorem upload_without_file (sv : services) (w : world) :
  upload sv None w = (Returned (error_reply 400 "No file uploaded"), w) ∧
  files (upload sv None w).2 = files w ∧
  drive (upload sv None w).2 = drive w ∧
  console (upload sv None w).2 = console w.
Proof. unfold upload. repeat split. Qed.

(** ** Actions that write one file only *)

Lemma quiet_touches f {A} (m : js A) : quiet m → touches f m.
Proof. intros Hm w. destruct (Hm w) as (-> & ? & ?). done. Qed.

Lemma touches_bind f {A B} (m : js A) (k : A → js B) :
  touches f m → (∀ a, touches f (k a)) → touches f (m ≫= k).
Proof.
  intros Hm Hk w. specialize (Hm w). unfold mbind, js_bind.
  destruct (m w) as [[a|e] w1]; simpl in *; [|done].
  destruct Hm as (Hf1 & ? & ?), (Hk a w1) as (Hf2 & ? & ?).
  split; [|split; [congruence|by etrans]].
  intros g Hg. by rewrite Hf2, Hf1.
Qed.

Lemma touches_try f {A} (m : js A) (k : exn → js A) :
  touches f m → (∀ e, touches f (k e)) → touches f (try_catch m k).
Proof.
  intros Hm Hk w. specialize (Hm w). unfold try_catch.
  destruct (m w) as [[a|e] w1]; simpl in *; [done|].
  destruct Hm as (Hf1 & ? & ?), (Hk e w1) as (Hf2 & ? & ?).
  split; [|split; [congruence|by etrans]].
  intros g Hg. by rewrite Hf2, Hf1.
Qed.

Lemma quiet_existsSync f : quiet (existsSync f).
Proof. by intros w. Qed.

Lemma quiet_readFileSync f : quiet (readFileSync f).
Proof. intros w. unfold readFileSync. by case_match. Qed.

Lemma touches_writeFileSync f text : touches f (writeFileSync f text).
Proof.
  intros w. destruct text as [c|]; [|done]. simpl.
  split; [|done]. intros g Hg. by rewrite lookup_insert_ne.
Qed.

#[export] Hint Resolve quiet_existsSync quiet_readFileSync : quiet.

Ltac touches_step :=
  match goal with
  | |- touches _ (_ ≫= _) => apply touches_bind; [|intros ?]
  | |- touches _ (try_catch _ _) => apply touches_try; [|intros ?]
  | |- touches _ (writeFileSync _ _) => apply touches_writeFileSync
  | |- touches _ (if ?b then _ else _) => destruct b
  | |- touches _ (match ?x with _ => _ end) => destruct x
  | |- touches _ _ => solve [apply quiet_touches; auto with quiet]
  end.

Lemma touches_readJSON f : touches f (readJSON f).
Proof. unfold readJSON, new_array. repeat touches_step. Qed.

Lemma touches_writeJSON f v : touches f (writeJSON f v).
Proof. unfold writeJSON. repeat touches_step. Qed.

Lemma quiet_Array_push arr v : quiet (Array_push arr v).
Proof. unfold Array_push. repeat quiet_step. Qed.

Lemma quiet_res_json v : quiet (res_json v).
Proof. unfold res_json. repeat quiet_step. Qed.

#[export] Hint Resolve quiet_Array_push quiet_res_json quiet_musicbrainz quiet_lrclib : quiet.

Lemma touches_save_song sv title artist album genre duration albumArt lyrics id :
  touches SONGS_FILE
    (save_song sv title artist album genre duration albumArt lyrics id).
Proof.
  unfold save_song.
  apply touches_bind; [apply touches_readJSON|intros songs].
  do 4 (apply touches_bind; [solve [apply quiet_touches; auto with quiet]|intros ?]).
  apply touches_bind; [apply touches_writeJSON|intros ?].
  apply quiet_touches; auto with quiet.
Qed.

Lemma touches_after_cleanup sv title artist album genre duration id :
  touches SONGS_FILE (after_cleanup sv title artist album genre duration id).
Proof.
  unfold after_cleanup. apply touches_bind; [|intros ?; apply touches_save_song].
  apply quiet_touches. repeat quiet_step.
Qed.

Lemma upload_deletes sv f w :
  files (upload sv (Some f) w).2 !! UPLOAD_DIR (filename f) = None ∧
  (files w !! UPLOAD_DIR (filename f) = None →
   deletion_failure (UPLOAD_DIR (filename f)) ∈ console (upload sv (Some f) w).2).
Proof.
  set (p := UPLOAD_DIR (filename f)). unfold upload. fold p.
  destruct (getDriveClient sv w) as [[[]|e] w1] eqn:Hg.
  - erewrite bind_returned; [|by erewrite try_returned; [|by erewrite bind_returned]].
    cbn beta iota.
    destruct (quiet_getDriveClient sv w) as (Hf1 & _). rewrite Hg in Hf1. simpl in Hf1.
    destruct (extract_metadata_returns sv p w1) as (m & Hm & _).
    destruct (quiet_extract_metadata sv p w1) as (Hf2 & _).
    destruct (extract_metadata sv p w1) as [r w2] eqn:He. simpl in Hm, Hf2. subst r.
    rewrite (bind_returned _ _ _ _ _ He).
    pose proof (upload_to_drive_run sv f p w2) as Hup.
    rewrite Hf2, Hf1 in Hup.
    destruct (files_create sv (filename f) (mimetype f)) as [id|msg].
    + destruct (permissions_create sv id) as [[]|msg].
      * destruct Hup as (w3 & Hup & Hf3 & _). rewrite (bind_returned _ _ _ _ _ Hup).
        destruct (delete_temp_run p w3) as (w4 & Hdel & Hf4 & _ & _ & Hc4).
        rewrite (bind_returned _ _ _ _ _ Hdel).
        match goal with |- files (?k w4).2 !! p = None ∧ _ =>
          change k with (after_cleanup sv (basic_title (default no_tags (common m)) f)
            (basic_artist (default no_tags (common m)))
            (basic_album (default no_tags (common m)))
            (basic_genre (default no_tags (common m))) (basic_duration m) id) end.
        destruct (touches_after_cleanup sv (basic_title (default no_tags (common m)) f)
            (basic_artist (default no_tags (common m)))
            (basic_album (default no_tags (common m)))
            (basic_genre (default no_tags (common m))) (basic_duration m) id w4)
          as (Hk & _ & Hpre).
        split; [rewrite Hk by done; by rewrite Hf4, lookup_delete_eq|].
        intros Hnone. eapply elem_of_prefix; [|exact Hpre].
        rewrite Hc4, Hf3, Hnone. set_solver.
      * destruct Hup as (w3 & Hup & Hf3 & _ & Hlog). rewrite (bind_returned _ _ _ _ _ Hup).
        simpl. split; [by rewrite Hf3, lookup_delete_eq|done].
    + destruct Hup as (w3 & Hup & Hf3 & _ & Hlog). rewrite (bind_returned _ _ _ _ _ Hup).
      simpl. split; [by rewrite Hf3, lookup_delete_eq|done].
  - destruct (quiet_getDriveClient sv w) as (Hf1 & _). rewrite Hg in Hf1. simpl in Hf1.
    destruct (delete_temp_run p (set_console
          (console w1 ++ [Err ("Failed to initialize Drive client: " +:+ message e)]) w1))
          as (w2 & Hdel & Hf2 & _ & _ & Hc2).
    match goal with |- files ((?m ≫= ?k) w).2 !! _ = _ ∧ _ =>
      assert (m w = (Returned (Some (error_reply 500 "Failed to initialize Google Drive")), w2))
        as Hfirst end.
    { erewrite try_thrown; [|by erewrite bind_thrown].
      erewrite bind_returned by reflexivity.
      by erewrite bind_returned by exact Hdel. }
    rewrite (bind_returned _ _ _ _ _ Hfirst). simpl.
    split; [by rewrite Hf2, lookup_delete_eq|].
    intros Hnone. rewrite Hc2. simpl. rewrite Hf1, Hnone. set_solver.
Qed.

(** ** Actions that cannot tell whether a file is there

  Two worlds are alike for [p] when they differ at most in the console
  and in whether, and with what content, file [p] exists.  An action is
  blind to [p] when on alike worlds it gives the same outcome and leaves
  alike worlds. *)

Lemma alike_lookup p w1 w2 f :
  alike p w1 w2 → f ≠ p → files w1 !! f = files w2 !! f.
Proof.
  intros (_ & _ & Hf) Hne.
  rewrite <- (lookup_delete_ne (files w1) p f), <- (lookup_delete_ne (files w2) p f) by done.
  by rewrite Hf.
Qed.

Lemma blind_ret p {A} (a : A) : blind p (mret a).
Proof. by intros w1 w2 H. Qed.

Lemma blind_throw p {A} e : blind p (@throw A e).
Proof. by intros w1 w2 H. Qed.

Lemma blind_bind p {A B} (m : js A) (k : A → js B) :
  blind p m → (∀ a, blind p (k a)) → blind p (m ≫= k).
Proof.
  intros Hm Hk w1 w2 H. destruct (Hm w1 w2 H) as [Ho Hw]. unfold mbind, js_bind.
  destruct (m w1) as [[a1|e1] w1'], (m w2) as [[a2|e2] w2']; simpl in *; simplify_eq.
  - by apply Hk.
  - done.
Qed.

Lemma blind_try p {A} (m : js A) (k : exn → js A) :
  blind p m → (∀ e, blind p (k e)) → blind p (try_catch m k).
Proof.
  intros Hm Hk w1 w2 H. destruct (Hm w1 w2 H) as [Ho Hw]. unfold try_catch.
  destruct (m w1) as [[a1|e1] w1'], (m w2) as [[a2|e2] w2']; simpl in *; simplify_eq.
  - done.
  - by apply Hk.
Qed.

(** Actions that read nothing but the heap. *)
Ltac blind_heap :=
  let Hh := fresh in
  intros ? ? (Hh & ? & ?); cbv beta delta
    [console_log console_error alloc store get get_index elements JSON_parse
     JSON_stringify Object_keys await modify_drive throw];
  rewrite ?Hh; repeat case_match; repeat split; simpl; congruence.

Lemma blind_console_log p msg : blind p (console_log msg).
Proof. blind_heap. Qed.
Lemma blind_console_error p msg : blind p (console_error msg).
Proof. blind_heap. Qed.
Lemma blind_alloc p o : blind p (alloc o).
Proof. blind_heap. Qed.
Lemma blind_store p l o : blind p (store l o).
Proof. blind_heap. Qed.
Lemma blind_get p v k : blind p (get v k).
Proof. blind_heap. Qed.
Lemma blind_get_index p v i : blind p (get_index v i).
Proof. blind_heap. Qed.
Lemma blind_elements p v method : blind p (elements v method).
Proof. blind_heap. Qed.
Lemma blind_JSON_stringify p v : blind p (JSON_stringify v).
Proof. blind_heap. Qed.
Lemma blind_Object_keys p v : blind p (Object_keys v).
Proof. blind_heap. Qed.
Lemma blind_await p {A} (r : reply A) : blind p (await r).
Proof. blind_heap. Qed.
Lemma blind_modify_drive p g : blind p (modify_drive g).
Proof. blind_heap. Qed.

Lemma blind_JSON_parse p c : blind p (JSON_parse c).
Proof.
  intros w1 w2 (Hh & Hd & Hf). destruct c as [[| |d]|]; try done.
  simpl. rewrite Hh. by destruct (reify d (heap w2)).
Qed.

Lemma blind_existsSync p f : f ≠ p → blind p (existsSync f).
Proof.
  intros Hne w1 w2 H. unfold existsSync. simpl.
  by rewrite (alike_lookup _ _ _ _ H Hne).
Qed.

Lemma blind_readFileSync p f : f ≠ p → blind p (readFileSync f).
Proof.
  intros Hne w1 w2 H. unfold readFileSync.
  rewrite (alike_lookup _ _ _ _ H Hne). by case_match.
Qed.

Lemma blind_writeFileSync p f text : f ≠ p → blind p (writeFileSync f text).
Proof.
  intros Hne w1 w2 (Hh & Hd & Hf). destruct text as [c|]; [|done]. simpl.
  split; [done|]. split; [done|]. split; [done|]. simpl.
  by rewrite !(delete_insert_ne _ p f) by done; rewrite Hf.
Qed.

Lemma blind_delete_temp p : blind p (delete_temp p).
Proof.
  intros w1 w2 (Hh & Hd & Hf).
  destruct (delete_temp_run p w1) as (w1' & -> & Hf1 & Hd1 & Hh1 & _).
  destruct (delete_temp_run p w2) as (w2' & -> & Hf2 & Hd2 & Hh2 & _).
  simpl. split; [done|]. split; [congruence|]. split; [congruence|].
  by rewrite Hf1, Hf2, Hf.
Qed.

Create HintDb blind.
#[export] Hint Resolve blind_ret blind_throw blind_console_log blind_console_error
  blind_alloc blind_store blind_get blind_get_index blind_elements blind_JSON_parse
  blind_JSON_stringify blind_Object_keys blind_await blind_modify_drive
  blind_delete_temp : blind.
#[export] Hint Extern 1 (blind _ (existsSync _)) => (apply blind_existsSync; discriminate) : blind.
#[export] Hint Extern 1 (blind _ (readFileSync _)) => (apply blind_readFileSync; discriminate) : blind.
#[export] Hint Extern 1 (blind _ (writeFileSync _ _)) => (apply blind_writeFileSync; discriminate) : blind.

Ltac blind_step :=
  match goal with
  | |- blind _ (_ ≫= _) => apply blind_bind; [|intros ?]
  | |- blind _ (try_catch _ _) => apply blind_try; [|intros ?]
  | |- blind _ (if ?b then _ else _) => destruct b
  | |- blind _ (match ?x with _ => _ end) => destruct x
  | |- blind _ _ => solve [auto with blind]
  end.

Lemma blind_upload sv f : blind (UPLOAD_DIR (filename f)) (upload sv (Some f)).
Proof.
  unfold upload, getDriveClient, extract_metadata, upload_to_drive, drive_files_create,
    drive_permissions_create, musicbrainz, lrclib, save_song, readJSON, writeJSON,
    new_array, Array_push, res_json.
  repeat blind_step.
Qed.

(** C5. Whatever the services answer and whatever the disk holds, once
    the file-present check is passed the staged file is gone when the
    handler finishes.  A deletion that fails is not surfaced: the answer
    is the one given when the deletion succeeds.  It is logged. *)
Theorem staged_file_cleanup (sv : services) (f : multer_file) (w : world) :
  files (upload sv (Some f) w).2 !! UPLOAD_DIR (filename f) = None ∧
  (∀ c, (upload sv (Some f) (set_files (delete (UPLOAD_DIR (filename f)) (files w)) w)).1
        = (upload sv (Some f) (set_files (<[UPLOAD_DIR (filename f) := c]> (files w)) w)).1) ∧
  (files w !! UPLOAD_DIR (filename f) = None →
   deletion_failure (UPLOAD_DIR (filename f)) ∈ console (upload sv (Some f) w).2).
Proof.
  destruct (upload_deletes sv f w) as [Hgone Hlog].
  split; [done|]. split; [|done].
  intros c. apply blind_upload. repeat split. simpl.
  by rewrite delete_delete_eq, delete_insert_eq.
Qed.

(** ** POST /upload: the record that is saved *)

Lemma inspect_prim n h v : primitive v → inspect n h v = Some (prim_shape v).
Proof. by destruct n, v. Qed.

Lemma toJSON_prim v : toJSON (prim_shape v) = prim_json v.
Proof. by destruct v. Qed.

Lemma lookup_app_plus {A} (h k : list A) i : (h ++ k) !! (length h + i) = k !! i.
Proof. rewrite lookup_app_r by lia. f_equal. lia. Qed.

Lemma inspect_ref n h l :
  inspect (S n) h (VRef l) =
    match h !! l with
    | Some (OArray vs) => SArray <$> mapM (inspect n h) vs
    | Some (ORecord ps) => SObject <$> mapM (λ p, pair p.1 <$> inspect n h p.2) ps
    | Some (ODate iso) => Some (SDate iso)
    | None => None
    end.
Proof. reflexivity. Qed.

(** Shape of the new record in a heap that holds, past [h1], the songs
    array, the date and the record. *)
Lemma inspect_new_song n h1 arr iso props :
  Forall (λ p, primitive p.2) props →
  inspect (S (S n)) (h1 ++ [arr; ODate iso; ORecord (props ++ [("createdAt", VRef (length h1 + 1))])])
    (VRef (length h1 + 2))
  = Some (SObject (((λ p, (p.1, prim_shape p.2)) <$> props) ++ [("createdAt", SDate iso)])).
Proof.
  intros Hprim. rewrite inspect_ref, lookup_app_plus. cbn [lookup list_lookup].
  match goal with |- SObject <$> ?m = _ =>
    assert (m = Some (((λ p, (p.1, prim_shape p.2)) <$> props) ++ [("createdAt", SDate iso)]))
      as -> end; [|done].
  apply mapM_Some. apply Forall2_app.
  - apply Forall2_fmap_r. apply Forall_Forall2_diag.
    eapply Forall_impl; [exact Hprim|]. intros [k v] Hv. by destruct v.
  - constructor; [|constructor]. cbn [fst snd].
    by rewrite inspect_ref, lookup_app_plus.
Qed.

Lemma toJSON_new_song iso props :
  toJSON (SObject (((λ p, (p.1, prim_shape p.2)) <$> props) ++ [("createdAt", SDate iso)]))
  = Some (JObject (omap (λ p, pair p.1 <$> prim_json p.2) props
                   ++ [("createdAt", JString iso)])).
Proof.
  cbn [toJSON]. do 2 f_equal. rewrite omap_app. f_equal.
  induction props as [|[k v] props IH]; [done|].
  cbn [fmap list_fmap omap list_omap fst snd]. rewrite toJSON_prim, IH. done.
Qed.

Lemma Array_push_run w h1 vs k v :
  heap w = h1 ++ OArray vs :: k →
  Array_push (VRef (length h1)) v w
  = (Returned (), set_heap (h1 ++ OArray (vs ++ [v]) :: k) w).
Proof.
  intros Hheap.
  assert (elements (VRef (length h1)) "push" w = (Returned vs, w)) as Hel.
  { unfold elements. by rewrite Hheap, list_lookup_middle. }
  unfold Array_push. rewrite (bind_returned _ _ _ _ _ Hel). unfold store.
  rewrite Hheap. do 2 f_equal.
  rewrite insert_app_r_alt, Nat.sub_diag by done. done.
Qed.

Lemma writeJSON_run f v w s d :
  holds w v s → toJSON s = Some d →
  writeJSON f v w = (Returned (), set_files (<[f := Document d]> (files w)) w).
Proof.
  intros Hs Hd. unfold writeJSON, JSON_stringify, mbind, js_bind. unfold holds in Hs.
  rewrite Hs, Hd. reflexivity.
Qed.

Lemma res_json_run v w s :
  holds w v s →
  res_json v w = (Returned {| status := 200; headers := []; body_of := Json (toJSON s) |}, w).
Proof.
  intros Hs. unfold res_json, JSON_stringify, mbind, js_bind. unfold holds in Hs.
  rewrite Hs. reflexivity.
Qed.

(** Shape of the songs array once the new record has been pushed. *)
Lemma inspect_songs_array n h1 vs ds iso props :
  Forall2 (denotes h1) vs ds →
  Forall (λ p, primitive p.2) props →
  length h1 ≤ n →
  inspect (S (S (S n)))
    (h1 ++ [OArray (vs ++ [VRef (length h1 + 2)]); ODate iso;
            ORecord (props ++ [("createdAt", VRef (length h1 + 1))])])
    (VRef (length h1))
  = Some (SArray ((of_json <$> ds) ++
                  [SObject (((λ p, (p.1, prim_shape p.2)) <$> props)
                            ++ [("createdAt", SDate iso)])])).
Proof.
  intros Hvs Hprim Hn. rewrite inspect_ref, list_lookup_middle by done.
  match goal with |- SArray <$> ?m = _ =>
    assert (m = Some ((of_json <$> ds) ++
                  [SObject (((λ p, (p.1, prim_shape p.2)) <$> props)
                            ++ [("createdAt", SDate iso)])])) as -> end; [|done].
  apply mapM_Some, Forall2_app.
  - apply Forall2_fmap_r. eapply Forall2_impl; [exact Hvs|].
    intros v d (m & Hm & Hi). eapply inspect_app; [exact Hi|lia].
  - constructor; [|constructor]. by apply inspect_new_song.
Qed.

Lemma toJSON_songs_array ds iso props :
  toJSON (SArray ((of_json <$> ds) ++
                  [SObject (((λ p, (p.1, prim_shape p.2)) <$> props)
                            ++ [("createdAt", SDate iso)])]))
  = Some (JArray (ds ++ [JObject (omap (λ p, pair p.1 <$> prim_json p.2) props
                                  ++ [("createdAt", JString iso)])])).
Proof.
  cbn [toJSON]. do 2 f_equal. rewrite map_app. f_equal.
  - rewrite map_map. induction ds as [|d ds IH]; [done|].
    simpl. by rewrite toJSON_of_json, IH.
  - cbn [map]. by rewrite toJSON_new_song.
Qed.

(** The last stage: over a stored collection the record is appended to
    the songs file and sent back; nothing else on disk or on Drive
    changes. *)
Lemma save_song_run sv title artist album genre duration albumArt lyrics id w ds :
  stored (files w !! SONGS_FILE) ds →
  primitive genre → primitive albumArt → primitive lyrics →
  ∃ w',
    save_song sv title artist album genre duration albumArt lyrics id w =
      (Returned {| status := 200; headers := [];
                   body_of := Json (Some (song_document sv title artist album genre
                                            duration albumArt lyrics id)) |}, w') ∧
    files w' = <[SONGS_FILE := Document (JArray (ds ++
                  [song_document sv title artist album genre duration albumArt lyrics id]))]>
                 (files w) ∧
    drive w' = drive w.
Proof.
  intros Hst Hgenre Hart Hlyrics.
  destruct (readJSON_stored _ _ _ Hst)
    as (h1 & vs & w1 & Hread & Hheap & _ & Hvs & Hfiles & Hdrive).
  set (props := song_props sv title artist album genre duration albumArt lyrics id).
  assert (Forall (λ p, primitive p.2) props) as Hprim by (repeat constructor; done).
  set (H := h1 ++ [OArray (vs ++ [VRef (length h1 + 2)]); ODate (now sv);
                   ORecord (props ++ [("createdAt", VRef (length h1 + 1))])]).
  set (w4 := set_heap H (set_console (console w1 ++ [Log "Saving song:"]) w1)).
  assert (length H = S (S (S (length h1)))) as HlenH.
  { unfold H. rewrite length_app. simpl. lia. }
  assert (holds w4 (VRef (length h1))
            (SArray ((of_json <$> ds) ++
               [SObject (((λ p, (p.1, prim_shape p.2)) <$> props)
                         ++ [("createdAt", SDate (now sv))])]))) as Hsongs.
  { unfold holds, w4. cbn [heap set_heap]. rewrite HlenH. by apply inspect_songs_array. }
  assert (holds w4 (VRef (length h1 + 2))
            (SObject (((λ p, (p.1, prim_shape p.2)) <$> props)
                      ++ [("createdAt", SDate (now sv))]))) as Hnew.
  { unfold holds, w4. cbn [heap set_heap]. rewrite HlenH. by apply inspect_new_song. }
  unfold save_song. rewrite (bind_returned _ _ _ _ _ Hread).
  destruct w1 as [F1 H1 C1 D1]. cbn [heap files drive console] in *. subst H1.
  erewrite bind_returned by reflexivity.
  erewrite bind_returned by reflexivity.
  erewrite bind_returned by reflexivity.
  erewrite bind_returned.
  2:{ apply Array_push_run with (vs := vs). cbn [heap set_heap set_console].
      rewrite <- !app_assoc. reflexivity. }
  cbn [heap set_heap set_console console files drive].
  rewrite !length_app. cbn [length app].
  replace (length h1 + 1 + 1) with (length h1 + 2) by lia.
  change (set_heap _ _) with w4.
  rewrite (bind_returned _ _ _ _ _
             (writeJSON_run SONGS_FILE _ _ _ _ Hsongs (toJSON_songs_array _ _ _))).
  eexists. split.
  - rewrite res_json_run with (s := SObject (((λ p, (p.1, prim_shape p.2)) <$> props)
                                             ++ [("createdAt", SDate (now sv))])).
    + by rewrite toJSON_new_song.
    + done.
  - cbn [files drive set_files set_heap set_console w4]. subst F1 D1.
    split; [|done]. by rewrite insert_insert_eq.
Qed.

(** ** POST /upload: the whole success path *)

Lemma musicbrainz_run sv title artist genre w :
  (musicbrainz sv title artist genre w).1 = Returned (mb_result sv title artist genre).
Proof.
  unfold musicbrainz, mb_result, try_catch, await, mbind, js_bind.
  destruct (mb_search sv title artist) as [[|r rs]|]; try done.
  simpl. by destruct (mb_lookup sv r).
Qed.

Lemma lrclib_run sv title artist w :
  (lrclib sv title artist w).1 = Returned (lrc_result sv title artist).
Proof.
  unfold lrclib, lrc_result, try_catch, await, mbind, js_bind.
  by destruct (getUnsynced sv title artist) as [[p|]|].
Qed.

Lemma primitive_basic_genre c : primitive (basic_genre c).
Proof. unfold basic_genre. by repeat case_match. Qed.

Lemma primitive_mb_result sv title artist genre :
  primitive genre →
  primitive (mb_result sv title artist genre).1 ∧ primitive (mb_result sv title artist genre).2.
Proof. intros Hg. unfold mb_result. by repeat case_match. Qed.

Lemma primitive_lrc_result sv title artist : primitive (lrc_result sv title artist).
Proof.
  unfold lrc_result. destruct (getUnsynced sv title artist) as [[p|]|]; [|done..].
  by destruct p.
Qed.

Lemma after_cleanup_run sv title artist album genre duration id w ds :
  stored (files w !! SONGS_FILE) ds →
  primitive genre →
  ∃ w',
    after_cleanup sv title artist album genre duration id w =
      (Returned {| status := 200; headers := [];
                   body_of := Json (Some (song_document sv title artist album
                     (if enriches title artist then (mb_result sv title artist genre).2 else genre)
                     duration
                     (if enriches title artist then (mb_result sv title artist genre).1 else VNull)
                     (if enriches title artist then lrc_result sv title artist else VNull)
                     id)) |}, w') ∧
    files w' = <[SONGS_FILE := Document (JArray (ds ++ [song_document sv title artist album
                     (if enriches title artist then (mb_result sv title artist genre).2 else genre)
                     duration
                     (if enriches title artist then (mb_result sv title artist genre).1 else VNull)
                     (if enriches title artist then lrc_result sv title artist else VNull)
                     id]))]> (files w) ∧
    drive w' = drive w.
Proof.
  intros Hst Hgenre. unfold after_cleanup. fold (enriches title artist).
  destruct (primitive_mb_result sv title artist genre Hgenre) as [Hart Hg'].
  pose proof (primitive_lrc_result sv title artist) as Hlyr.
  destruct (enriches title artist).
  - pose proof (musicbrainz_run sv title artist genre w) as Hmb.
    destruct (quiet_musicbrainz sv title artist genre w) as (Hf1 & Hd1 & _).
    destruct (musicbrainz sv title artist genre w) as [r1 w1] eqn:Hm1.
    simpl in Hmb, Hf1, Hd1. subst r1.
    pose proof (lrclib_run sv title artist w1) as Hlr.
    destruct (quiet_lrclib sv title artist w1) as (Hf2 & Hd2 & _).
    destruct (lrclib sv title artist w1) as [r2 w2] eqn:Hl2. simpl in Hlr, Hf2, Hd2. subst r2.
    assert (stored (files w2 !! SONGS_FILE) ds) as Hst2 by (by rewrite Hf2, Hf1).
    destruct (save_song_run sv title artist album _ duration _ _ id w2 ds Hst2 Hg' Hart Hlyr)
      as (w' & Hsave & Hf' & Hd').
    exists w'. erewrite bind_returned.
    2:{ rewrite (bind_returned _ _ _ _ _ Hm1). by rewrite (bind_returned _ _ _ _ _ Hl2). }
    cbn [fst snd]. rewrite Hsave.
    split; [done|]. split; congruence.
  - destruct (save_song_run sv title artist album genre duration VNull VNull id w ds Hst Hgenre I I)
      as (w' & Hsave & Hf' & Hd').
    exists w'. erewrite bind_returned by reflexivity. cbn [fst snd]. by rewrite Hsave.
Qed.

(** A successful upload: the answer is the new record, the songs file
    gains it as its last entry, the staged file is gone and Drive holds
    the shared object. *)
Lemma upload_success sv f w ds id :
  (getDriveClient sv w).1 = Returned () →
  files_create sv (filename f) (mimetype f) = Resolved id →
  permissions_create sv id = Resolved () →
  stored (files w !! SONGS_FILE) ds →
  ∃ w',
    upload sv (Some f) w =
      (Returned {| status := 200; headers := [];
                   body_of := Json (Some (uploaded_song sv f id)) |}, w') ∧
    files w' = <[SONGS_FILE := Document (JArray (ds ++ [uploaded_song sv f id]))]>
                 (delete (UPLOAD_DIR (filename f)) (files w)) ∧
    drive w' = publish id <$> (drive w ++ [uploaded_object f id]).
Proof.
  intros Hc Hcreate Hshare Hst. set (p := UPLOAD_DIR (filename f)).
  destruct (upload_client_ok sv f w Hc) as (w1 & m & w2 & Hg & He & Hm & Hf2 & Hd2).
  fold p in He, Hm. fold (extracted sv f) in Hm. subst m.
  pose proof (upload_to_drive_run sv f p w2) as Hup. rewrite Hcreate, Hshare in Hup.
  destruct Hup as (w3 & Hup & Hf3 & Hd3).
  destruct (delete_temp_run p w3) as (w4 & Hdel & Hf4 & Hd4 & _).
  assert (stored (files w4 !! SONGS_FILE) ds) as Hst4.
  { by rewrite Hf4, Hf3, Hf2, lookup_delete_ne. }
  destruct (after_cleanup_run sv (basic_title (tags_of sv f) f) (basic_artist (tags_of sv f))
              (basic_album (tags_of sv f)) (basic_genre (tags_of sv f))
              (basic_duration (extracted sv f)) id w4 ds Hst4 (primitive_basic_genre _))
    as (w' & Hrest & Hf' & Hd').
  exists w'. split; [|split].
  - unfold upload. fold p.
    erewrite bind_returned; [|by erewrite try_returned; [|by erewrite bind_returned]].
    cbn beta iota. rewrite (bind_returned _ _ _ _ _ He).
    rewrite (bind_returned _ _ _ _ _ Hup). rewrite (bind_returned _ _ _ _ _ Hdel).
    exact Hrest.
  - by rewrite Hf', Hf4, Hf3, Hf2.
  - by rewrite Hd', Hd4, Hd3, Hd2.
Qed.

(** ** The extension and the title *)

Lemma take_all s : Str.take (String.length s) s = s.
Proof. induction s; simpl; by f_equal. Qed.

Lemma drop_all s : Str.drop (String.length s) s = "".
Proof. by induction s. Qed.

Lemma startsWith_length s q : Str.startsWith s q = true → String.length q ≤ String.length s.
Proof.
  revert s. induction q as [|b q IH]; intros [|a s]; simpl; try done; try lia.
  rewrite andb_true_iff. intros [_ H]. apply IH in H. lia.
Qed.

Lemma replace_empty s : Str.replace s "" "" = s.
Proof. by destruct s. Qed.

Lemma replace_at_end s pat :
  Str.indexOf s pat = Some (String.length s - String.length pat) →
  Str.replace s pat "" = Str.take (String.length s - String.length pat) s.
Proof.
  induction s as [|a s IH]; cbn [Str.indexOf Str.replace].
  - destruct (Str.startsWith "" pat) eqn:Hsw; [|done]. intros _. by destruct pat.
  - destruct (Str.startsWith (String a s) pat) eqn:Hsw.
    + intros [= Hz]. apply startsWith_length in Hsw.
      assert (String.length pat = String.length (String a s)) as Hlen by (simpl in *; lia).
      by rewrite Hlen, drop_all, Nat.sub_diag.
    + destruct (Str.indexOf s pat) as [i|] eqn:Hi; [|done]. simpl.
      intros [= Hz].
      assert (String.length pat ≤ String.length s) as Hle.
      { clear IH Hsw. revert i Hi Hz. induction s as [|c s IHs]; intros i Hi Hz.
        - cbn [Str.indexOf] in Hi. destruct (Str.startsWith "" pat) eqn:H0; [|done].
          by apply startsWith_length in H0.
        - cbn [Str.indexOf] in Hi. destruct (Str.startsWith (String c s) pat) eqn:H0.
          + by apply startsWith_length in H0.
          + simpl in *. lia. }
      replace (S (String.length s) - String.length pat)
        with (S (String.length s - String.length pat)) by lia.
      simpl. f_equal. apply IH. f_equal. lia.
Qed.

Lemma replace_extension name :
  extension_occurs_last name →
  Str.replace name (Path.extname name) "" = strip_extension name.
Proof.
  unfold strip_extension. intros [Hnone|Hlast].
  - rewrite Hnone, replace_empty. simpl. by rewrite Nat.sub_0_r, take_all.
  - by apply replace_at_end.
Qed.

(** ** POST /upload: the defaults *)

Lemma or_else_missing tag b : missing tag → or_else tag b = b.
Proof. by intros [-> | ->]. Qed.

Lemma song_document_title sv title artist album genre duration albumArt lyrics id :
  string_field "title"
    (song_document sv title artist album genre duration albumArt lyrics id) = Some title.
Proof. reflexivity. Qed.

Lemma song_document_artist sv title artist album genre duration albumArt lyrics id :
  string_field "artist"
    (song_document sv title artist album genre duration albumArt lyrics id) = Some artist.
Proof. reflexivity. Qed.

Lemma song_document_album sv title artist album genre duration albumArt lyrics id :
  string_field "album"
    (song_document sv title artist album genre duration albumArt lyrics id) = Some album.
Proof. reflexivity. Qed.

Lemma song_document_genre sv title artist album g duration albumArt lyrics id :
  string_field "genre"
    (song_document sv title artist album (VString g) duration albumArt lyrics id) = Some g.
Proof. reflexivity. Qed.

Lemma song_document_duration sv title artist album genre duration albumArt lyrics id :
  field "duration"
    (song_document sv title artist album genre duration albumArt lyrics id)
  = Some (JNumber duration).
Proof. by destruct genre. Qed.

Lemma uploaded_genre sv f id :
  tag_genre (tags_of sv f) = None →
  string_field "genre" (uploaded_song sv f id) = Some (default "Unknown" (reported_genre sv f)).
Proof.
  intros Hg. unfold uploaded_song, reported_genre, mb_result, basic_genre. rewrite Hg.
  destruct (enriches _ _); [|done].
  destruct (mb_search sv _ _) as [[|r rs]|]; try done.
  destruct (mb_lookup sv r) as [[rels [|g gs]]|]; done.
Qed.

Lemma reported_genre_needs_artist sv f :
  missing (tag_artist (tags_of sv f)) → reported_genre sv f = None.
Proof.
  intros Ha. unfold reported_genre, enriches, basic_artist.
  rewrite (or_else_missing _ _ Ha). by rewrite andb_false_r.
Qed.

(** C4, as the code has it.  On a successful upload over a stored
    collection the record sent back, which is also the record appended to
    the songs file, takes these defaults.  A missing title tag gives the
    original file name with its extension stripped, for names in which the
    text of the extension does not occur before the extension itself.  A
    missing artist or album tag gives "Unknown", a missing duration gives
    0.  A missing genre tag gives "Unknown" unless the MusicBrainz lookup
    reports a genre, which then stands; the lookup runs only when an artist
    tag is present, so with no artist tag the genre is "Unknown". *)
Theorem upload_defaults (sv : services) (f : multer_file) (w : world)
    (ds : list json) (id : string) :
  (getDriveClient sv w).1 = Returned () →
  files_create sv (filename f) (mimetype f) = Resolved id →
  permissions_create sv id = Resolved () →
  stored (files w !! SONGS_FILE) ds →
  ∃ song,
    (upload sv (Some f) w).1 =
      Returned {| status := 200; headers := []; body_of := Json (Some song) |} ∧
    files (upload sv (Some f) w).2 !! SONGS_FILE = Some (Document (JArray (ds ++ [song]))) ∧
    (missing (tag_title (tags_of sv f)) → extension_occurs_last (originalname f) →
       string_field "title" song = Some (strip_extension (originalname f))) ∧
    (missing (tag_artist (tags_of sv f)) → string_field "artist" song = Some "Unknown") ∧
    (missing (tag_album (tags_of sv f)) → string_field "album" song = Some "Unknown") ∧
    (format_duration (extracted sv f) = None → field "duration" song = Some (JNumber 0)) ∧
    (tag_genre (tags_of sv f) = None →
       string_field "genre" song = Some (default "Unknown" (reported_genre sv f))) ∧
    (tag_genre (tags_of sv f) = None → missing (tag_artist (tags_of sv f)) →
       string_field "genre" song = Some "Unknown").
Proof.
  intros Hc Hcreate Hshare Hst.
  destruct (upload_success sv f w ds id Hc Hcreate Hshare Hst) as (w' & -> & Hfiles & _).
  exists (uploaded_song sv f id). cbn [fst snd].
  split; [done|]. split; [by rewrite Hfiles, lookup_insert_eq|].
  split; [|split; [|split; [|split; [|split]]]].
  - intros Ht Hext. unfold uploaded_song. rewrite song_document_title.
    unfold basic_title. by rewrite (or_else_missing _ _ Ht), replace_extension.
  - intros Ha. unfold uploaded_song. rewrite song_document_artist.
    unfold basic_artist. by rewrite (or_else_missing _ _ Ha).
  - intros Hal. unfold uploaded_song. rewrite song_document_album.
    unfold basic_album. by rewrite (or_else_missing _ _ Hal).
  - intros Hd. unfold uploaded_song. rewrite song_document_duration.
    unfold basic_duration. by rewrite Hd.
  - apply uploaded_genre.
  - intros Hg Ha. by rewrite uploaded_genre, reported_genre_needs_artist.
Qed.

Lemma upload_defaults_witness :
  ∃ song,
    (upload untagged (Some take_five) staged_world).1 =
      Returned {| status := 200; headers := []; body_of := Json (Some song) |} ∧
    files (upload untagged (Some take_five) staged_world).2 !! SONGS_FILE
      = Some (Document (JArray ([blue_skies] ++ [song]))) ∧
    (missing (tag_title (tags_of untagged take_five)) →
     extension_occurs_last (originalname take_five) →
       string_field "title" song = Some (strip_extension (originalname take_five))) ∧
    (missing (tag_artist (tags_of untagged take_five)) →
       string_field "artist" song = Some "Unknown") ∧
    (missing (tag_album (tags_of untagged take_five)) →
       string_field "album" song = Some "Unknown") ∧
    (format_duration (extracted untagged take_five) = None →
       field "duration" song = Some (JNumber 0)) ∧
    (tag_genre (tags_of untagged take_five) = None →
       string_field "genre" song
       = Some (default "Unknown" (reported_genre untagged take_five))) ∧
    (tag_genre (tags_of untagged take_five) = None →
     missing (tag_artist (tags_of untagged take_five)) →
       string_field "genre" song = Some "Unknown").
Proof.
  apply (upload_defaults untagged take_five staged_world [blue_skies] "drive-1");
    reflexivity.
Defined.

(** Extraction yields no genre, and the saved genre is not "Unknown": it
    is the one the lookup reported. *)
Lemma upload_genre_from_lookup :
  tag_genre (tags_of enriching take_five) = None ∧
  ∃ song,
    (upload enriching (Some take_five) staged_world).1 =
      Returned {| status := 200; headers := []; body_of := Json (Some song) |} ∧
    string_field "genre" song = Some "jazz".
Proof. split; [reflexivity|]. eexists. split; reflexivity. Qed.

(** The title falls back to [originalname.replace(ext, '')], which
    removes the first occurrence of the extension, not the last. *)
Example title_keeps_the_extension :
  Path.extname "live.mp3.final.mp3" = ".mp3" ∧
  strip_extension "live.mp3.final.mp3" = "live.mp3.final" ∧
  basic_title no_tags {| originalname := "live.mp3.final.mp3";
                         filename := "3f2c9d0e.mp3"; mimetype := "audio/mpeg" |}
  = "live.final.mp3".
Proof. repeat split. Qed.

(** ** Where [reify] puts a document

  [reify] allocates by bumping: the cells of a document occupy a range of
  locations of their own, those of its parts sub-ranges in order, and an
  array or object sits in the last cell of its range. *)

Lemma laid_out_impl {A B} (P Q : B → nat → nat → A → Prop) ds :
  Forall (λ d, ∀ lo hi v, P d lo hi v → Q d lo hi v) ds →
  ∀ lo hi vs, laid_out P ds lo hi vs → laid_out Q ds lo hi vs.
Proof.
  induction 1 as [|d ds Hd _ IH]; intros lo hi [|v vs]; simpl; try done.
  intros (mid & Hv & Hvs). exists mid. split; [by apply Hd|by apply IH].
Qed.

Lemma laid_out_range {A B} (P : B → nat → nat → A → Prop) ds :
  Forall (λ d, ∀ lo hi v, P d lo hi v → lo ≤ hi) ds →
  ∀ lo hi vs, laid_out P ds lo hi vs → lo ≤ hi.
Proof.
  induction 1 as [|d ds Hd _ IH]; intros lo hi [|v vs]; simpl; try done; [lia|].
  intros (mid & Hv & Hvs). apply Hd in Hv. apply IH in Hvs. lia.
Qed.

Lemma built_range h d : ∀ lo hi v, built h d lo hi v → lo ≤ hi.
Proof.
  induction d as [ | b | n | s | ds IH | ps IH] using json_ind; intros lo hi v; simpl.
  1-4: intros [_ ->]; lia.
  - intros (top & vs & -> & _ & _ & Hl). apply laid_out_range in Hl; [lia|done].
  - intros (top & qs & -> & _ & _ & Hl). apply laid_out_range in Hl; [lia|].
    eapply Forall_impl; [exact IH|]. intros p Hp lo' hi' q [_ Hq]. by eapply Hp.
Qed.

(** A layout survives any change of the heap outside its range. *)
Lemma laid_out_agree {A B} (P P' : B → nat → nat → A → Prop) ds :
  Forall (λ d, ∀ lo hi v, P d lo hi v → lo ≤ hi) ds →
  ∀ lo hi vs,
    Forall (λ d, ∀ lo' hi' v, lo ≤ lo' → hi' ≤ hi → P d lo' hi' v → P' d lo' hi' v) ds →
    laid_out P ds lo hi vs → laid_out P' ds lo hi vs.
Proof.
  induction 1 as [|d ds Hd Hds IH]; intros lo hi [|v vs] HPP'; simpl; try done.
  apply Forall_cons in HPP' as [Hd' Hds'].
  intros (mid & Hv & Hvs). exists mid.
  pose proof (Hd _ _ _ Hv) as Hlo. pose proof (laid_out_range P ds Hds _ _ _ Hvs) as Hhi.
  split; [apply Hd'; [lia..|done]|].
  apply IH; [|done]. eapply Forall_impl; [exact Hds'|].
  intros d' Hd'' lo' hi' v' ? ?. apply Hd''; lia.
Qed.

Lemma built_agree h h' d :
  ∀ lo hi v, built h d lo hi v →
    (∀ l, lo ≤ l < hi → h' !! l = h !! l) → built h' d lo hi v.
Proof.
  induction d as [ | b | n | s | ds IH | ps IH] using json_ind; intros lo hi v; simpl;
    try done.
  - intros (top & vs & -> & -> & Htop & Hl) Hh.
    assert (Forall (λ d, ∀ lo hi v, built h d lo hi v → lo ≤ hi) ds) as Hrange.
    { apply Forall_forall. intros d _. apply built_range. }
    pose proof (laid_out_range (built h) ds Hrange _ _ _ Hl) as Hr.
    exists top, vs. split; [done|]. split; [done|].
    split; [rewrite Hh; [done|lia]|].
    eapply laid_out_agree; [exact Hrange| |exact Hl].
    eapply Forall_impl; [exact IH|]. intros d Hd lo' hi' v' ? ? Hb.
    apply Hd; [done|]. intros l ?. apply Hh. lia.
  - intros (top & qs & -> & -> & Htop & Hl) Hh.
    assert (Forall (λ p : string * json, ∀ lo hi (q : string * value),
              q.1 = p.1 ∧ built h p.2 lo hi q.2 → lo ≤ hi) ps) as Hrange.
    { apply Forall_forall. intros p _ lo' hi' q [_ Hq]. by eapply built_range. }
    pose proof (laid_out_range _ ps Hrange _ _ _ Hl) as Hr.
    exists top, qs. split; [done|]. split; [done|].
    split; [rewrite Hh; [done|lia]|].
    eapply laid_out_agree; [exact Hrange| |exact Hl].
    eapply Forall_impl; [exact IH|]. intros p Hp lo' hi' q ? ? [Hk Hb].
    split; [done|]. apply Hp; [done|]. intros l ?. apply Hh. lia.
Qed.

Lemma laid_out_app_heap h k ds :
  ∀ lo hi vs, hi ≤ length h →
    laid_out (built h) ds lo hi vs → laid_out (built (h ++ k)) ds lo hi vs.
Proof.
  intros lo hi vs Hhi Hl.
  eapply laid_out_agree; [| |exact Hl].
  - apply Forall_forall. intros d _. apply built_range.
  - apply Forall_forall. intros d _ lo' hi' v ? ? Hb.
    eapply built_agree; [exact Hb|]. intros l ?. apply lookup_app_l. lia.
Qed.

Lemma thread_reify_built ds :
  Forall reify_built ds →
  ∀ h vs h', thread reify ds h = (vs, h') →
    laid_out (built h') ds (length h) (length h') vs.
Proof.
  induction 1 as [|d ds Hd _ IH]; intros h vs h' Ht; simpl in Ht.
  - by simplify_eq.
  - destruct (reify d h) as [v h1] eqn:Hr.
    destruct (thread reify ds h1) as [vs' h2] eqn:Ht'. simplify_eq.
    destruct (reify_spec d _ _ _ Hr) as ([k1 ->] & _ & _).
    assert (Forall reify_ok ds) as Hok by (apply Forall_forall; intros; apply reify_spec).
    destruct (thread_reify_ok ds Hok _ _ _ Ht') as ([k2 ->] & _ & _).
    exists (length (h ++ k1)). split; [|by apply IH].
    eapply built_agree; [by apply Hd|]. intros l ?. apply lookup_app_l. lia.
Qed.

Lemma thread_reify_props_built (ps : list (string * json)) :
  Forall (λ p, reify_built p.2) ps →
  ∀ h qs h',
    thread (λ p h, let '(v, h1) := reify p.2 h in ((p.1, v), h1)) ps h = (qs, h') →
    laid_out (λ p lo hi q, q.1 = p.1 ∧ built h' p.2 lo hi q.2) ps (length h) (length h') qs.
Proof.
  induction 1 as [|[key d] ps Hd _ IH]; intros h qs h' Ht; simpl in Ht.
  - by simplify_eq.
  - destruct (reify d h) as [v h1] eqn:Hr.
    destruct (thread _ ps h1) as [qs' h2] eqn:Ht'. simplify_eq.
    destruct (reify_spec d _ _ _ Hr) as ([k1 ->] & _ & _).
    assert (Forall (λ p : string * json, reify_ok p.2) ps) as Hok
      by (apply Forall_forall; intros; apply reify_spec).
    destruct (thread_reify_props_ok ps Hok _ _ _ Ht') as ([k2 ->] & _ & _).
    exists (length (h ++ k1)). split; [|by apply IH]. split; [done|]. simpl.
    eapply built_agree; [by apply Hd|]. intros l ?. apply lookup_app_l. lia.
Qed.

Lemma reify_is_built d : reify_built d.
Proof.
  induction d as [ | b | n | s | ds IH | ps IH] using json_ind;
    intros h v h' Hr; simpl in Hr.
  1-4: by simplify_eq.
  - destruct (thread reify ds h) as [vs h1] eqn:Ht. simplify_eq.
    pose proof (thread_reify_built ds IH _ _ _ Ht) as Hl.
    exists (length h1), vs. rewrite length_app. simpl.
    split; [lia|]. split; [done|]. split; [by apply list_lookup_middle|].
    by apply laid_out_app_heap.
  - destruct (thread _ ps h) as [qs h1] eqn:Ht. simplify_eq.
    pose proof (thread_reify_props_built ps IH _ _ _ Ht) as Hl.
    exists (length h1), qs. rewrite length_app. simpl.
    split; [lia|]. split; [done|]. split; [by apply list_lookup_middle|].
    eapply laid_out_agree; [| |exact Hl].
    + apply Forall_forall. intros p _ lo' hi' q [_ Hq]. by eapply built_range.
    + apply Forall_forall. intros p _ lo' hi' q ? ? [Hk Hb]. split; [done|].
      eapply built_agree; [exact Hb|]. intros l ?. apply lookup_app_l. lia.
Qed.

Lemma laid_out_Forall2 {A B} (P : B → nat → nat → A → Prop) (Q : A → B → Prop) n ds :
  Forall (λ d, ∀ lo hi v, P d lo hi v → lo ≤ hi) ds →
  Forall (λ d, ∀ lo hi v, P d lo hi v → hi - lo ≤ n → Q v d) ds →
  ∀ lo hi vs, laid_out P ds lo hi vs → hi - lo ≤ n → Forall2 Q vs ds.
Proof.
  induction 1 as [|d ds Hd Hds IH]; intros HQ lo hi [|v vs]; simpl; try done.
  apply Forall_cons in HQ as [HQd HQds].
  intros (mid & Hv & Hvs) Hn.
  pose proof (Hd _ _ _ Hv). pose proof (laid_out_range _ ds Hds _ _ _ Hvs).
  constructor; [apply (HQd _ _ _ Hv); lia|]. apply (IH HQds mid hi); [done|lia].
Qed.

(** Within its range a built value has the shape of its document. *)
Lemma built_inspect h d :
  ∀ lo hi v n, built h d lo hi v → hi - lo ≤ n → inspect n h v = Some (of_json d).
Proof.
  induction d as [ | b | m | s | ds IH | ps IH] using json_ind; intros lo hi v n; simpl.
  1-4: intros [-> _] _; by destruct n.
  - intros (top & vs & -> & -> & Htop & Hl) Hn.
    assert (Forall (λ d, ∀ lo hi v, built h d lo hi v → lo ≤ hi) ds) as Hrange.
    { apply Forall_forall. intros d _. apply built_range. }
    pose proof (laid_out_range _ ds Hrange _ _ _ Hl) as Hr.
    destruct n as [|n]; [lia|]. rewrite inspect_ref, Htop.
    assert (mapM (inspect n h) vs = Some (of_json <$> ds)) as ->; [|done].
    apply mapM_Some, Forall2_fmap_r.
    eapply (laid_out_Forall2 _ _ n); [exact Hrange| |exact Hl|lia].
    eapply Forall_impl; [exact IH|]. intros d Hd lo' hi' v' Hb Hn'. by eapply Hd.
  - intros (top & qs & -> & -> & Htop & Hl) Hn.
    assert (Forall (λ p : string * json, ∀ lo hi (q : string * value),
              q.1 = p.1 ∧ built h p.2 lo hi q.2 → lo ≤ hi) ps) as Hrange.
    { apply Forall_forall. intros p _ lo' hi' q [_ Hq]. by eapply built_range. }
    pose proof (laid_out_range _ ps Hrange _ _ _ Hl) as Hr.
    destruct n as [|n]; [lia|]. rewrite inspect_ref, Htop.
    assert (mapM (λ p, pair p.1 <$> inspect n h p.2) qs
            = Some ((λ p, (p.1, of_json p.2)) <$> ps)) as ->; [|done].
    apply mapM_Some, Forall2_fmap_r.
    eapply (laid_out_Forall2 _ _ n); [exact Hrange| |exact Hl|lia].
    eapply Forall_impl; [exact IH|]. intros p Hp lo' hi' q [Hk Hb] Hn'. simpl.
    rewrite (Hp _ _ _ _ Hb Hn'). simpl. by rewrite Hk.
Qed.

Lemma built_denotes h d lo hi v : built h d lo hi v → hi ≤ length h → denotes h v d.
Proof.
  intros Hb Hhi. exists (hi - lo). split; [lia|]. by eapply built_inspect.
Qed.

Lemma laid_out_lookup {A B} (P : B → nat → nat → A → Prop) ds :
  Forall (λ d, ∀ lo hi v, P d lo hi v → lo ≤ hi) ds →
  ∀ lo hi vs i d,
    laid_out P ds lo hi vs → ds !! i = Some d →
    ∃ v a b, vs !! i = Some v ∧ lo ≤ a ∧ b ≤ hi ∧ P d a b v ∧
             laid_out P (take i ds) lo a (take i vs) ∧
             laid_out P (drop (S i) ds) b hi (drop (S i) vs).
Proof.
  induction 1 as [|d0 ds Hd Hds IH]; intros lo hi [|v vs] i d; simpl; try done.
  intros (mid & Hv & Hvs) Hi.
  pose proof (Hd _ _ _ Hv). pose proof (laid_out_range _ ds Hds _ _ _ Hvs).
  destruct i as [|i]; simpl in *.
  - simplify_eq. exists v, lo, mid. repeat split; try done; lia.
  - destruct (IH _ _ _ _ _ Hvs Hi) as (v' & a & b & ? & ? & ? & ? & ? & ?).
    exists v', a, b. repeat split; try done; [lia|]. by exists mid.
Qed.

(** In a heap that agrees with [h] on the range of a layout, each value
    still has the shape of its document. *)
Lemma laid_out_inspect h h' ds lo hi vs n :
  laid_out (built h) ds lo hi vs →
  (∀ l, lo ≤ l < hi → h' !! l = h !! l) →
  hi - lo ≤ n →
  Forall2 (λ v d, inspect n h' v = Some (of_json d)) vs ds.
Proof.
  intros Hl Hh Hn.
  assert (Forall (λ d, ∀ lo hi v, built h d lo hi v → lo ≤ hi) ds) as Hrange.
  { apply Forall_forall. intros d _. apply built_range. }
  assert (laid_out (built h') ds lo hi vs) as Hl'.
  { eapply laid_out_agree; [exact Hrange| |exact Hl].
    apply Forall_forall. intros d _ lo' hi' v ? ? Hb.
    eapply built_agree; [exact Hb|]. intros l ?. apply Hh. lia. }
  eapply (laid_out_Forall2 _ _ n); [| |exact Hl'|done].
  - apply Forall_forall. intros d _. apply built_range.
  - apply Forall_forall. intros d _ lo' hi' v Hb ?. by eapply built_inspect.
Qed.

Lemma laid_out_props_inspect h h' (ps : list (string * json)) lo hi qs n :
  laid_out (λ p lo hi q, q.1 = p.1 ∧ built h p.2 lo hi q.2) ps lo hi qs →
  (∀ l, lo ≤ l < hi → h' !! l = h !! l) →
  hi - lo ≤ n →
  Forall2 (λ (q : string * value) (p : string * json),
             pair q.1 <$> inspect n h' q.2 = Some (p.1, of_json p.2)) qs ps.
Proof.
  intros Hl Hh Hn.
  assert (Forall (λ p : string * json, ∀ lo hi (q : string * value),
            q.1 = p.1 ∧ built h p.2 lo hi q.2 → lo ≤ hi) ps) as Hrange.
  { apply Forall_forall. intros p _ lo' hi' q [_ Hq]. by eapply built_range. }
  assert (laid_out (λ p lo hi (q : string * value), q.1 = p.1 ∧ built h' p.2 lo hi q.2)
            ps lo hi qs) as Hl'.
  { eapply laid_out_agree; [exact Hrange| |exact Hl].
    apply Forall_forall. intros p _ lo' hi' q ? ? [Hk Hb]. split; [done|].
    eapply built_agree; [exact Hb|]. intros l ?. apply Hh. lia. }
  eapply (laid_out_Forall2 _ _ n); [| |exact Hl'|done].
  - apply Forall_forall. intros p _ lo' hi' q [_ Hq]. by eapply built_range.
  - apply Forall_forall. intros p _ lo' hi' q [Hk Hb] ?. simpl.
    rewrite (built_inspect _ _ _ _ _ _ Hb) by done. simpl. by rewrite Hk.
Qed.

Lemma laid_out_length {A B} (P : B → nat → nat → A → Prop) ds lo hi vs :
  laid_out P ds lo hi vs → length vs = length ds.
Proof.
  revert lo vs. induction ds as [|d ds IH]; intros lo [|v vs]; simpl; try done.
  intros (mid & _ & Hvs). f_equal. by eapply IH.
Qed.

(** A reference among laid-out values points below the end of the
    layout. *)
Lemma laid_out_refs_below h ds lo hi vs t :
  laid_out (built h) ds lo hi vs → VRef t ∈ vs → t < hi.
Proof.
  intros Hl Hin. apply list_elem_of_lookup in Hin as [i Hi].
  assert (Forall (λ d, ∀ lo hi v, built h d lo hi v → lo ≤ hi) ds) as Hrange.
  { apply Forall_forall. intros d _. apply built_range. }
  assert (is_Some (ds !! i)) as [d Hd].
  { apply lookup_lt_is_Some. apply lookup_lt_Some in Hi.
    by rewrite <- (laid_out_length _ _ _ _ _ Hl). }
  destruct (laid_out_lookup _ ds Hrange _ _ _ _ _ Hl Hd) as (v & a & b & Hv & ? & ? & Hb & _).
  rewrite Hi in Hv. simplify_eq.
  destruct d; simpl in Hb; try (by destruct Hb).
  - destruct Hb as (top & ? & -> & [= ->] & _). lia.
  - destruct Hb as (top & ? & -> & [= ->] & _). lia.
Qed.

(** ** PUT /playlist/:id/add *)

Lemma Array_push_at w l vs v :
  heap w !! l = Some (OArray vs) →
  Array_push (VRef l) v w
  = (Returned (), set_heap (<[l := OArray (vs ++ [v])]> (heap w)) w).
Proof.
  intros Hl.
  assert (elements (VRef l) "push" w = (Returned vs, w)) as Hel.
  { unfold elements. by rewrite Hl. }
  unfold Array_push. by rewrite (bind_returned _ _ _ _ _ Hel).
Qed.

Lemma readJSON_laid_out f w ds :
  stored (files w !! f) ds →
  ∃ h1 vs w1,
    readJSON f w = (Returned (VRef (length h1)), w1) ∧
    heap w1 = h1 ++ [OArray vs] ∧
    length (heap w) ≤ length h1 ∧
    (∀ l, l < length (heap w) → h1 !! l = heap w !! l) ∧
    laid_out (built h1) ds (length (heap w)) (length h1) vs ∧
    files w1 = <[f := Document (JArray ds)]> (files w) ∧
    drive w1 = drive w.
Proof.
  intros Hst. destruct (files w !! f) as [[ | |d]|] eqn:Hf; simpl in Hst; subst.
  - exists (heap w), [], (reset f w). rewrite readJSON_blank by done. by repeat split.
  - eexists (heap w), [], _. rewrite readJSON_invalid by done. by repeat split.
  - rewrite (readJSON_document _ _ _ Hf). simpl.
    destruct (thread reify ds (heap w)) as [vs h1] eqn:Ht. simpl.
    assert (Forall reify_ok ds) as Hok by (apply Forall_forall; intros; apply reify_spec).
    destruct (thread_reify_ok ds Hok _ _ _ Ht) as ([k ->] & Hlen & _).
    assert (Forall reify_built ds) as Hb by (apply Forall_forall; intros; apply reify_is_built).
    pose proof (thread_reify_built ds Hb _ _ _ Ht) as Hl.
    exists (heap w ++ k), vs. eexists. repeat split; try done.
    + rewrite length_app. lia.
    + intros l ?. by apply lookup_app_l.
    + simpl. by rewrite insert_id.
  - exists (heap w), [], (reset f w). rewrite readJSON_absent by done. by repeat split.
Qed.

(** Where the value of property [k] lies within the layout of an
    object's properties. *)
Lemma laid_out_field h k ps :
  ∀ lo hi qs d,
    laid_out (λ p lo hi (q : string * value), q.1 = p.1 ∧ built h p.2 lo hi q.2) ps lo hi qs →
    field_in k ps = Some d →
    ∃ j v a b,
      lookup_prop k qs = Some v ∧ lo ≤ a ∧ b ≤ hi ∧ built h d a b v ∧
      qs !! j = Some (k, v) ∧
      laid_out (λ p lo hi (q : string * value), q.1 = p.1 ∧ built h p.2 lo hi q.2)
        (take j ps) lo a (take j qs) ∧
      laid_out (λ p lo hi (q : string * value), q.1 = p.1 ∧ built h p.2 lo hi q.2)
        (drop (S j) ps) b hi (drop (S j) qs) ∧
      ∀ d', set_field_in k d' ps = take j ps ++ (k, d') :: drop (S j) ps.
Proof.
  induction ps as [|[k0 d0] ps IH]; intros lo hi [|[k1 v1] qs] d; simpl; try done.
  intros (mid & [Hk Hv] & Hqs) Hf. simpl in Hk, Hv. subst k1.
  pose proof (built_range _ _ _ _ _ Hv).
  assert (mid ≤ hi).
  { eapply laid_out_range; [|exact Hqs].
    apply Forall_forall. intros p _ lo' hi' q [_ Hq]. by eapply built_range. }
  case_bool_decide.
  - simplify_eq. exists 0, v1, lo, mid. simpl. repeat split; try done; lia.
  - destruct (IH _ _ _ _ Hqs Hf) as (j & v & a & b & ? & ? & ? & ? & ? & ? & ? & Hset).
    exists (S j), v, a, b. simpl. repeat split; try done; [lia| |].
    + by exists mid.
    + intros d'. by rewrite Hset.
Qed.

Lemma find_first_index w id vs ds i d :
  Forall2 (denotes (heap w)) vs ds →
  Forall (λ d, d ≠ JNull) ds →
  list_find (λ d, has_json_id id d) ds = Some (i, d) →
  ∃ v, vs !! i = Some v ∧ find_first (has_id (VString id)) vs w = (Returned v, w).
Proof.
  intros Hvs. revert i. induction Hvs as [|v d0 vs ds Hv _ IH]; intros i Hnn Hfind.
  - done.
  - apply Forall_cons in Hnn as [Hd Hds].
    cbn [find_first]. rewrite (bind_returned _ _ _ _ _ (has_id_denotes _ _ _ _ Hv Hd)).
    cbn [list_find] in Hfind. destruct (has_json_id id d0) eqn:Hid.
    + rewrite decide_True in Hfind by done. simplify_eq. by exists v.
    + rewrite decide_False in Hfind by (simpl; auto).
      destruct (list_find _ ds) as [[i' d']|] eqn:Hf; simplify_eq. simpl in Hfind.
      simplify_eq. destruct (IH _ Hds eq_refl) as (v' & ? & ?). by exists v'.
Qed.

Lemma laid_out_denotes h k ds lo hi vs :
  laid_out (built h) ds lo hi vs → hi ≤ length h → Forall2 (denotes (h ++ k)) vs ds.
Proof.
  intros Hl Hhi.
  eapply Forall2_impl; [eapply (laid_out_inspect h (h ++ k) _ _ _ _ (hi - lo)); [exact Hl| |done]|].
  - intros l ?. apply lookup_app_l. lia.
  - intros v d Hi. exists (hi - lo). split; [rewrite length_app; lia|done].
Qed.

(** C1 does not hold of the code: whenever the playlist and the song are
    found, the song is appended, whether or not the playlist lists it
    already.  The guard [playlist.songs.includes(song)] compares a record
    parsed from the songs file with records parsed from the playlists
    file, and two parses never share an object. *)
Theorem add_song_appends (id sid : string) (w : world) (pls ds items : list json)
    (i j : nat) (pl song : json) :
  stored (files w !! PLAYLISTS_FILE) pls →
  Forall (λ d, d ≠ JNull) pls →
  list_find (λ d, has_json_id id d) pls = Some (i, pl) →
  field "songs" pl = Some (JArray items) →
  stored (files w !! SONGS_FILE) ds →
  Forall (λ d, d ≠ JNull) ds →
  list_find (λ d, has_json_id sid d) ds = Some (j, song) →
  (add_song id (VString sid) w).1 =
    Returned {| status := 200; headers := [];
                body_of := Json (Some (set_field "songs" (JArray (items ++ [song])) pl)) |} ∧
  files (add_song id (VString sid) w).2 !! PLAYLISTS_FILE =
    Some (Document (JArray (<[i := set_field "songs" (JArray (items ++ [song])) pl]> pls))).
Proof.
  intros Hpst Hpnn Hpfind Hsongs Hsst Hsnn Hsfind.
  (* the playlists are read *)
  destruct (readJSON_laid_out _ _ _ Hpst)
    as (h1 & vs1 & w1 & Hread1 & Hheap1 & Hlen1 & Hpre1 & Hl1 & Hfiles1 & _).
  assert (Forall2 (denotes (heap w1)) vs1 pls) as Hden1.
  { rewrite Hheap1. by eapply laid_out_denotes. }
  destruct (find_first_index w1 id vs1 pls i pl Hden1 Hpnn Hpfind) as (vp & Hvp & Hfind1).
  assert (Array_find (VRef (length h1)) (has_id (VString id)) w1 = (Returned vp, w1)) as Hfind1'.
  { assert (elements (VRef (length h1)) "find" w1 = (Returned vs1, w1)) as Hel.
    { unfold elements. by rewrite Hheap1, list_lookup_middle. }
    unfold Array_find. by rewrite (bind_returned _ _ _ _ _ Hel). }
  destruct pl as [ | | | | |ps]; simpl in Hsongs; try done.
  apply list_find_Some in Hpfind as (Hpi & _ & _).
  assert (Forall (λ d, ∀ lo hi v, built h1 d lo hi v → lo ≤ hi) pls) as Hrange1.
  { apply Forall_forall. intros d _. apply built_range. }
  destruct (laid_out_lookup _ pls Hrange1 _ _ _ _ _ Hl1 Hpi)
    as (vp' & lo_p & hi_p & Hvp' & Hlo_p & Hhi_p & Hbp & Hbefore & Hafter).
  rewrite Hvp in Hvp'. symmetry in Hvp'. simplify_eq.
  simpl in Hbp. destruct Hbp as (lp & qs & -> & -> & Hlp & Hprops).
  destruct (laid_out_field h1 "songs" ps _ _ qs _ Hprops Hsongs)
    as (jj & v_items & a & b & Hlookup & Ha & Hb & Hbi & Hq & Hpbefore & Hpafter & Hset).
  simpl in Hbi. destruct Hbi as (li & vitems & -> & -> & Hli & Hitems).
  assert (a ≤ li) as Hali.
  { eapply laid_out_range; [|exact Hitems]. apply Forall_forall. intros d _. apply built_range. }
  (* the songs are read *)
  assert (stored (files w1 !! SONGS_FILE) ds) as Hsst1.
  { by rewrite Hfiles1, lookup_insert_ne. }
  destruct (readJSON_laid_out _ _ _ Hsst1)
    as (h2 & vs2 & w2 & Hread2 & Hheap2 & Hlen2 & Hpre2 & Hl2 & Hfiles2 & _).
  assert (length (heap w1) = S (length h1)) as Hlenw1.
  { rewrite Hheap1, length_app. simpl. lia. }
  assert (Forall2 (denotes (heap w2)) vs2 ds) as Hden2.
  { rewrite Hheap2. by eapply laid_out_denotes. }
  destruct (find_first_index w2 sid vs2 ds j song Hden2 Hsnn Hsfind) as (vsong & Hvsong & Hfind2).
  assert (Array_find (VRef (length h2)) (has_id (VString sid)) w2 = (Returned vsong, w2))
    as Hfind2'.
  { assert (elements (VRef (length h2)) "find" w2 = (Returned vs2, w2)) as Hel.
    { unfold elements. by rewrite Hheap2, list_lookup_middle. }
    unfold Array_find. by rewrite (bind_returned _ _ _ _ _ Hel). }
  apply list_find_Some in Hsfind as (Hsj & Hsid & _).
  apply Is_true_true in Hsid. apply has_json_id_object in Hsid as [sps ->].
  assert (Forall (λ d, ∀ lo hi v, built h2 d lo hi v → lo ≤ hi) ds) as Hrange2.
  { apply Forall_forall. intros d _. apply built_range. }
  destruct (laid_out_lookup _ ds Hrange2 _ _ _ _ _ Hl2 Hsj)
    as (vsong' & a_s & b_s & Hvsong' & Ha_s & Hb_s & Hbs & _ & _).
  rewrite Hvsong in Hvsong'. symmetry in Hvsong'. simplify_eq.
  pose proof (built_range _ _ _ _ _ Hbs) as Hrs.
  pose proof Hbs as Hbs'. simpl in Hbs'. destruct Hbs' as (ts & sqs & -> & -> & _ & _).
  (* the cells of the playlist as the second world has them *)
  assert (∀ l, l < length h1 → heap w2 !! l = h1 !! l) as Hw2h1.
  { intros l ?. rewrite Hheap2, lookup_app_l by lia.
    rewrite Hpre2 by lia. rewrite Hheap1. by apply lookup_app_l. }
  assert (get (VRef lp) "songs" w2 = (Returned (VRef li), w2)) as Hget.
  { unfold get. rewrite Hw2h1 by lia. by rewrite Hlp, Hlookup. }
  assert (Array_includes (VRef li) (VRef ts) w2 = (Returned false, w2)) as Hinc.
  { assert (elements (VRef li) "includes" w2 = (Returned vitems, w2)) as Hel.
    { unfold elements. rewrite Hw2h1 by lia. by rewrite Hli. }
    unfold Array_includes. rewrite (bind_returned _ _ _ _ _ Hel).
    unfold mret, js_ret. do 2 f_equal. apply not_true_is_false. intros Hex.
    apply existsb_exists in Hex as (x & Hin & Heq).
    unfold strict_eq in Heq. apply bool_decide_eq_true in Heq. subst x.
    apply list_elem_of_In in Hin. apply (laid_out_refs_below _ _ _ _ _ _ Hitems) in Hin. lia. }
  assert (heap w2 !! li = Some (OArray vitems)) as Hli2.
  { rewrite Hw2h1 by lia. done. }
  set (H3 := <[li := OArray (vitems ++ [VRef ts])]> (heap w2)).
  set (w3 := set_heap H3 w2).
  assert (length H3 = S (length h2)) as HlenH3.
  { unfold H3. rewrite length_insert, Hheap2, length_app. simpl. lia. }
  assert (∀ l, l < length h1 → l ≠ li → H3 !! l = h1 !! l) as HH1.
  { intros l ? ?. unfold H3. rewrite list_lookup_insert_ne by done. by apply Hw2h1. }
  assert (H3 !! li = Some (OArray (vitems ++ [VRef ts]))) as HHli.
  { unfold H3. apply list_lookup_insert_eq. by eapply lookup_lt_Some. }
  assert (∀ l, S (length h1) ≤ l < length h2 → H3 !! l = h2 !! l) as HH2.
  { intros l ?. unfold H3. rewrite list_lookup_insert_ne by lia.
    rewrite Hheap2. apply lookup_app_l. lia. }
  assert (H3 !! length h1 = Some (OArray vs1)) as HHroot.
  { unfold H3. rewrite list_lookup_insert_ne by lia.
    rewrite Hheap2, lookup_app_l by lia. rewrite Hpre2 by lia.
    rewrite Hheap1. by apply list_lookup_middle. }
  (* the shape of the playlist after the push *)
  assert (∀ m, length h2 ≤ m + 2 →
            inspect (S (S m)) H3 (VRef lp)
            = Some (of_json (JObject (set_field_in "songs" (JArray (items ++ [JObject sps])) ps))))
    as Hshape.
  { intros m Hm. rewrite inspect_ref, HH1, Hlp by lia. rewrite Hset.
    cbn [of_json].
    assert (mapM (λ p, pair p.1 <$> inspect (S m) H3 p.2) qs
            = Some ((λ p, (p.1, of_json p.2)) <$>
                      (take jj ps ++ ("songs", JArray (items ++ [JObject sps])) :: drop (S jj) ps)))
      as ->; [|done].
    apply mapM_Some, Forall2_fmap_r.
    rewrite <- (take_drop_middle qs jj _ Hq).
    apply Forall2_app; [|constructor].
    - eapply laid_out_props_inspect; [exact Hpbefore| |lia].
      intros l ?. apply HH1; lia.
    - cbn [fst snd]. rewrite inspect_ref, HHli.
      assert (mapM (inspect m H3) (vitems ++ [VRef ts])
              = Some (of_json <$> (items ++ [JObject sps]))) as ->; [|done].
      apply mapM_Some, Forall2_fmap_r, Forall2_app; [|constructor; [|constructor]].
      + eapply laid_out_inspect; [exact Hitems| |lia]. intros l ?. apply HH1; lia.
      + eapply built_inspect; [|shelve].
        eapply built_agree; [exact Hbs|]. intros l ?. apply HH2. lia.
    - eapply laid_out_props_inspect; [exact Hpafter| |lia].
      intros l ?. apply HH1; lia. }
  Unshelve. 2: lia.
  assert (holds w3 (VRef (length h1))
            (of_json (JArray (<[i := JObject (set_field_in "songs"
                                (JArray (items ++ [JObject sps])) ps)]> pls)))) as Hroot.
  { unfold holds, w3. cbn [heap set_heap]. rewrite HlenH3, inspect_ref, HHroot.
    cbn [of_json].
    assert (mapM (inspect (length h2) H3) vs1
            = Some (of_json <$> <[i := JObject (set_field_in "songs"
                                   (JArray (items ++ [JObject sps])) ps)]> pls)) as ->; [|done].
    apply mapM_Some, Forall2_fmap_r.
    rewrite insert_take_drop by (by eapply lookup_lt_Some).
    rewrite <- (take_drop_middle vs1 i _ Hvp).
    apply Forall2_app; [|constructor].
    - eapply laid_out_inspect; [exact Hbefore| |lia]. intros l ?. apply HH1; lia.
    - destruct (length h2) as [|[|m]] eqn:Hh2; [lia..|]. apply Hshape. lia.
    - eapply laid_out_inspect; [exact Hafter| |lia]. intros l ?. apply HH1; lia. }
  assert (holds w3 (VRef lp)
            (of_json (JObject (set_field_in "songs" (JArray (items ++ [JObject sps])) ps))))
    as Hpl.
  { unfold holds, w3. cbn [heap set_heap]. rewrite HlenH3.
    destruct (length h2) as [|m] eqn:Hh2; [lia|]. apply Hshape. lia. }
  (* the run *)
  assert (add_song id (VString sid) w =
            (Returned {| status := 200; headers := [];
               body_of := Json (Some (JObject (set_field_in "songs"
                                        (JArray (items ++ [JObject sps])) ps))) |},
             set_files (<[PLAYLISTS_FILE := Document (JArray (<[i := JObject
               (set_field_in "songs" (JArray (items ++ [JObject sps])) ps)]> pls))]> (files w3)) w3))
    as ->.
  { unfold add_song.
    rewrite (bind_returned _ _ _ _ _ Hread1), (bind_returned _ _ _ _ _ Hfind1').
    cbn [truthy negb].
    rewrite (bind_returned _ _ _ _ _ Hread2), (bind_returned _ _ _ _ _ Hfind2').
    cbn [truthy negb].
    rewrite (bind_returned _ _ _ _ _ Hget), (bind_returned _ _ _ _ _ Hinc).
    cbn [negb].
    erewrite bind_returned.
    2:{ rewrite (bind_returned _ _ _ _ _ Hget). by apply Array_push_at. }
    fold H3. fold w3.
    rewrite (bind_returned _ _ _ _ _
               (writeJSON_run PLAYLISTS_FILE _ _ _ _ Hroot (toJSON_of_json _))).
    rewrite res_json_run with (s := of_json (JObject (set_field_in "songs"
                                        (JArray (items ++ [JObject sps])) ps))).
    - by rewrite toJSON_of_json.
    - done. }
  simpl. split; [done|]. by rewrite lookup_insert_eq.
Qed.

(** The playlist Mix lists Blue Skies and Blue Skies is added again: the
    answer and the playlists file list it twice. *)
Lemma add_song_appends_witness :
  (add_song "p1" (VString "s1") mix_world).1 =
    Returned {| status := 200; headers := [];
                body_of := Json (Some (mix [blue_skies; blue_skies])) |} ∧
  files (add_song "p1" (VString "s1") mix_world).2 !! PLAYLISTS_FILE =
    Some (Document (JArray [mix [blue_skies; blue_skies]])).
Proof.
  apply (add_song_appends "p1" "s1" mix_world [mix [blue_skies]] [blue_skies] [blue_skies]
           0 0 (mix [blue_skies]) blue_skies);
    try reflexivity; repeat constructor; discriminate.
Defined.

(** * Further properties *)

(** ** [getDriveClient] *)

Lemma JSON_parse_document d w :
  ∃ v h', JSON_parse (Some (Document d)) w = (Returned v, set_heap h' w) ∧
          (∃ k, h' = heap w ++ k) ∧ denotes h' v d.
Proof.
  simpl. destruct (reify d (heap w)) as [v h'] eqn:Hr.
  destruct (reify_spec d _ _ _ Hr) as (Hk & Hlen & Hi).
  exists v, h'. split; [done|]. split; [done|].
  exists (depth d). split; [lia|done].
Qed.

Lemma get_opt w v od k :
  denotes_opt (heap w) v od →
  if nullish od then ∃ e, get v k w = (Thrown e, w)
  else ∃ v', get v k w = (Returned v', w) ∧ denotes_opt (heap w) v' (od ≫= field k).
Proof.
  destruct od as [d|]; cbn [denotes_opt].
  - intros H. assert (d = JNull ∨ d ≠ JNull) as [->|Hd] by (destruct d; auto).
    + apply denotes_inv in H. subst. simpl. by eexists.
    + destruct (get_denotes w v d k H Hd) as (v' & Hget & Hv').
      assert (nullish (Some d) = false) as -> by (by destruct d).
      exists v'. split; [done|]. simpl. by destruct (field k d).
  - intros ->. simpl. by eexists.
Qed.

Lemma truthy_opt h v od :
  denotes_opt h v od → truthy v = match od with Some d => json_truthy d | None => false end.
Proof. destruct od; simpl; [apply denotes_truthy|by intros ->]. Qed.

Lemma get_index_opt w v od i :
  denotes_opt (heap w) v od →
  if nullish od then ∃ e, get_index v i w = (Thrown e, w)
  else ∃ v', get_index v i w = (Returned v', w).
Proof.
  destruct od as [d|]; cbn [denotes_opt].
  - intros H. apply denotes_inv in H. destruct d; simpl; subst; try by eexists.
    + destruct H as (l & vs & -> & Hl & _). unfold get_index. rewrite Hl. by eexists.
    + destruct H as (l & vs & -> & Hl & _). unfold get_index. rewrite Hl. by eexists.
  - intros ->. simpl. by eexists.
Qed.

Lemma Object_keys_denotes w v d :
  denotes (heap w) v d →
  if nullish (Some d) then ∃ e, Object_keys v w = (Thrown e, w)
  else Object_keys v w = (Returned (), w).
Proof.
  intros H. apply denotes_inv in H. destruct d; simpl; subst; try done.
  - by eexists.
  - by destruct H as (l & vs & -> & _).
  - by destruct H as (l & vs & -> & _).
Qed.

Ltac ret H := rewrite (bind_returned _ _ _ _ _ H).
Ltac thr H := rewrite (bind_thrown _ _ _ _ _ H).

Lemma getDriveClient_body sv w :
  let body := (credentials ← JSON_parse (CLIENT_SECRET_JSON sv);
     web ← get credentials "web";
     client_id ← get web "client_id";
     console_log "Credentials loaded:";;
     invalid ←
       (if negb (truthy web) then mret true
        else if negb (truthy client_id) then mret true
        else client_secret ← get web "client_secret"; mret (negb (truthy client_secret)));
     if invalid : bool then
       throw (Error "Invalid CLIENT_SECRET_JSON format")
     else
       redirect_uris ← get web "redirect_uris";
       get_index redirect_uris 0;;
       tokens ← JSON_parse (TOKEN_JSON sv);
       Object_keys tokens;;
       console_log "Tokens loaded:";;
       access_token ← get tokens "access_token";
       if negb (truthy access_token) then
         throw (Error "Invalid TOKEN_JSON: missing access_token")
       else mret ()) in
  if configured sv then ∃ w', body w = (Returned (), w')
  else ∃ e w', body w = (Thrown e, w').
Proof.
  intros body. subst body. unfold configured.
  destruct (CLIENT_SECRET_JSON sv) as [[ | |c]|]; try (by eexists _, _).
  destruct (JSON_parse_document c w) as (v & h1 & Hparse & _ & Hv). ret Hparse.
  set (w1 := set_heap h1 w).
  pose proof (get_opt w1 v (Some c) "web" Hv) as Hweb.
  destruct (nullish (Some c)) eqn:Hc.
  { destruct Hweb as (e & Hweb). thr Hweb.
    assert (usable_credentials c = false) as -> by (by destruct c).
    destruct (TOKEN_JSON sv) as [[]|]; by eexists _, _. }
  destruct Hweb as (web & Hweb & Hwebd). ret Hweb. simpl in Hwebd.
  pose proof (get_opt w1 web _ "client_id" Hwebd) as Hcid.
  unfold usable_credentials.
  destruct (field "web" c) as [webd|] eqn:Hfw; simpl in Hcid;
    [|destruct Hcid as (e & Hcid); thr Hcid; destruct (TOKEN_JSON sv) as [[]|]; by eexists _, _].
  assert (webd = JNull ∨ webd ≠ JNull) as [->|Hwn] by (destruct webd; auto).
  { destruct Hcid as (e & Hcid); thr Hcid. simpl.
    destruct (TOKEN_JSON sv) as [[]|]; by eexists _, _. }
  assert (nullish (Some webd) = false) as Hnw by (by destruct webd).
  simpl in Hnw. rewrite Hnw in Hcid.
  destruct Hcid as (cid & Hcid & Hcidd). ret Hcid.
  erewrite bind_returned by reflexivity.
  set (w2 := set_console _ w1).
  rewrite (truthy_opt _ _ _ Hwebd), (truthy_opt _ _ _ Hcidd).
  pose proof (get_opt w2 web (Some webd) "client_secret" Hwebd) as Hsec.
  simpl in Hsec. rewrite Hnw in Hsec. destruct Hsec as (sec & Hsec & Hsecd).
  assert (truthy sec = truthy_field "client_secret" webd) as Hsect
    by (rewrite (truthy_opt _ _ _ Hsecd); done).
  fold (truthy_field "client_id" webd).
  destruct (json_truthy webd) eqn:Hwt; simpl;
    [|assert (truthy_field "client_id" webd = false) as -> by (by destruct webd);
      simpl; destruct (TOKEN_JSON sv) as [[]|]; by eexists _, _].
  destruct (truthy_field "client_id" webd); simpl;
    [|destruct (TOKEN_JSON sv) as [[]|]; by eexists _, _].
  assert ((get web "client_secret" ≫= λ client_secret : value, mret (negb (truthy client_secret))) w2
          = (Returned (negb (truthy_field "client_secret" webd)), w2)) as Hinv.
  { ret Hsec. by rewrite <- Hsect. }
  ret Hinv.
  destruct (truthy_field "client_secret" webd); simpl;
    [|destruct (TOKEN_JSON sv) as [[]|]; by eexists _, _].
  pose proof (get_opt w2 web (Some webd) "redirect_uris" Hwebd) as Hru.
  simpl in Hru. rewrite Hnw in Hru. destruct Hru as (ru & Hru & Hrud). ret Hru.
  pose proof (get_index_opt w2 ru _ 0 Hrud) as Hix.
  destruct (nullish (field "redirect_uris" webd)); simpl.
  { destruct Hix as (e & Hix). thr Hix. destruct (TOKEN_JSON sv) as [[]|]; by eexists _, _. }
  destruct Hix as (u & Hix). ret Hix.
  destruct (TOKEN_JSON sv) as [[ | |t]|]; try (by eexists _, _).
  destruct (JSON_parse_document t w2) as (tv & h3 & Hparse3 & _ & Htv). ret Hparse3.
  set (w3 := set_heap h3 w2).
  pose proof (Object_keys_denotes w3 tv t Htv) as Hkeys.
  pose proof (get_opt (set_console (console w3 ++ [Log "Tokens loaded:"]) w3)
                tv (Some t) "access_token" Htv) as Hat.
  destruct (nullish (Some t)) eqn:Hnt.
  { destruct Hkeys as (e & Hkeys). thr Hkeys.
    assert (t = JNull) as -> by (by destruct t). simpl. by eexists _, _. }
  ret Hkeys. erewrite bind_returned by reflexivity.
  destruct Hat as (at_ & Hat & Hatd). ret Hat.
  rewrite (truthy_opt _ _ _ Hatd). unfold truthy_field. simpl.
  destruct (field "access_token" t) as [d|]; [destruct (json_truthy d)|]; simpl;
    first [by eexists _, _|by eexists].
Qed.

(** Whether the client is built depends on the two environment variables
    alone. *)
Lemma getDriveClient_run sv w :
  if configured sv then ∃ w', getDriveClient sv w = (Returned (), w')
  else ∃ e w', getDriveClient sv w = (Thrown e, w').
Proof.
  pose proof (getDriveClient_body sv w) as H. cbv zeta in H. unfold getDriveClient.
  destruct (configured sv).
  - destruct H as (w' & H). exists w'. by rewrite (try_returned _ _ _ _ _ H).
  - destruct H as (e & w' & H). rewrite (try_thrown _ _ _ _ _ H). by eexists _, _.
Qed.


(** X1. [getDriveClient] builds the client exactly when both environment
    variables hold JSON, the credentials carry a [web] object with a
    truthy [client_id] and [client_secret] and a [redirect_uris] that is
    neither absent nor [null], and the tokens carry a truthy
    [access_token]; in every other case it throws. *)
Theorem getDriveClient_accepts (sv : services) (w : world) :
  ((getDriveClient sv w).1 = Returned () ↔ configured sv = true) ∧
  ((∃ e, (getDriveClient sv w).1 = Thrown e) ↔ configured sv = false).
Proof.
  pose proof (getDriveClient_run sv w) as H.
  destruct (configured sv).
  - destruct H as (w' & ->). simpl. split; split; try done. by intros [e ?].
  - destruct H as (e & w' & ->). simpl. split; split; try done. by exists e.
Qed.

Lemma getDriveClient_accepts_witness :
  (getDriveClient drive_refuses empty_world).1 = Returned () ∧
  ∃ e, (getDriveClient offline empty_world).1 = Thrown e.
Proof.
  split.
  - apply (getDriveClient_accepts drive_refuses empty_world). reflexivity.
  - apply (getDriveClient_accepts offline empty_world). reflexivity.
Defined.

(** X2. A failure of [getDriveClient] is logged and thrown again: the
    exception that reaches the caller is the one whose message is the
    last line of the console, and neither a file nor a Drive object has
    changed. *)
Theorem getDriveClient_logs_failure (sv : services) (w : world) (e : exn) :
  (getDriveClient sv w).1 = Thrown e →
  (∃ before, console w `prefix_of` before ∧
     console (getDriveClient sv w).2 =
       before ++ [Err ("Error setting up Drive client: " +:+ message e)]) ∧
  files (getDriveClient sv w).2 = files w ∧
  drive (getDriveClient sv w).2 = drive w.
Proof.
  intros He. destruct (quiet_getDriveClient sv w) as (Hf & Hd & _).
  split; [|done]. clear Hf Hd. revert He. unfold getDriveClient.
  match goal with |- context [try_catch ?b _] => set (body := b) end.
  assert (quiet body) as Hq by (subst body; repeat quiet_step).
  destruct (Hq w) as (_ & _ & Hpre).
  unfold try_catch. destruct (body w) as [[[]|e'] w1]; simpl; [done|].
  intros [= ->]. by exists (console w1).
Qed.

Lemma getDriveClient_logs_failure_witness :
  (∃ before, console empty_world `prefix_of` before ∧
     console (getDriveClient offline empty_world).2 =
       before ++ [Err ("Error setting up Drive client: " +:+
                       message (SyntaxError "undefined is not valid JSON"))]) ∧
  files (getDriveClient offline empty_world).2 = files empty_world ∧
  drive (getDriveClient offline empty_world).2 = drive empty_world.
Proof.
  exact (getDriveClient_logs_failure offline empty_world
           (SyntaxError "undefined is not valid JSON") eq_refl).
Defined.

(** ** The catalog store and the routes that list it *)

Lemma denotes_new_array h : denotes (h ++ [OArray []]) (VRef (length h)) (JArray []).
Proof.
  exists 1. split; [rewrite length_app; simpl; lia|].
  cbn [inspect of_json]. by rewrite lookup_app_r, Nat.sub_diag.
Qed.

Lemma stored_read_back c ds : stored c ds → read_back c = JArray ds.
Proof. destruct c as [[]|]; simpl; congruence. Qed.

(** A read returns, whatever the file holds, and leaves the file holding
    the document it returned. *)
Lemma readJSON_any f w :
  ∃ v w1,
    readJSON f w = (Returned v, w1) ∧
    denotes (heap w1) v (read_back (files w !! f)) ∧
    (∃ k, heap w1 = heap w ++ k) ∧
    files w1 = <[f := Document (read_back (files w !! f))]> (files w) ∧
    drive w1 = drive w ∧
    console w `prefix_of` console w1.
Proof.
  destruct (files w !! f) as [[ | |d]|] eqn:Hf; simpl.
  - eexists _, _. split; [by apply readJSON_blank|]. simpl.
    repeat split; try done. + apply denotes_new_array. + by eexists.
  - eexists _, _. split; [by apply readJSON_invalid|]. simpl.
    repeat split; try done. + apply denotes_new_array. + by eexists. + by apply prefix_app_r.
  - eexists _, _. split; [by apply readJSON_document|]. simpl.
    destruct (reify d (heap w)) as [v h'] eqn:Hr. simpl.
    destruct (reify_spec d _ _ _ Hr) as (Hk & Hlen & Hi).
    repeat split; try done.
    + exists (depth d). split; [lia|done].
    + by rewrite insert_id.
  - eexists _, _. split; [by apply readJSON_absent|]. simpl.
    repeat split; try done. + apply denotes_new_array. + by eexists.
Qed.

(** X3. Whatever a backing file holds, a read returns without throwing;
    afterwards the file holds the document that was returned (the empty
    collection when the file was absent, blank or rejected), no other file
    and no Drive object has changed, and a second read returns the same
    document and leaves the disk as it is. *)
Theorem readJSON_settles (f : file) (w : world) :
  ∃ v1 w1 v2 w2,
    readJSON f w = (Returned v1, w1) ∧
    holds w1 v1 (of_json (read_back (files w !! f))) ∧
    files w1 = <[f := Document (read_back (files w !! f))]> (files w) ∧
    drive w1 = drive w ∧
    readJSON f w1 = (Returned v2, w2) ∧
    holds w2 v2 (of_json (read_back (files w !! f))) ∧
    files w2 = files w1.
Proof.
  destruct (readJSON_any f w) as (v1 & w1 & Hr1 & Hv1 & _ & Hf1 & Hd1 & _).
  destruct (readJSON_any f w1) as (v2 & w2 & Hr2 & Hv2 & _ & Hf2 & _).
  rewrite Hf1, lookup_insert_eq in Hv2, Hf2. simpl in Hv2, Hf2.
  exists v1, w1, v2, w2. repeat split; try done.
  - by apply denotes_holds.
  - by apply denotes_holds.
  - by rewrite Hf2, Hf1, insert_insert_eq.
Qed.

Lemma read_and_reply f w :
  ∃ w', (playlists ← readJSON f; res_json playlists) w =
          (Returned {| status := 200; headers := [];
                       body_of := Json (Some (read_back (files w !! f))) |}, w') ∧
        files w' = <[f := Document (read_back (files w !! f))]> (files w) ∧
        drive w' = drive w.
Proof.
  destruct (readJSON_any f w) as (v & w1 & Hr & Hv & _ & Hf & Hd & _).
  exists w1. rewrite (bind_returned _ _ _ _ _ Hr). split; [|done].
  by apply res_json_denotes.
Qed.

(** X4. GET /songs and GET /playlist answer 200 with the document the
    backing file holds, as it is and in its order, and with the empty
    collection when the file is absent, blank or rejected; the file read
    is left holding what was answered and nothing else changes. *)
Theorem list_routes_answer (w : world) :
  ((list_songs w).1 =
     Returned {| status := 200; headers := [];
                 body_of := Json (Some (read_back (files w !! SONGS_FILE))) |} ∧
   files (list_songs w).2 =
     <[SONGS_FILE := Document (read_back (files w !! SONGS_FILE))]> (files w) ∧
   drive (list_songs w).2 = drive w) ∧
  ((list_playlists w).1 =
     Returned {| status := 200; headers := [];
                 body_of := Json (Some (read_back (files w !! PLAYLISTS_FILE))) |} ∧
   files (list_playlists w).2 =
     <[PLAYLISTS_FILE := Document (read_back (files w !! PLAYLISTS_FILE))]> (files w) ∧
   drive (list_playlists w).2 = drive w).
Proof.
  split.
  - destruct (read_and_reply SONGS_FILE w) as (w' & H & ? & ?).
    unfold list_songs. by rewrite H.
  - destruct (read_and_reply PLAYLISTS_FILE w) as (w' & H & ? & ?).
    unfold list_playlists. by rewrite H.
Qed.

Lemma array_find_denotes w h1 vs ds id :
  heap w = h1 ++ [OArray vs] →
  Forall2 (denotes h1) vs ds →
  Forall (λ d, d ≠ JNull) ds →
  ∃ r, Array_find (VRef (length h1)) (has_id (VString id)) w = (Returned r, w) ∧
       match List.find (has_json_id id) ds with
       | Some d => denotes (heap w) r d
       | None => r = VUndefined
       end.
Proof.
  intros Hheap Hvs Hnn.
  assert (Forall2 (denotes (heap w)) vs ds) as Hvs1.
  { rewrite Hheap. eapply Forall2_impl; [exact Hvs|]. intros. by apply denotes_app. }
  destruct (find_first_denotes w id vs ds Hvs1 Hnn) as (r & Hfind & Hr).
  exists r. split; [|done].
  assert (elements (VRef (length h1)) "find" w = (Returned vs, w)) as Hel.
  { unfold elements. by rewrite Hheap, lookup_app_r, Nat.sub_diag. }
  unfold Array_find. by ret Hel.
Qed.

Lemma find_app_None {A} (p : A → bool) l1 l2 :
  List.find p l1 = None → List.find p (l1 ++ l2) = List.find p l2.
Proof.
  induction l1 as [|a l1 IH]; [done|]. simpl. destruct (p a); [done|]. exact IH.
Qed.

(** ** POST /upload: every way out *)

Lemma configured_client sv w : configured sv = true → (getDriveClient sv w).1 = Returned ().
Proof.
  intros H. pose proof (getDriveClient_run sv w) as Hr. rewrite H in Hr.
  by destruct Hr as (w' & ->).
Qed.

Lemma upload_without_client sv f w :
  configured sv = false →
  ∃ w', upload sv (Some f) w
          = (Returned (error_reply 500 "Failed to initialize Google Drive"), w') ∧
        files w' = delete (UPLOAD_DIR (filename f)) (files w) ∧
        drive w' = drive w.
Proof.
  intros Hc.
  cut ((upload sv (Some f) w).1
         = Returned (error_reply 500 "Failed to initialize Google Drive") ∧
       files (upload sv (Some f) w).2 = delete (UPLOAD_DIR (filename f)) (files w) ∧
       drive (upload sv (Some f) w).2 = drive w).
  { destruct (upload sv (Some f) w) as [r w']. simpl. intros (-> & ? & ?). by exists w'. }
  pose proof (getDriveClient_run sv w) as Hr. rewrite Hc in Hr.
  destruct Hr as (e & w1 & Hg).
  destruct (quiet_getDriveClient sv w) as (Hf1 & Hd1 & _). rewrite Hg in Hf1, Hd1.
  simpl in Hf1, Hd1. set (p := UPLOAD_DIR (filename f)).
  destruct (delete_temp_run p (set_console
      (console w1 ++ [Err ("Failed to initialize Drive client: " +:+ message e)]) w1))
    as (w2 & Hdel & Hf2 & Hd2 & _).
  unfold upload. fold p.
  match goal with |- ((?m ≫= ?k) w).1 = _ ∧ _ =>
    assert (m w = (Returned (Some (error_reply 500 "Failed to initialize Google Drive")), w2))
      as Hfirst end.
  { erewrite try_thrown; [|by erewrite bind_thrown].
    erewrite bind_returned by reflexivity.
    by erewrite bind_returned by exact Hdel. }
  rewrite (bind_returned _ _ _ _ _ Hfirst). simpl.
  split; [done|]. split; [by rewrite Hf2, <- Hf1|by rewrite Hd2, <- Hd1].
Qed.

(** X5. When the Drive client cannot be built the upload is answered 500
    "Failed to initialize Google Drive": the staged file is deleted, every
    other file is as it was, and nothing is created on Drive. *)
Theorem upload_client_failure (sv : services) (f : multer_file) (w : world) :
  configured sv = false →
  (upload sv (Some f) w).1 = Returned (error_reply 500 "Failed to initialize Google Drive") ∧
  files (upload sv (Some f) w).2 = delete (UPLOAD_DIR (filename f)) (files w) ∧
  drive (upload sv (Some f) w).2 = drive w.
Proof.
  intros Hc. by destruct (upload_without_client sv f w Hc) as (w' & -> & ? & ?).
Qed.

Lemma upload_client_failure_witness :
  (upload offline (Some take_five) staged_world).1 =
    Returned (error_reply 500 "Failed to initialize Google Drive") ∧
  files (upload offline (Some take_five) staged_world).2 =
    delete (UPLOAD_DIR (filename take_five)) (files staged_world) ∧
  drive (upload offline (Some take_five) staged_world).2 = drive staged_world.
Proof. exact (upload_client_failure offline take_five staged_world eq_refl). Defined.

Lemma upload_unshared sv f w id msg :
  configured sv = true →
  files_create sv (filename f) (mimetype f) = Resolved id →
  permissions_create sv id = Rejected msg →
  ∃ w', upload sv (Some f) w
          = (Returned (error_reply 500 "Failed to upload to Google Drive"), w') ∧
        files w' = delete (UPLOAD_DIR (filename f)) (files w) ∧
        drive w' = drive w ++ [uploaded_object f id].
Proof.
  intros Hc Hcreate Hshare.
  cut ((upload sv (Some f) w).1
         = Returned (error_reply 500 "Failed to upload to Google Drive") ∧
       files (upload sv (Some f) w).2 = delete (UPLOAD_DIR (filename f)) (files w) ∧
       drive (upload sv (Some f) w).2 = drive w ++ [uploaded_object f id]).
  { destruct (upload sv (Some f) w) as [r w']. simpl. intros (-> & ? & ?). by exists w'. }
  set (p := UPLOAD_DIR (filename f)).
  destruct (upload_client_ok sv f w (configured_client sv w Hc))
    as (w1 & m & w2 & Hg & He & _ & Hf2 & Hd2).
  fold p in He.
  pose proof (upload_to_drive_run sv f p w2) as Hup. rewrite Hcreate, Hshare in Hup.
  destruct Hup as (w3 & Hup & Hf3 & Hd3 & _).
  unfold upload. fold p.
  erewrite bind_returned; [|by erewrite try_returned; [|by erewrite bind_returned]].
  cbn beta iota. rewrite (bind_returned _ _ _ _ _ He).
  rewrite (bind_returned _ _ _ _ _ Hup). simpl.
  split; [done|]. split; [by rewrite Hf3, Hf2|by rewrite Hd3, Hd2].
Qed.

(** X6. When Drive accepts the file and then refuses to share it, the
    upload is answered 500 and no record is written, yet the object stays
    on Drive, private: the handler deletes the staged file and nothing
    else. *)
Theorem upload_sharing_failure (sv : services) (f : multer_file) (w : world)
    (id msg : string) :
  configured sv = true →
  files_create sv (filename f) (mimetype f) = Resolved id →
  permissions_create sv id = Rejected msg →
  (upload sv (Some f) w).1 = Returned (error_reply 500 "Failed to upload to Google Drive") ∧
  files (upload sv (Some f) w).2 = delete (UPLOAD_DIR (filename f)) (files w) ∧
  drive (upload sv (Some f) w).2 = drive w ++ [uploaded_object f id].
Proof.
  intros Hc Hcreate Hshare.
  by destruct (upload_unshared sv f w id msg Hc Hcreate Hshare) as (w' & -> & ? & ?).
Qed.

Lemma upload_sharing_failure_witness :
  (upload sharing_refused (Some take_five) staged_world).1 =
    Returned (error_reply 500 "Failed to upload to Google Drive") ∧
  files (upload sharing_refused (Some take_five) staged_world).2 =
    delete (UPLOAD_DIR (filename take_five)) (files staged_world) ∧
  drive (upload sharing_refused (Some take_five) staged_world).2 =
    drive staged_world ++ [uploaded_object take_five "drive-1"].
Proof.
  exact (upload_sharing_failure sharing_refused take_five staged_world
           "drive-1" "insufficient permissions" eq_refl eq_refl eq_refl).
Defined.

Lemma song_document_handles sv title artist album genre duration albumArt lyrics id :
  string_field "id"
    (song_document sv title artist album genre duration albumArt lyrics id)
    = Some (uuidv4 sv) ∧
  string_field "driveFileId"
    (song_document sv title artist album genre duration albumArt lyrics id) = Some id ∧
  string_field "createdAt"
    (song_document sv title artist album genre duration albumArt lyrics id)
    = Some (now sv).
Proof.
  unfold song_document, song_props, string_field, field.
  cbn [omap list_omap fst snd fmap option_fmap option_map prim_json].
  destruct (prim_json genre), (prim_json albumArt), (prim_json lyrics); done.
Qed.

(** X7. A successful upload leaves exactly this behind: the record that
    is answered is appended to the songs file, it carries the identifier
    drawn for it, the Drive handle and the creation instant as a string;
    Drive holds one more object, named after the staged file and readable
    by anyone; the staged file is gone and no other file has changed. *)
Theorem upload_catalogues (sv : services) (f : multer_file) (w : world)
    (ds : list json) (id : string) :
  configured sv = true →
  files_create sv (filename f) (mimetype f) = Resolved id →
  permissions_create sv id = Resolved () →
  stored (files w !! SONGS_FILE) ds →
  ∃ song,
    (upload sv (Some f) w).1 =
      Returned {| status := 200; headers := []; body_of := Json (Some song) |} ∧
    files (upload sv (Some f) w).2 =
      <[SONGS_FILE := Document (JArray (ds ++ [song]))]>
        (delete (UPLOAD_DIR (filename f)) (files w)) ∧
    drive (upload sv (Some f) w).2 = (publish id <$> drive w) ++ [shared_object f id] ∧
    string_field "id" song = Some (uuidv4 sv) ∧
    string_field "driveFileId" song = Some id ∧
    string_field "createdAt" song = Some (now sv).
Proof.
  intros Hc Hcreate Hshare Hst.
  destruct (upload_success sv f w ds id (configured_client sv w Hc) Hcreate Hshare Hst)
    as (w' & Hup & Hf & Hd).
  exists (uploaded_song sv f id). rewrite Hup. simpl.
  split; [done|]. split; [done|]. split.
  - rewrite Hd, fmap_app. simpl. unfold publish at 2. simpl.
    by rewrite bool_decide_eq_true_2.
  - apply song_document_handles.
Qed.

Lemma upload_catalogues_witness :
  ∃ song,
    (upload untagged (Some take_five) staged_world).1 =
      Returned {| status := 200; headers := []; body_of := Json (Some song) |} ∧
    files (upload untagged (Some take_five) staged_world).2 =
      <[SONGS_FILE := Document (JArray ([blue_skies] ++ [song]))]>
        (delete (UPLOAD_DIR (filename take_five)) (files staged_world)) ∧
    drive (upload untagged (Some take_five) staged_world).2 =
      (publish "drive-1" <$> drive staged_world) ++ [shared_object take_five "drive-1"] ∧
    string_field "id" song = Some (uuidv4 untagged) ∧
    string_field "driveFileId" song = Some "drive-1" ∧
    string_field "createdAt" song = Some (now untagged).
Proof.
  exact (upload_catalogues untagged take_five staged_world [blue_skies] "drive-1"
           eq_refl eq_refl eq_refl eq_refl).
Defined.

Lemma song_document_no_genre sv title artist album duration albumArt lyrics id :
  field "genre"
    (song_document sv title artist album VUndefined duration albumArt lyrics id) = None.
Proof.
  unfold song_document, song_props, field.
  cbn [omap list_omap fst snd fmap option_fmap option_map prim_json].
  destruct (prim_json albumArt), (prim_json lyrics); reflexivity.
Qed.

Lemma uploaded_genre_tagged sv f id :
  (∀ g gs, tag_genre (tags_of sv f) = Some (g :: gs) →
     string_field "genre" (uploaded_song sv f id) = Some (default g (reported_genre sv f))) ∧
  (tag_genre (tags_of sv f) = Some [] →
     field "genre" (uploaded_song sv f id) = JString <$> reported_genre sv f).
Proof.
  split.
  - intros g gs Hg. unfold uploaded_song, reported_genre, mb_result, basic_genre. rewrite Hg.
    destruct (enriches _ _); [|done].
    destruct (mb_search sv _ _) as [[|r rs]|]; try done.
    destruct (mb_lookup sv r) as [[rels [|g' gs']]|]; done.
  - intros Hg. unfold uploaded_song, reported_genre, mb_result, basic_genre. rewrite Hg.
    destruct (enriches _ _); [|apply song_document_no_genre].
    destruct (mb_search sv _ _) as [[|r rs]|]; try apply song_document_no_genre.
    destruct (mb_lookup sv r) as [[rels [|g' gs']]|];
      first [apply song_document_no_genre|reflexivity].
Qed.

(** X8. The genre of a tagged file.  On a successful upload the record
    takes the first genre of the tags, unless the MusicBrainz lookup
    reports one, which then stands.  Tags with an empty list of genres do
    not fall back to "Unknown": the record has no genre at all unless the
    lookup reports one. *)
Theorem upload_tagged_genre (sv : services) (f : multer_file) (w : world)
    (ds : list json) (id : string) :
  configured sv = true →
  files_create sv (filename f) (mimetype f) = Resolved id →
  permissions_create sv id = Resolved () →
  stored (files w !! SONGS_FILE) ds →
  ∃ song,
    (upload sv (Some f) w).1 =
      Returned {| status := 200; headers := []; body_of := Json (Some song) |} ∧
    (∀ g gs, tag_genre (tags_of sv f) = Some (g :: gs) →
       string_field "genre" song = Some (default g (reported_genre sv f))) ∧
    (tag_genre (tags_of sv f) = Some [] →
       field "genre" song = JString <$> reported_genre sv f).
Proof.
  intros Hc Hcreate Hshare Hst.
  destruct (upload_success sv f w ds id (configured_client sv w Hc) Hcreate Hshare Hst)
    as (w' & Hup & _).
  exists (uploaded_song sv f id). rewrite Hup. split; [done|].
  apply uploaded_genre_tagged.
Qed.

Lemma upload_tagged_genre_witness :
  (∃ song,
    (upload genreless (Some take_five) staged_world).1 =
      Returned {| status := 200; headers := []; body_of := Json (Some song) |} ∧
    field "genre" song = None) ∧
  tag_genre (tags_of genreless take_five) = Some [].
Proof.
  split; [|reflexivity].
  destruct (upload_tagged_genre genreless take_five staged_world [blue_skies] "drive-1"
              eq_refl eq_refl eq_refl eq_refl) as (song & Hup & _ & Hempty).
  exists song. split; [exact Hup|]. exact (Hempty eq_refl).
Defined.

Lemma upload_refused sv f w msg :
  configured sv = true →
  files_create sv (filename f) (mimetype f) = Rejected msg →
  ∃ w', upload sv (Some f) w
          = (Returned (error_reply 500 "Failed to upload to Google Drive"), w') ∧
        files w' = delete (UPLOAD_DIR (filename f)) (files w) ∧
        drive w' = drive w.
Proof.
  intros Hc Hcreate.
  cut ((upload sv (Some f) w).1
         = Returned (error_reply 500 "Failed to upload to Google Drive") ∧
       files (upload sv (Some f) w).2 = delete (UPLOAD_DIR (filename f)) (files w) ∧
       drive (upload sv (Some f) w).2 = drive w).
  { destruct (upload sv (Some f) w) as [r w']. simpl. intros (-> & ? & ?). by exists w'. }
  set (p := UPLOAD_DIR (filename f)).
  destruct (upload_client_ok sv f w (configured_client sv w Hc))
    as (w1 & m & w2 & Hg & He & _ & Hf2 & Hd2).
  fold p in He.
  pose proof (upload_to_drive_run sv f p w2) as Hup. rewrite Hcreate in Hup.
  destruct Hup as (w3 & Hup & Hf3 & Hd3 & _).
  unfold upload. fold p.
  erewrite bind_returned; [|by erewrite try_returned; [|by erewrite bind_returned]].
  cbn beta iota. rewrite (bind_returned _ _ _ _ _ He).
  rewrite (bind_returned _ _ _ _ _ Hup). simpl.
  split; [done|]. split; [by rewrite Hf3, Hf2|by rewrite Hd3, Hd2].
Qed.

(** X9. Over a stored collection an upload that carries a file is always
    answered, with 200 or with 500, and never throws.  It is answered 200
    exactly when the Drive client is built, Drive accepts the file and
    Drive shares it; what MusicBrainz, LRCLIB and the tag reader do has no
    part in it. *)
Theorem upload_always_answers (sv : services) (f : multer_file) (w : world)
    (ds : list json) :
  stored (files w !! SONGS_FILE) ds →
  ∃ r,
    (upload sv (Some f) w).1 = Returned r ∧
    (status r = 200 ∨ status r = 500) ∧
    (status r = 200 ↔
       configured sv = true ∧
       ∃ id, files_create sv (filename f) (mimetype f) = Resolved id ∧
             permissions_create sv id = Resolved ()).
Proof.
  intros Hst. destruct (configured sv) eqn:Hc.
  - destruct (files_create sv (filename f) (mimetype f)) as [id|msg] eqn:Hcreate.
    + destruct (permissions_create sv id) as [[]|msg] eqn:Hshare.
      * destruct (upload_success sv f w ds id (configured_client sv w Hc) Hcreate Hshare Hst)
          as (w' & -> & _).
        eexists. split; [done|]. simpl. split; [by left|].
        split; [|done]. intros _. split; [done|]. by exists id.
      * destruct (upload_unshared sv f w id msg Hc Hcreate Hshare) as (w' & -> & _).
        eexists. split; [done|]. simpl. split; [by right|].
        split; [done|]. intros (_ & id' & [= <-] & Hs). congruence.
    + destruct (upload_refused sv f w msg Hc Hcreate) as (w' & -> & _).
      eexists. split; [done|]. simpl. split; [by right|].
      split; [done|]. by intros (_ & id' & ? & _).
  - destruct (upload_without_client sv f w Hc) as (w' & -> & _).
    eexists. split; [done|]. simpl. split; [by right|].
    split; [done|]. by intros [? _].
Qed.

Lemma upload_always_answers_witness :
  ∃ r,
    (upload enriching (Some take_five) staged_world).1 = Returned r ∧
    (status r = 200 ∨ status r = 500) ∧
    (status r = 200 ↔
       configured enriching = true ∧
       ∃ id, files_create enriching (filename take_five) (mimetype take_five) = Resolved id ∧
             permissions_create enriching id = Resolved ()).
Proof. exact (upload_always_answers enriching take_five staged_world [blue_skies] eq_refl). Defined.





Lemma push_not_an_array w v d x :
  denotes (heap w) v d → not_an_array d →
  ∃ msg, Array_push v x w = (Thrown (TypeError msg), w).
Proof.
  intros Hv Hd. apply denotes_inv in Hv.
  assert (∃ msg, elements v "push" w = (Thrown (TypeError msg), w)) as (msg & Hel).
  { unfold elements. destruct d; try done; subst; try by eexists.
    destruct Hv as (l & qs & -> & Hl & _). rewrite Hl. by eexists. }
  exists msg. unfold Array_push. by thr Hel.
Qed.

Lemma save_song_not_an_array sv title artist album genre duration albumArt lyrics id w d :
  files w !! SONGS_FILE = Some (Document d) → not_an_array d →
  ∃ msg w',
    save_song sv title artist album genre duration albumArt lyrics id w
      = (Thrown (TypeError msg), w') ∧
    files w' = files w ∧ drive w' = drive w.
Proof.
  intros Hf Hd.
  destruct (readJSON_any SONGS_FILE w) as (v & w1 & Hread & Hv & _ & Hf1 & Hd1 & _).
  rewrite Hf in Hv, Hf1. simpl in Hv, Hf1. rewrite insert_id in Hf1 by done.
  unfold save_song. ret Hread.
  erewrite bind_returned by reflexivity.
  erewrite bind_returned by reflexivity.
  erewrite bind_returned by reflexivity.
  match goal with |- ∃ _ _, (Array_push v ?x ≫= ?k) ?W = _ ∧ _ =>
    destruct (push_not_an_array W v d x) as (msg & Hpush);
      [simpl; by do 2 apply denotes_app|done|];
    exists msg, W; rewrite (bind_thrown _ _ _ _ _ Hpush) end.
  by simpl.
Qed.

Lemma after_cleanup_not_an_array sv title artist album genre duration id w d :
  files w !! SONGS_FILE = Some (Document d) → not_an_array d →
  ∃ msg w',
    after_cleanup sv title artist album genre duration id w = (Thrown (TypeError msg), w') ∧
    files w' = files w ∧ drive w' = drive w.
Proof.
  intros Hf Hd. unfold after_cleanup.
  match goal with |- ∃ _ _, (?m ≫= ?k) w = _ ∧ _ =>
    assert (∃ r w1, m w = (Returned r, w1) ∧ files w1 = files w ∧ drive w1 = drive w)
      as (r & w1 & Hm & Hf1 & Hd1) end.
  { destruct (Str.nonempty title && negb (bool_decide (artist = "Unknown"))).
    - pose proof (musicbrainz_run sv title artist genre w) as Hmb.
      destruct (quiet_musicbrainz sv title artist genre w) as (Hf1 & Hd1 & _).
      destruct (musicbrainz sv title artist genre w) as [r1 w1] eqn:Hm1.
      simpl in Hmb, Hf1, Hd1. subst r1.
      pose proof (lrclib_run sv title artist w1) as Hlr.
      destruct (quiet_lrclib sv title artist w1) as (Hf2 & Hd2 & _).
      destruct (lrclib sv title artist w1) as [r2 w2] eqn:Hl2. simpl in Hlr, Hf2, Hd2. subst r2.
      eexists _, w2. split; [|split; congruence].
      ret Hm1. by ret Hl2.
    - by eexists _, w. }
  ret Hm. rewrite <- Hf1 in Hf.
  destruct (save_song_not_an_array sv title artist album r.1.2 duration r.1.1 r.2 id w1 d Hf Hd)
    as (msg & w' & Hs & Hf' & Hd').
  exists msg, w'. split; [done|]. split; congruence.
Qed.

(** X11. A songs file that holds valid JSON which is not an array is not
    reset by the read, and an upload into it is lost: the file is stored
    on Drive and shared, the staged file is deleted, and then the handler
    throws a TypeError instead of answering; the songs file is left as it
    was, so no record refers to the object on Drive. *)
Theorem upload_into_misfiled_catalog (sv : services) (f : multer_file) (w : world)
    (d : json) (id : string) :
  configured sv = true →
  files_create sv (filename f) (mimetype f) = Resolved id →
  permissions_create sv id = Resolved () →
  files w !! SONGS_FILE = Some (Document d) → not_an_array d →
  (∃ msg, (upload sv (Some f) w).1 = Thrown (TypeError msg)) ∧
  files (upload sv (Some f) w).2 = delete (UPLOAD_DIR (filename f)) (files w) ∧
  drive (upload sv (Some f) w).2 = (publish id <$> drive w) ++ [shared_object f id].
Proof.
  intros Hc Hcreate Hshare Hf Hd. set (p := UPLOAD_DIR (filename f)).
  destruct (upload_client_ok sv f w (configured_client sv w Hc))
    as (w1 & m & w2 & Hg & He & Hm & Hf2 & Hd2).
  fold p in He, Hm. fold (extracted sv f) in Hm. subst m.
  pose proof (upload_to_drive_run sv f p w2) as Hup. rewrite Hcreate, Hshare in Hup.
  destruct Hup as (w3 & Hup & Hf3 & Hd3).
  destruct (delete_temp_run p w3) as (w4 & Hdel & Hf4 & Hd4 & _).
  assert (files w4 !! SONGS_FILE = Some (Document d)) as Hf4'.
  { by rewrite Hf4, Hf3, Hf2, lookup_delete_ne. }
  destruct (after_cleanup_not_an_array sv (basic_title (tags_of sv f) f)
              (basic_artist (tags_of sv f)) (basic_album (tags_of sv f))
              (basic_genre (tags_of sv f)) (basic_duration (extracted sv f)) id w4 d Hf4' Hd)
    as (msg & w' & Hrest & Hf' & Hd').
  assert (upload sv (Some f) w = (Thrown (TypeError msg), w')) as ->.
  { unfold upload. fold p.
    erewrite bind_returned; [|by erewrite try_returned; [|by erewrite bind_returned]].
    cbn beta iota. rewrite (bind_returned _ _ _ _ _ He).
    rewrite (bind_returned _ _ _ _ _ Hup). rewrite (bind_returned _ _ _ _ _ Hdel).
    exact Hrest. }
  simpl. split; [by exists msg|]. split.
  - by rewrite Hf', Hf4, Hf3, Hf2.
  - rewrite Hd', Hd4, Hd3, Hd2, fmap_app. simpl. unfold publish at 2. simpl.
    by rewrite bool_decide_eq_true_2.
Qed.

Lemma upload_into_misfiled_catalog_witness :
  (∃ msg, (upload untagged (Some take_five) misfiled_world).1 = Thrown (TypeError msg)) ∧
  files (upload untagged (Some take_five) misfiled_world).2
    = delete (UPLOAD_DIR (filename take_five)) (files misfiled_world) ∧
  drive (upload untagged (Some take_five) misfiled_world).2
    = (publish "drive-1" <$> drive misfiled_world) ++ [shared_object take_five "drive-1"].
Proof.
  exact (upload_into_misfiled_catalog untagged take_five misfiled_world
           (JObject [("songs", JArray [])]) "drive-1" eq_refl eq_refl eq_refl eq_refl I).
Defined.

Lemma scan_step_plain i c st :
  plain_char c →
  Path.scan_step i c st =
    inr (let st1 :=
           if (Path.end_ st =? -1)%Z then
             {| Path.startDot := Path.startDot st; Path.startPart := Path.startPart st;
                Path.end_ := i + 1; Path.matchedSlash := false;
                Path.preDotState := Path.preDotState st |}
           else st in
         if negb (Path.startDot st1 =? -1)%Z then
           {| Path.startDot := Path.startDot st1; Path.startPart := Path.startPart st1;
              Path.end_ := Path.end_ st1; Path.matchedSlash := Path.matchedSlash st1;
              Path.preDotState := -1 |}
         else st1).
Proof.
  intros [Hdot Hslash]. unfold Path.scan_step.
  rewrite (bool_decide_eq_false_2 _ Hslash), (bool_decide_eq_false_2 _ Hdot).
  cbv zeta. by destruct (negb _).
Qed.

(** The part of the scan that runs over the characters of the extension:
    no dot has been seen. *)
Lemma scan_before_dot l rest i e :
  Forall plain_char l → e ≠ (-1)%Z →
  Path.scan_loop (l ++ rest) i
    {| Path.startDot := -1; Path.startPart := 0; Path.end_ := e;
       Path.matchedSlash := false; Path.preDotState := 0 |}
  = Path.scan_loop rest (i - Z.of_nat (length l))
      {| Path.startDot := -1; Path.startPart := 0; Path.end_ := e;
         Path.matchedSlash := false; Path.preDotState := 0 |}.
Proof.
  intros Hl He. revert i. induction Hl as [|c l Hc _ IH]; intros i.
  - simpl. by rewrite Z.sub_0_r.
  - cbn [app Path.scan_loop]. rewrite (scan_step_plain _ _ _ Hc). cbn.
    assert ((e =? -1)%Z = false) as -> by lia. cbn.
    rewrite IH. f_equal. lia.
Qed.

(** The part that runs over the characters before the dot. *)
Lemma scan_after_dot l i sd e pds :
  Forall plain_char l → sd ≠ (-1)%Z → e ≠ (-1)%Z →
  Path.scan_loop l i
    {| Path.startDot := sd; Path.startPart := 0; Path.end_ := e;
       Path.matchedSlash := false; Path.preDotState := pds |}
  = {| Path.startDot := sd; Path.startPart := 0; Path.end_ := e;
       Path.matchedSlash := false;
       Path.preDotState := match l with [] => pds | _ => -1 end |}.
Proof.
  intros Hl Hsd He. revert i pds. induction Hl as [|c l Hc _ IH]; intros i pds; [done|].
  cbn [Path.scan_loop]. rewrite (scan_step_plain _ _ _ Hc). cbn.
  assert ((e =? -1)%Z = false) as -> by lia. cbn.
  assert ((sd =? -1)%Z = false) as -> by lia. cbn.
  rewrite IH. by destruct l.
Qed.

Lemma scan_from_start l rest i :
  Forall plain_char l → (0 ≤ i)%Z →
  Path.scan_loop (l ++ rest) i Path.scan0
  = Path.scan_loop rest (i - Z.of_nat (length l))
      match l with
      | [] => Path.scan0
      | _ => {| Path.startDot := -1; Path.startPart := 0; Path.end_ := i + 1;
                Path.matchedSlash := false; Path.preDotState := 0 |}
      end.
Proof.
  intros Hl Hi. destruct Hl as [|c l Hc Hl].
  - simpl. by rewrite Z.sub_0_r.
  - cbn [app Path.scan_loop]. rewrite (scan_step_plain _ _ _ Hc). cbn.
    rewrite scan_before_dot by (done || lia). f_equal. lia.
Qed.

Lemma drop_append s t : Str.drop (String.length s) (s +:+ t) = t.
Proof. induction s as [|c s IH]; [by rewrite append_nil|]. by rewrite append_cons. Qed.

Lemma length_append s t : String.length (s +:+ t) = String.length s + String.length t.
Proof.
  induction s as [|c s IH]; [by rewrite append_nil|]. rewrite append_cons. simpl. by rewrite IH.
Qed.

Lemma scan_plain_name cb ce :
  cb ≠ [] → Forall plain_char cb → Forall plain_char ce →
  Path.scan_loop (rev (cb ++ "."%char :: ce))
    (Z.of_nat (length (cb ++ "."%char :: ce)) - 1) Path.scan0
  = {| Path.startDot := Z.of_nat (length cb); Path.startPart := 0;
       Path.end_ := Z.of_nat (length (cb ++ "."%char :: ce));
       Path.matchedSlash := false; Path.preDotState := -1 |}.
Proof.
  intros Hcb Hb He.
  assert (Forall plain_char (rev ce)) as Hre by (by apply List.Forall_rev).
  assert (Forall plain_char (rev cb)) as Hrb by (by apply List.Forall_rev).
  assert (rev cb ≠ []) as Hrcb.
  { intros H. apply (f_equal (@length _)) in H. rewrite length_rev in H. by destruct cb. }
  rewrite rev_app_distr. cbn [rev]. rewrite <- !app_assoc. cbn [app].
  rewrite length_app. cbn [length].
  rewrite scan_from_start by (done || lia). rewrite length_rev.
  replace (Z.of_nat (length cb + S (length ce)) - 1 - Z.of_nat (length ce))%Z
    with (Z.of_nat (length cb)) by lia.
  cbn [Path.scan_loop].
  assert (Path.scan_step (Z.of_nat (length cb)) "."
            match rev ce with
            | [] => Path.scan0
            | _ :: _ =>
                {| Path.startDot := -1; Path.startPart := 0;
                   Path.end_ := Z.of_nat (length cb + S (length ce)) - 1 + 1;
                   Path.matchedSlash := false; Path.preDotState := 0 |}
            end
          = inr {| Path.startDot := Z.of_nat (length cb); Path.startPart := 0;
                   Path.end_ := Z.of_nat (length cb + S (length ce));
                   Path.matchedSlash := false; Path.preDotState := 0 |}) as ->.
  { destruct (rev ce) as [|c l] eqn:Hr.
    - apply (f_equal (@length _)) in Hr. rewrite length_rev in Hr. simpl in Hr.
      rewrite Hr. unfold Path.scan_step. cbn. do 2 f_equal. lia.
    - unfold Path.scan_step. cbn.
      assert ((Z.of_nat (length cb + S (length ce)) - 1 + 1 =? -1)%Z = false) as ->
        by (apply Z.eqb_neq; lia).
      cbn. do 2 f_equal. lia. }
  rewrite scan_after_dot by (done || lia). by destruct (rev cb).
Qed.

(** The extension of a name of the form base.ext. *)
Lemma extname_plain base ext :
  base ≠ "" → plain base → plain ext →
  Path.extname (base +:+ "." +:+ ext) = "." +:+ ext.
Proof.
  intros Hne Hb He. unfold Path.extname.
  rewrite <- (length_chars (base +:+ "." +:+ ext)).
  rewrite !chars_app. cbn [list_ascii_of_string app].
  rewrite scan_plain_name; [|by destruct base|done|done].
  cbn [Path.startDot Path.end_ Path.preDotState Path.startPart].
  assert ((Z.of_nat (length (list_ascii_of_string base)) =? -1)%Z = false) as ->
    by (apply Z.eqb_neq; lia).
  assert ((Z.of_nat (length (list_ascii_of_string base ++
             "."%char :: list_ascii_of_string ext)) =? -1)%Z = false) as ->
    by (apply Z.eqb_neq; lia).
  cbn. unfold Path.slice. rewrite Nat2Z.id, length_chars, drop_append.
  rewrite length_app, length_chars. cbn [length]. rewrite length_chars.
  replace (Z.to_nat (Z.of_nat (String.length base + S (String.length ext))
                     - Z.of_nat (String.length base)))
    with (String.length ("." +:+ ext)) by (rewrite length_append; simpl; lia).
  apply take_all.
Qed.

Lemma append_nil_r s : s +:+ "" = s.
Proof. induction s as [|c s IH]; [done|]. rewrite append_cons. by rewrite IH. Qed.

Lemma replace_suffix base pat c :
  Forall (λ a, a ≠ c) (list_ascii_of_string base) →
  Str.replace (base +:+ String c pat) (String c pat) "" = base.
Proof.
  induction base as [|a base IH]; intros Hb.
  - rewrite append_nil. unfold Str.replace.
    assert (Str.startsWith (String c pat) (String c pat) = true) as ->.
    { apply startsWith_spec. exists "". by rewrite append_nil_r. }
    destruct pat; by rewrite drop_all.
  - apply Forall_cons in Hb as [Ha Hb]. rewrite append_cons. cbn [Str.replace Str.startsWith].
    rewrite (bool_decide_eq_false_2 _ Ha). cbn [andb]. by rewrite IH.
Qed.

Lemma extname_no_dot name : plain name → Path.extname name = "".
Proof.
  intros Hn. unfold Path.extname.
  assert (Forall plain_char (rev (list_ascii_of_string name))) as Hr
    by (by apply List.Forall_rev).
  rewrite <- (app_nil_r (rev (list_ascii_of_string name))).
  destruct name as [|a name]; [done|].
  rewrite scan_from_start; [|done|simpl; lia].
  cbn [Path.scan_loop]. by destruct (rev _).
Qed.

Lemma basic_title_plain c f base ext :
  missing (tag_title c) → plain base → plain ext →
  (originalname f = base → basic_title c f = base) ∧
  (base ≠ "" → originalname f = base +:+ "." +:+ ext → basic_title c f = base).
Proof.
  intros Hm Hb He. unfold basic_title. rewrite (or_else_missing _ _ Hm). split.
  - intros ->. rewrite extname_no_dot by done. apply replace_empty.
  - intros Hne ->. rewrite extname_plain by done.
    rewrite append_cons, append_nil. apply replace_suffix.
    eapply Forall_impl; [exact Hb|]. by intros a [? ?].
Qed.

(** X12. The title of an untitled upload.  When the tags give no title,
    a successful upload of a file named base.ext, where the base is not
    empty and neither part holds a dot or a slash, is catalogued under
    the title base; a file whose name holds no dot and no slash is
    catalogued under its whole name. *)
Theorem upload_title_of_plain_name (sv : services) (f : multer_file) (w : world)
    (ds : list json) (id base ext : string) :
  configured sv = true →
  files_create sv (filename f) (mimetype f) = Resolved id →
  permissions_create sv id = Resolved () →
  stored (files w !! SONGS_FILE) ds →
  missing (tag_title (tags_of sv f)) → plain base → plain ext →
  originalname f = base ∨ (base ≠ "" ∧ originalname f = base +:+ "." +:+ ext) →
  ∃ song,
    (upload sv (Some f) w).1 = Returned (ok_reply song) ∧
    string_field "title" song = Some base.
Proof.
  intros Hc Hcreate Hshare Hst Hm Hb He Hname.
  destruct (upload_success sv f w ds id (configured_client sv w Hc) Hcreate Hshare Hst)
    as (w' & Hup & _).
  exists (uploaded_song sv f id). rewrite Hup. split; [done|].
  unfold uploaded_song. rewrite song_document_title. f_equal.
  destruct (basic_title_plain (tags_of sv f) f base ext Hm Hb He) as [H1 H2].
  destruct Hname as [Hn|[Hne Hn]]; auto.
Qed.

Lemma upload_title_of_plain_name_witness :
  ∃ song,
    (upload untagged (Some take_five) staged_world).1 = Returned (ok_reply song) ∧
    string_field "title" song = Some "Take Five".
Proof.
  assert (plain "Take Five") as Ht by (repeat constructor; done).
  assert (plain "mp3") as Hm by (repeat constructor; done).
  assert ("Take Five" ≠ "") as Hne by done.
  exact (upload_title_of_plain_name untagged take_five staged_world [blue_skies]
           "drive-1" "Take Five" "mp3" eq_refl eq_refl eq_refl eq_refl
           (or_introl eq_refl) Ht Hm (or_intror (conj Hne eq_refl))).
Defined.

(** What the scan knows when the characters [l] (in reverse) are still to
    be read: the end of the last component, once seen, lies past them and
    no slash stands between them and it; a dot, once seen, lies there
    too. *)
Lemma scan_loop_no_slash chars l done st :
  chars = rev l ++ done →
  (Path.matchedSlash st = true → Path.end_ st = (-1)%Z) →
  (Path.end_ st = (-1)%Z → Path.startDot st = (-1)%Z) →
  (Path.end_ st ≠ (-1)%Z →
     (Z.of_nat (length l) ≤ Path.end_ st ≤ Z.of_nat (length chars))%Z ∧
     ∀ (k : nat) c, (Z.of_nat (length l) ≤ Z.of_nat k < Path.end_ st)%Z →
                    chars !! k = Some c → c ≠ "/"%char) →
  (Path.startDot st ≠ (-1)%Z → (Z.of_nat (length l) ≤ Path.startDot st)%Z) →
  let st' := Path.scan_loop l (Z.of_nat (length l) - 1) st in
  Path.end_ st' ≠ (-1)%Z → Path.startDot st' ≠ (-1)%Z →
  (0 ≤ Path.startDot st')%Z ∧ (Path.end_ st' ≤ Z.of_nat (length chars))%Z ∧
  ∀ (k : nat) c, (Path.startDot st' ≤ Z.of_nat k < Path.end_ st')%Z →
                 chars !! k = Some c → c ≠ "/"%char.
Proof.
  revert done st. induction l as [|a l IH]; intros done st Hchars P1 P2 P3 P4; cbn zeta.
  - simpl. intros He Hs. destruct (P3 He) as [[_ ?] Hk]. specialize (P4 Hs). simpl in P4.
    repeat split; [lia|done|]. intros k c Hkc. apply Hk. simpl. lia.
  - cbn [Path.scan_loop].
    assert (Z.of_nat (length (a :: l)) - 1 = Z.of_nat (length l))%Z as -> by (simpl; lia).
    assert (chars = rev l ++ a :: done) as Hchars'.
    { rewrite Hchars. cbn [rev]. by rewrite <- app_assoc. }
    assert (chars !! length l = Some a) as Ha.
    { rewrite Hchars'. rewrite <- (length_rev l). apply list_lookup_middle. done. }
    assert (length l < length chars) as Hlt by (by apply lookup_lt_Some in Ha).
    destruct (Path.scan_step (Z.of_nat (length l)) a st) as [st'|st'] eqn:Hstep.
    + (* the break *)
      unfold Path.scan_step in Hstep. case_bool_decide as Hslash; [|by repeat case_match].
      destruct (Path.matchedSlash st); [done|]. simpl in Hstep. simplify_eq. simpl.
      intros He Hs. destruct (P3 He) as [[_ ?] Hk]. specialize (P4 Hs).
      repeat split; [lia|done|]. intros k c Hkc. apply Hk. simpl in *. lia.
    + assert (Z.of_nat (length (a :: l)) = Z.of_nat (length l) + 1)%Z as Hlen
        by (simpl; lia).
      rewrite Hlen in P3, P4.
      assert ((a = "/"%char ∧ Path.matchedSlash st = true ∧ st' = st) ∨
              (a ≠ "/"%char ∧
               Path.end_ st' = (if (Path.end_ st =? -1)%Z then Z.of_nat (length l) + 1
                                else Path.end_ st)%Z ∧
               (Path.matchedSlash st' = true →
                  Path.matchedSlash st = true ∧ Path.end_ st ≠ (-1)%Z) ∧
               (Path.startDot st' = Path.startDot st ∨
                Path.startDot st' = Z.of_nat (length l)))) as Hcases.
      { unfold Path.scan_step in Hstep. case_bool_decide as Hslash.
        - left. destruct (Path.matchedSlash st); simpl in Hstep; simplify_eq. done.
        - right. split; [done|].
          destruct (Path.end_ st =? -1)%Z eqn:He; simpl in Hstep;
            repeat case_match; simplify_eq; simpl;
            (split; [done|]); (split; [|by auto]);
            first [done | intros Hm; split; [done|lia]]. }
      clear Hstep. apply (IH (a :: done) st' Hchars'); clear IH.
      * destruct Hcases as [(-> & Hm & ->)|(Hns & He & Hm & _)]; [done|].
        intros Hm'. destruct (Hm Hm') as [Hm1 Hm2]. by specialize (P1 Hm1).
      * destruct Hcases as [(-> & Hm & ->)|(Hns & He & _ & _)]; [done|].
        rewrite He. destruct (Path.end_ st =? -1)%Z eqn:He'; lia.
      * destruct Hcases as [(-> & Hm & ->)|(Hns & He & _ & _)].
        { intros He. by specialize (P1 Hm). }
        rewrite He. intros _. destruct (Path.end_ st =? -1)%Z eqn:He'.
        -- split; [lia|]. intros k c Hk Hc.
           assert (k = length l) as -> by lia. congruence.
        -- apply Z.eqb_neq in He'. destruct (P3 He') as [? Hk]. split; [lia|].
           intros k c Hkc Hc. destruct (decide (k = length l)) as [->|]; [congruence|].
           apply (Hk k c); [lia|done].
      * destruct Hcases as [(-> & Hm & ->)|(Hns & He & _ & [Hs|Hs])].
        -- intros Hs. specialize (P1 Hm). by specialize (P2 P1).
        -- rewrite Hs. intros Hs'. specialize (P4 Hs'). lia.
        -- rewrite Hs. lia.
Qed.

Lemma extname_slashless p : slashless (Path.extname p).
Proof.
  unfold slashless, Path.extname. set (chars := list_ascii_of_string p).
  rewrite <- (length_chars p), <- (length_rev (list_ascii_of_string p)). fold chars.
  pose proof (scan_loop_no_slash chars (rev chars) [] Path.scan0) as H.
  cbn zeta in H. set (st := Path.scan_loop _ _ _) in *.
  destruct (_ || _) eqn:Hcond; [apply not_elem_of_nil|].
  apply orb_false_iff in Hcond as [Hcond _].
  apply orb_false_iff in Hcond as [Hcond _].
  apply orb_false_iff in Hcond as [Hs He].
  apply Z.eqb_neq in Hs, He.
  destruct H as (H0 & Hn & Hk); try done.
  { by rewrite rev_involutive, app_nil_r. }
  unfold Path.slice. rewrite chars_take, chars_drop. fold chars.
  intros Hin. apply list_elem_of_lookup in Hin as [j Hj].
  apply lookup_take_Some in Hj as [Hj Hlt]. rewrite lookup_drop in Hj.
  eapply Hk; [|exact Hj|done]. lia.
Qed.

(** X13. The name an upload is staged under holds no slash, whatever name
    the client sent, as long as the identifier drawn holds none: the
    extension kept from the client's name never reaches past its last
    component, so the staged file cannot be placed outside the upload
    directory. *)
Theorem staged_name_slashless (uuid originalname : string) :
  slashless uuid → slashless (staged_name uuid originalname).
Proof.
  intros Hu. unfold slashless, staged_name. rewrite chars_app.
  apply not_elem_of_app. split; [done|apply extname_slashless].
Qed.

Lemma staged_name_slashless_witness :
  slashless (staged_name "3f2c9d0e-8a41-4c55-9b1e-7d6f5a4b3c2d" "../../etc/passwd.d/x.mp3/").
Proof.
  apply staged_name_slashless. unfold slashless. simpl.
  rewrite !not_elem_of_cons. repeat split; try done. apply not_elem_of_nil.
Defined.

(** ** GET /stream/:id: the Drive step *)

Lemma stream_found sv id w ds d h :
  stored (files w !! SONGS_FILE) ds →
  Forall (λ d, d ≠ JNull) ds →
  List.find (has_json_id id) ds = Some d →
  string_field "driveFileId" d = Some h → h ≠ "" →
  ∃ w',
    stream sv id w =
      (Returned (if configured sv then
                   match files_get sv (VString h) with
                   | Resolved data => audio_reply data
                   | Rejected _ => error_reply 500 "Failed to stream audio"
                   end
                 else error_reply 500 "Failed to initialize Google Drive"), w') ∧
    files w' = <[SONGS_FILE := Document (JArray ds)]> (files w) ∧
    drive w' = drive w.
Proof.
  intros Hst Hnn Hd Hh Hne.
  destruct (readJSON_stored _ _ _ Hst) as (h1 & vs & w1 & Hread & Hheap & _ & Hvs & Hfiles & Hdrive).
  assert (Forall2 (denotes (heap w1)) vs ds) as Hvs1.
  { rewrite Hheap. eapply Forall2_impl; [exact Hvs|]. intros. by apply denotes_app. }
  destruct (find_first_denotes w1 id vs ds Hvs1 Hnn) as (song & Hfind & Hsong).
  assert (Array_find (VRef (length h1)) (has_id (VString id)) w1 = (Returned song, w1)) as Hfind'.
  { assert (elements (VRef (length h1)) "find" w1 = (Returned vs, w1)) as Hel.
    { unfold elements. by rewrite Hheap, lookup_app_r, Nat.sub_diag. }
    unfold Array_find. by rewrite (bind_returned _ _ _ _ _ Hel). }
  unfold stream. ret Hread. ret Hfind'. rewrite Hd in Hsong.
  pose proof Hd as Hid. apply find_some in Hid as [_ Hid].
  apply has_json_id_object in Hid as [ps ->].
  rewrite (denotes_truthy _ _ _ Hsong). cbn [json_truthy negb].
  rewrite (bind_returned _ _ _ _ _ (get_string w1 song _ "driveFileId" h Hsong Hh)).
  assert (truthy (VString h) = true) as -> by (by destruct h).
  cbn [negb].
  pose proof (getDriveClient_run sv w1) as Hc.
  destruct (quiet_getDriveClient sv w1) as (Hf2 & Hd2 & _).
  destruct (configured sv).
  - destruct Hc as (w2 & Hc). rewrite Hc in Hf2, Hd2. simpl in Hf2, Hd2.
    erewrite bind_returned; [|by erewrite try_returned; [|by erewrite bind_returned]].
    cbn beta iota. unfold try_catch, await.
    destruct (files_get sv (VString h)) as [data|msg]; simpl;
      (eexists; split; [reflexivity|]; simpl; split; congruence).
  - destruct Hc as (e & w2 & Hc). rewrite Hc in Hf2, Hd2. simpl in Hf2, Hd2.
    erewrite bind_returned; [|by erewrite try_thrown; [|by erewrite bind_thrown]].
    simpl. eexists; split; [reflexivity|]. simpl. split; congruence.
Qed.

(** X14. When the first song with the requested id carries a non-empty
    Drive handle, the client is built and Drive delivers the file, the
    answer is 200 with the bytes Drive sent for that handle, declared as
    audio/mpeg with byte ranges accepted; Drive and the disk are left as
    they were (but for the reset a read performs). *)
Theorem stream_delivers (sv : services) (id : string) (w : world) (ds : list json)
    (d : json) (h data : string) :
  stored (files w !! SONGS_FILE) ds →
  Forall (λ d, d ≠ JNull) ds →
  List.find (has_json_id id) ds = Some d →
  string_field "driveFileId" d = Some h → h ≠ "" →
  configured sv = true →
  files_get sv (VString h) = Resolved data →
  (stream sv id w).1 = Returned (audio_reply data) ∧
  untouched_but_reset SONGS_FILE w (stream sv id w).2.
Proof.
  intros Hst Hnn Hd Hh Hne Hc Hget.
  destruct (stream_found sv id w ds d h Hst Hnn Hd Hh Hne) as (w' & Hs & Hf & Hdr).
  rewrite Hs, Hc, Hget. split; [done|]. by eapply stored_untouched.
Qed.

Lemma stream_delivers_witness :
  (stream serving "s7" kept_world).1 = Returned (audio_reply "ID3 audio bytes") ∧
  untouched_but_reset SONGS_FILE kept_world (stream serving "s7" kept_world).2.
Proof.
  assert (Forall (λ d, d ≠ JNull) [kept_song; stale_song]) as Hnn by (by repeat constructor).
  assert ("drive-7" ≠ "") as Hne by done.
  exact (stream_delivers serving "s7" kept_world [kept_song; stale_song] kept_song
           "drive-7" "ID3 audio bytes" eq_refl Hnn eq_refl eq_refl Hne eq_refl eq_refl).
Defined.

(** X15. When the song has a Drive handle and Drive cannot serve it, the
    answer is a 500 and never an exception: "Failed to initialize Google
    Drive" when the client cannot be built, "Failed to stream audio" when
    the download is refused.  Nothing is changed on Drive or on disk (but
    for the reset a read performs). *)
Theorem stream_drive_failure (sv : services) (id : string) (w : world) (ds : list json)
    (d : json) (h : string) :
  stored (files w !! SONGS_FILE) ds →
  Forall (λ d, d ≠ JNull) ds →
  List.find (has_json_id id) ds = Some d →
  string_field "driveFileId" d = Some h → h ≠ "" →
  (configured sv = false →
     (stream sv id w).1 = Returned (error_reply 500 "Failed to initialize Google Drive")) ∧
  (∀ msg, configured sv = true → files_get sv (VString h) = Rejected msg →
     (stream sv id w).1 = Returned (error_reply 500 "Failed to stream audio")) ∧
  untouched_but_reset SONGS_FILE w (stream sv id w).2.
Proof.
  intros Hst Hnn Hd Hh Hne.
  destruct (stream_found sv id w ds d h Hst Hnn Hd Hh Hne) as (w' & Hs & Hf & Hdr).
  rewrite Hs. split; [|split].
  - by intros ->.
  - by intros msg -> ->.
  - by eapply stored_untouched.
Qed.

Lemma stream_drive_failure_witness :
  (stream offline "s8" kept_world).1
    = Returned (error_reply 500 "Failed to initialize Google Drive") ∧
  (stream serving "s8" kept_world).1 = Returned (error_reply 500 "Failed to stream audio").
Proof.
  assert (Forall (λ d, d ≠ JNull) [kept_song; stale_song]) as Hnn by (by repeat constructor).
  assert ("drive-8" ≠ "") as Hne by done.
  split.
  - exact (proj1 (stream_drive_failure offline "s8" kept_world [kept_song; stale_song]
                    stale_song "drive-8" eq_refl Hnn eq_refl eq_refl Hne) eq_refl).
  - exact (proj1 (proj2 (stream_drive_failure serving "s8" kept_world [kept_song; stale_song]
                    stale_song "drive-8" eq_refl Hnn eq_refl eq_refl Hne))
             "File not found" eq_refl eq_refl).
Defined.

Lemma stream_run sv id w ds :
  stored (files w !! SONGS_FILE) ds →
  Forall (λ d, d ≠ JNull) ds →
  ∃ r w',
    stream sv id w = (Returned r, w') ∧
    (status r = 200 ∨ status r = 404 ∨ status r = 500) ∧
    (status r = 404 ↔
       match List.find (has_json_id id) ds with
       | Some d => no_handle d
       | None => True
       end) ∧
    files w' = <[SONGS_FILE := Document (JArray ds)]> (files w) ∧
    drive w' = drive w.
Proof.
  intros Hst Hnn.
  pose proof (stream_lookup sv id w ds Hst Hnn) as Hlookup.
  destruct (List.find (has_json_id id) ds) as [d|] eqn:Hd.
  2:{ destruct Hlookup as (w' & Hs & Hf & Hdr). exists (error_reply 404 "Song not found"), w'.
      simpl. repeat split; auto. }
  assert (no_handle d ∨ ¬ no_handle d) as [Hno|Hh].
  { unfold no_handle. destruct (field "driveFileId" d) as [h|]; [|by left].
    destruct (json_truthy h); [right|left]; done. }
  { destruct (Hlookup Hno) as (w' & Hs & Hf & Hdr).
    exists (error_reply 404 "Audio file not found"), w'. simpl. repeat split; auto. }
  clear Hlookup.
  destruct (readJSON_stored _ _ _ Hst) as (h1 & vs & w1 & Hread & Hheap & _ & Hvs & Hfiles & Hdrive).
  destruct (array_find_denotes w1 h1 vs ds id Hheap Hvs Hnn) as (song & Hfind & Hsong).
  unfold stream. ret Hread. ret Hfind. rewrite Hd in Hsong.
  pose proof Hd as Hid. apply find_some in Hid as [_ Hid].
  apply has_json_id_object in Hid as [ps ->].
  rewrite (denotes_truthy _ _ _ Hsong). cbn [json_truthy negb].
  destruct (get_denotes w1 song (JObject ps) "driveFileId" Hsong) as (h & Hget & Hhd); [done|].
  ret Hget.
  assert (truthy h = true) as ->.
  { unfold no_handle in Hh. destruct (field "driveFileId" (JObject ps)) as [dh|]; [|done].
    rewrite (denotes_truthy _ _ _ Hhd). by destruct (json_truthy dh). }
  cbn [negb].
  pose proof (getDriveClient_run sv w1) as Hc.
  destruct (quiet_getDriveClient sv w1) as (Hf2 & Hd2 & _).
  destruct (configured sv).
  - destruct Hc as (w2 & Hc). rewrite Hc in Hf2, Hd2. simpl in Hf2, Hd2.
    erewrite bind_returned; [|by erewrite try_returned; [|by erewrite bind_returned]].
    cbn beta iota. unfold try_catch, await.
    destruct (files_get sv h) as [data|msg]; simpl;
      (eexists _, _; split; [reflexivity|]; simpl;
       split; [auto|]; split; [split; [done|by intros ?]|]; split; congruence).
  - destruct Hc as (e & w2 & Hc). rewrite Hc in Hf2, Hd2. simpl in Hf2, Hd2.
    erewrite bind_returned; [|by erewrite try_thrown; [|by erewrite bind_thrown]].
    simpl. eexists _, _; split; [reflexivity|]. simpl.
    split; [auto|]. split; [split; [done|by intros ?]|]. split; congruence.
Qed.

(** X16. Over a stored collection without null entries GET /stream/:id is
    always answered, with 200, 404 or 500, and never throws.  It is
    answered 404 exactly when no song has the id or the first song that
    has it lacks a usable Drive handle; and whatever the answer, Drive and
    the disk are left as they were (but for the reset a read performs). *)
Theorem stream_always_answers (sv : services) (id : string) (w : world) (ds : list json) :
  stored (files w !! SONGS_FILE) ds →
  Forall (λ d, d ≠ JNull) ds →
  ∃ r,
    (stream sv id w).1 = Returned r ∧
    (status r = 200 ∨ status r = 404 ∨ status r = 500) ∧
    (status r = 404 ↔
       match List.find (has_json_id id) ds with
       | Some d => no_handle d
       | None => True
       end) ∧
    untouched_but_reset SONGS_FILE w (stream sv id w).2.
Proof.
  intros Hst Hnn. destruct (stream_run sv id w ds Hst Hnn) as (r & w' & -> & H1 & H2 & Hf & Hd).
  exists r. split; [done|]. split; [done|]. split; [done|]. by eapply stored_untouched.
Qed.

Lemma stream_always_answers_witness :
  ∃ r,
    (stream serving "s8" kept_world).1 = Returned r ∧
    (status r = 200 ∨ status r = 404 ∨ status r = 500) ∧
    (status r = 404 ↔
       match List.find (has_json_id "s8") [kept_song; stale_song] with
       | Some d => no_handle d
       | None => True
       end) ∧
    untouched_but_reset SONGS_FILE kept_world (stream serving "s8" kept_world).2.
Proof.
  assert (Forall (λ d, d ≠ JNull) [kept_song; stale_song]) as Hnn by (by repeat constructor).
  exact (stream_always_answers serving "s8" kept_world [kept_song; stale_song] eq_refl Hnn).
Defined.

(** ** An upload, then the catalog *)

(** X17. What an upload answers is what the catalog lists: after a
    successful upload, GET /songs answers the collection that was stored
    followed by the very record the upload answered. *)
Theorem upload_then_list (sv : services) (f : multer_file) (w : world)
    (ds : list json) (id : string) :
  configured sv = true →
  files_create sv (filename f) (mimetype f) = Resolved id →
  permissions_create sv id = Resolved () →
  stored (files w !! SONGS_FILE) ds →
  ∃ song,
    (upload sv (Some f) w).1 = Returned (ok_reply song) ∧
    (list_songs (upload sv (Some f) w).2).1 = Returned (ok_reply (JArray (ds ++ [song]))).
Proof.
  intros Hc Hcreate Hshare Hst.
  destruct (upload_success sv f w ds id (configured_client sv w Hc) Hcreate Hshare Hst)
    as (w' & Hup & Hf & _).
  exists (uploaded_song sv f id). rewrite Hup. split; [done|]. cbn [snd].
  destruct (read_and_reply SONGS_FILE w') as (w'' & Hlist & _).
  unfold list_songs. rewrite Hlist. by rewrite Hf, lookup_insert_eq.
Qed.

Lemma upload_then_list_witness :
  ∃ song,
    (upload untagged (Some take_five) staged_world).1 = Returned (ok_reply song) ∧
    (list_songs (upload untagged (Some take_five) staged_world).2).1
      = Returned (ok_reply (JArray ([blue_skies] ++ [song]))).
Proof.
  exact (upload_then_list untagged take_five staged_world [blue_skies] "drive-1"
           eq_refl eq_refl eq_refl eq_refl).
Defined.

(** X18. What was uploaded can be streamed: after a successful upload
    that Drive stored under a non-empty handle, and provided no stored
    song already had the identifier drawn, GET /stream/:id with that
    identifier asks Drive for that handle and, when the client is built
    and Drive delivers, answers 200 with the bytes delivered. *)
Theorem upload_then_stream (sv sv' : services) (f : multer_file) (w : world)
    (ds : list json) (id data : string) :
  configured sv = true →
  files_create sv (filename f) (mimetype f) = Resolved id →
  permissions_create sv id = Resolved () →
  stored (files w !! SONGS_FILE) ds →
  Forall (λ d, d ≠ JNull) ds →
  List.find (has_json_id (uuidv4 sv)) ds = None →
  id ≠ "" →
  configured sv' = true →
  files_get sv' (VString id) = Resolved data →
  (stream sv' (uuidv4 sv) (upload sv (Some f) w).2).1 = Returned (audio_reply data).
Proof.
  intros Hc Hcreate Hshare Hst Hnn Hfresh Hne Hc' Hget.
  destruct (upload_success sv f w ds id (configured_client sv w Hc) Hcreate Hshare Hst)
    as (w' & Hup & Hf & _).
  rewrite Hup. cbn [snd].
  destruct (song_document_handles sv (basic_title (tags_of sv f) f)
      (basic_artist (tags_of sv f)) (basic_album (tags_of sv f))
      (if enriches (basic_title (tags_of sv f) f) (basic_artist (tags_of sv f))
       then (mb_result sv (basic_title (tags_of sv f) f) (basic_artist (tags_of sv f))
               (basic_genre (tags_of sv f))).2
       else basic_genre (tags_of sv f))
      (basic_duration (extracted sv f))
      (if enriches (basic_title (tags_of sv f) f) (basic_artist (tags_of sv f))
       then (mb_result sv (basic_title (tags_of sv f) f) (basic_artist (tags_of sv f))
               (basic_genre (tags_of sv f))).1
       else VNull)
      (if enriches (basic_title (tags_of sv f) f) (basic_artist (tags_of sv f))
       then lrc_result sv (basic_title (tags_of sv f) f) (basic_artist (tags_of sv f))
       else VNull) id) as (Hid & Hh & _).
  fold (uploaded_song sv f id) in Hid, Hh.
  assert (stored (files w' !! SONGS_FILE) (ds ++ [uploaded_song sv f id])) as Hst'
    by (by rewrite Hf, lookup_insert_eq).
  assert (Forall (λ d, d ≠ JNull) (ds ++ [uploaded_song sv f id])) as Hnn'.
  { apply Forall_app. split; [done|]. by repeat constructor. }
  assert (List.find (has_json_id (uuidv4 sv)) (ds ++ [uploaded_song sv f id])
          = Some (uploaded_song sv f id)) as Hfind.
  { rewrite find_app_None by done. cbn [List.find]. unfold has_json_id.
    by rewrite Hid, bool_decide_eq_true_2. }
  destruct (stream_found sv' (uuidv4 sv) w' _ _ id Hst' Hnn' Hfind Hh Hne) as (w'' & Hs & _).
  by rewrite Hs, Hc', Hget.
Qed.

Lemma upload_then_stream_witness :
  (stream serving (uuidv4 serving) (upload serving (Some take_five) staged_world).2).1
    = Returned (audio_reply "ID3 audio bytes").
Proof.
  assert (Forall (λ d, d ≠ JNull) [blue_skies]) as Hnn by (by repeat constructor).
  assert ("drive-7" ≠ "") as Hne by done.
  exact (upload_then_stream serving serving take_five staged_world [blue_skies]
           "drive-7" "ID3 audio bytes" eq_refl eq_refl eq_refl eq_refl Hnn eq_refl Hne
           eq_refl eq_refl).
Defined.

(** ** GET /search over records of any form *)

Lemma lower_field E w v d k :
  denotes (heap w) v d →
  match string_field k d with
  | Some s => (get v k ≫= toLowerCase E) w = (Returned (String_toLowerCase E s), w)
  | None => ∃ msg, (get v k ≫= toLowerCase E) w = (Thrown (TypeError msg), w)
  end.
Proof.
  intros Hv. destruct (string_field k d) as [s|] eqn:Hs.
  - by rewrite (bind_returned _ _ _ _ _ (get_string _ _ _ _ _ Hv Hs)).
  - assert (d = JNull ∨ d ≠ JNull) as [->|Hd] by (destruct d; auto).
    { apply denotes_inv in Hv. subst. by eexists. }
    destruct (get_denotes w v d k Hv Hd) as (v' & Hget & Hv'). ret Hget.
    unfold string_field in Hs. destruct (field k d) as [d'|]; [|subst; by eexists].
    apply denotes_inv in Hv'. destruct d'; try done; subst; try by eexists.
    + destruct Hv' as (l & vs & -> & _). by eexists.
    + destruct Hv' as (l & vs & -> & _). by eexists.
Qed.

Lemma bind_assoc {A B C} (m : js A) (f : A → js B) (g : B → js C) w :
  (a ← m; f a ≫= g) w = ((m ≫= f) ≫= g) w.
Proof. unfold mbind, js_bind. by destruct (m w) as [[a|e] w1]. Qed.

Lemma matches_throws E w q v d :
  denotes (heap w) v d → json_matches E q d = None →
  ∃ msg, matches E q v w = (Thrown (TypeError msg), w).
Proof.
  intros Hv Hm. unfold json_matches in Hm.
  pose proof (lower_field E w v d "title" Hv) as Ht.
  pose proof (lower_field E w v d "artist" Hv) as Ha.
  unfold matches. rewrite bind_assoc.
  destruct (string_field "title" d) as [t|].
  - ret Ht. destruct (Str.includes (String_toLowerCase E t) q); [done|].
    rewrite bind_assoc. destruct (string_field "artist" d) as [a|]; [done|].
    destruct Ha as (msg & Ha). thr Ha. by exists msg.
  - destruct Ht as (msg & Ht). thr Ht. by exists msg.
Qed.

Lemma keep_throws E w q vs ds :
  Forall2 (denotes (heap w)) vs ds →
  Exists (λ d, json_matches E q d = None) ds →
  ∃ msg, keep (matches E q) vs w = (Thrown (TypeError msg), w).
Proof.
  induction 1 as [|v d vs ds Hv _ IH]; intros Hex.
  - by apply Exists_nil in Hex.
  - cbn [keep]. destruct (json_matches E q d) as [b|] eqn:Hd.
    + apply Exists_cons in Hex as [Hex|Hex]; [congruence|].
      destruct (IH Hex) as (msg & Hk).
      rewrite (bind_returned _ _ _ _ _ (matches_denotes _ _ _ _ _ _ Hv Hd)).
      thr Hk. by exists msg.
    + destruct (matches_throws E w q v d Hv Hd) as (msg & Hm). thr Hm. by exists msg.
Qed.

Lemma search_throws E w query_q ds :
  stored (files w !! SONGS_FILE) ds →
  Exists (λ d, json_matches E (String_toLowerCase E (or_else query_q "")) d = None) ds →
  ∃ msg w', search E query_q w = (Thrown (TypeError msg), w') ∧
            files w' = <[SONGS_FILE := Document (JArray ds)]> (files w) ∧
            drive w' = drive w.
Proof.
  intros Hst Hex.
  destruct (readJSON_stored _ _ _ Hst) as (h1 & vs & w1 & Hread & Hheap & _ & Hvs & Hf & Hd).
  unfold search. ret Hread.
  assert (Forall2 (denotes (heap w1)) vs ds) as Hvs1.
  { rewrite Hheap. eapply Forall2_impl; [exact Hvs|]. intros. by apply denotes_app. }
  destruct (keep_throws E w1 _ vs ds Hvs1 Hex) as (msg & Hk).
  assert (elements (VRef (length h1)) "filter" w1 = (Returned vs, w1)) as Hel.
  { unfold elements. by rewrite Hheap, lookup_app_r, Nat.sub_diag. }
  assert (Array_filter (VRef (length h1))
            (matches E (String_toLowerCase E (or_else query_q ""))) w1
          = (Thrown (TypeError msg), w1)) as Hfilter.
  { unfold Array_filter. ret Hel. by thr Hk. }
  thr Hfilter. by exists msg, w1.
Qed.

Lemma json_matches_searchable E q d :
  match json_matches E (String_toLowerCase E q) d with
  | Some b => searchable E q d ∧ b = bool_decide (lowered_match E q d)
  | None => ¬ searchable E q d
  end.
Proof.
  unfold json_matches, searchable, lowered_match.
  destruct (string_field "title" d) as [t|]; [|by intros []].
  simpl. destruct (Str.includes (String_toLowerCase E t) (String_toLowerCase E q)) eqn:Hti.
  - assert (lowered_in E q t) by (by apply includes_spec).
    split; [by left|]. rewrite bool_decide_eq_true_2; [done|by left].
  - assert (¬ lowered_in E q t) as Hnt by (intros H; apply includes_spec in H; congruence).
    destruct (string_field "artist" d) as [a|]; simpl.
    + split; [by right|].
      destruct (Str.includes (String_toLowerCase E a) (String_toLowerCase E q)) eqn:Hai.
      * rewrite bool_decide_eq_true_2; [done|]. right. by apply includes_spec.
      * rewrite bool_decide_eq_false_2; [done|].
        intros [H|H]; apply includes_spec in H; congruence.
    + intros [?|[? ?]]; done.
Qed.

Lemma lowered_match_ascii_text E q d :
  Str.is_ascii q = true → ascii_text d →
  lowered_match E q d ↔ query_matches q d.
Proof.
  intros Hq [Ht Ha]. unfold lowered_match, query_matches.
  by rewrite !lowered_in_ascii.
Qed.

(** X19. GET /search over records of any form.  When the callback can be
    evaluated on every record (its title is a string and, unless the
    lower-cased query is found in the lower-cased title, so is its
    artist) the answer is 200 with the records that match, in order:
    those where the lower-cased query is found in the lower-cased title
    or artist, which on ASCII text are those in whose title or artist the
    query occurs with case ignored.  As soon as one record is not of that
    form the handler throws a TypeError and answers nothing, even if
    other records match. *)
Theorem search_answers_or_throws (E : engine) (w : world) (q : string) (ds : list json) :
  stored (files w !! SONGS_FILE) ds →
  (Forall (searchable E q) ds →
     (search E (Some q) w).1
       = Returned (ok_reply (JArray (filter (lowered_match E q) ds))) ∧
     (Str.is_ascii q = true → Forall ascii_text ds →
      (search E (Some q) w).1
        = Returned (ok_reply (JArray (filter (query_matches q) ds))))) ∧
  (Exists (λ d, ¬ searchable E q d) ds →
     ∃ msg, (search E (Some q) w).1 = Thrown (TypeError msg)).
Proof.
  intros Hst. split.
  - intros Hds.
    assert ((search E (Some q) w).1
            = Returned (ok_reply (JArray (filter (lowered_match E q) ds)))) as Hgeneral.
    { rewrite (search_filter E w (Some q) ds (λ d, bool_decide (lowered_match E q d)) Hst).
      + unfold ok_reply. do 5 f_equal. apply list_filter_iff. intros d. apply bool_decide_spec.
      + rewrite or_else_Some. eapply Forall_impl; [exact Hds|].
        intros d Hd. pose proof (json_matches_searchable E q d) as H.
        destruct (json_matches E (String_toLowerCase E q) d); [by destruct H as [_ ->]|done]. }
    split; [done|]. intros Hq Hascii. rewrite Hgeneral. unfold ok_reply. do 5 f_equal.
    clear Hgeneral Hst Hds. induction Hascii as [|d ds Hd _ IH]; [done|].
    rewrite !filter_cons, IH.
    pose proof (lowered_match_ascii_text E q d Hq Hd) as Hiff.
    destruct (decide (lowered_match E q d)), (decide (query_matches q d)); try done; tauto.
  - intros Hex.
    destruct (search_throws E w (Some q) ds Hst) as (msg & w' & -> & _); [|by exists msg].
    rewrite or_else_Some. eapply Exists_impl; [exact Hex|].
    intros d Hd. pose proof (json_matches_searchable E q d) as H.
    destruct (json_matches E (String_toLowerCase E q) d); [by destruct H|done].
Qed.

Lemma search_answers_or_throws_witness :
  (search ascii_engine (Some "blue") anonymous_world).1
    = Returned (ok_reply (JArray [blue_skies; anonymous_song])) ∧
  ∃ msg, (search ascii_engine (Some "ana") anonymous_world).1 = Thrown (TypeError msg).
Proof.
  split.
  - apply (search_answers_or_throws ascii_engine anonymous_world "blue"
             [blue_skies; anonymous_song] eq_refl).
    + apply Forall_cons; split; [left; by apply includes_spec|].
      apply Forall_cons; split; [left; by apply includes_spec|]. apply Forall_nil_2.
    + reflexivity.
    + apply Forall_cons; split; [by split|].
      apply Forall_cons; split; [by split|]. apply Forall_nil_2.
  - apply (search_answers_or_throws ascii_engine anonymous_world "ana"
             [blue_skies; anonymous_song] eq_refl).
    apply Exists_cons. right. apply Exists_cons. left.
    intros [H|[a H]]; [apply includes_spec in H|]; discriminate.
Defined.

(** ** The playlist routes *)

(** The array at [length h1] once [v] has been pushed onto it. *)
Lemma denotes_pushed h1 vs ds k v d n :
  Forall2 (denotes h1) vs ds →
  n < length (h1 ++ OArray (vs ++ [v]) :: k) →
  inspect n (h1 ++ OArray (vs ++ [v]) :: k) v = Some (of_json d) →
  denotes (h1 ++ OArray (vs ++ [v]) :: k) (VRef (length h1)) (JArray (ds ++ [d])).
Proof.
  intros Hvs Hn Hv. set (H := h1 ++ OArray (vs ++ [v]) :: k) in *.
  assert (length h1 < length H) as Hlen.
  { unfold H. rewrite length_app. simpl. lia. }
  exists (S (length h1 `max` n)). split; [lia|].
  rewrite inspect_ref. unfold H at 1. rewrite list_lookup_middle by done.
  cbn [of_json].
  assert (mapM (inspect (length h1 `max` n) H) (vs ++ [v]) = Some (map of_json (ds ++ [d])))
    as ->; [|done].
  apply mapM_Some. rewrite map_app. apply Forall2_app.
  - apply Forall2_fmap_r. eapply Forall2_impl; [exact Hvs|].
    intros x y (m & Hm & Hi). unfold H. eapply inspect_app; [exact Hi|lia].
  - constructor; [|constructor]. eapply inspect_agree; [exact Hv|lia|done].
Qed.

Lemma create_playlist_run sv name w pls :
  stored (files w !! PLAYLISTS_FILE) pls →
  primitive name → truthy name = true →
  ∃ w',
    create_playlist sv name w = (Returned (ok_reply (new_playlist sv name)), w') ∧
    files w' = <[PLAYLISTS_FILE := Document (JArray (pls ++ [new_playlist sv name]))]> (files w) ∧
    drive w' = drive w.
Proof.
  intros Hst Hprim Htruthy.
  destruct (readJSON_stored _ _ _ Hst)
    as (h1 & vs & w1 & Hread & Hheap & _ & Hvs & Hfiles & Hdrive).
  set (rec := ORecord [("id", VString (uuidv4 sv)); ("name", name);
                       ("songs", VRef (length h1 + 1))]).
  set (H := h1 ++ OArray (vs ++ [VRef (length h1 + 2)]) :: [OArray []; rec]).
  assert (length H = S (S (S (length h1)))) as HlenH.
  { unfold H. rewrite length_app. simpl. lia. }
  assert (inspect 2 H (VRef (length h1 + 2)) = Some (of_json (new_playlist sv name))) as Hnew.
  { rewrite inspect_ref. unfold H. rewrite lookup_app_plus. cbn [lookup list_lookup rec].
    cbn [mapM fst snd]. rewrite inspect_ref, lookup_app_plus. cbn [lookup list_lookup].
    rewrite (inspect_prim _ _ _ Hprim).
    destruct name as [ | |[]|n|s|]; try done. }
  assert (denotes H (VRef (length h1 + 2)) (new_playlist sv name)) as Hnewd.
  { exists 2. split; [lia|done]. }
  assert (denotes H (VRef (length h1)) (JArray (pls ++ [new_playlist sv name]))) as Hall.
  { apply denotes_pushed with (n := 2); [done|rewrite length_app; simpl; lia|done]. }
  unfold create_playlist. rewrite Htruthy. cbn [negb]. ret Hread.
  destruct w1 as [F1 H1 C1 D1]. cbn [heap files drive console] in *. subst H1.
  erewrite bind_returned by reflexivity.
  erewrite bind_returned by reflexivity.
  erewrite bind_returned.
  2:{ apply Array_push_run with (vs := vs). cbn [heap set_heap].
      rewrite <- !app_assoc. reflexivity. }
  cbn [heap set_heap set_console console files drive].
  rewrite !length_app. cbn [length app].
  replace (length h1 + 1 + 1) with (length h1 + 2) by lia.
  match goal with |- context [set_heap ?h ?w0] => change h with H; set (w4 := set_heap H w0) end.
  assert (writeJSON PLAYLISTS_FILE (VRef (length h1)) w4 =
          (Returned (), set_files (<[PLAYLISTS_FILE :=
             Document (JArray (pls ++ [new_playlist sv name]))]> (files w4)) w4)) as Hwrite.
  { eapply writeJSON_run; [by apply denotes_holds|apply toJSON_of_json]. }
  ret Hwrite.
  eexists. split.
  - by apply res_json_denotes.
  - cbn [files drive set_files set_heap w4]. subst F1 D1.
    split; [|done]. by rewrite insert_insert_eq.
Qed.

Lemma get_playlist_run id w pls :
  stored (files w !! PLAYLISTS_FILE) pls →
  Forall (λ d, d ≠ JNull) pls →
  ∃ w',
    get_playlist id w =
      (Returned (match List.find (has_json_id id) pls with
                 | Some d => ok_reply d
                 | None => error_reply 404 "Playlist not found"
                 end), w') ∧
    files w' = <[PLAYLISTS_FILE := Document (JArray pls)]> (files w) ∧
    drive w' = drive w.
Proof.
  intros Hst Hnn.
  destruct (readJSON_stored _ _ _ Hst)
    as (h1 & vs & w1 & Hread & Hheap & _ & Hvs & Hfiles & Hdrive).
  destruct (array_find_denotes w1 h1 vs pls id Hheap Hvs Hnn) as (r & Hfind & Hr).
  unfold get_playlist. ret Hread. ret Hfind.
  destruct (List.find (has_json_id id) pls) as [d|] eqn:Hd.
  - apply find_some in Hd as [_ Hid]. apply has_json_id_object in Hid as [ps ->].
    rewrite (denotes_truthy _ _ _ Hr). cbn [json_truthy negb].
    exists w1. split; [|done]. by apply res_json_denotes.
  - subst r. by exists w1.
Qed.

(** X20. POST /playlist.  A name that is falsy (absent, [null], [false],
    0 or the empty string) is answered 400 and nothing at all happens.
    Any other primitive name, a string or not, creates a playlist with
    the identifier drawn for it, that name and an empty list of songs:
    the playlist is answered and appended to the playlists file, and
    nothing else changes. *)
Theorem create_playlist_spec (sv : services) (name : value) (w : world) (pls : list json) :
  (truthy name = false →
     create_playlist sv name w = (Returned (error_reply 400 "Playlist name required"), w)) ∧
  (primitive name → truthy name = true → stored (files w !! PLAYLISTS_FILE) pls →
     (create_playlist sv name w).1 = Returned (ok_reply (new_playlist sv name)) ∧
     files (create_playlist sv name w).2 =
       <[PLAYLISTS_FILE := Document (JArray (pls ++ [new_playlist sv name]))]> (files w) ∧
     drive (create_playlist sv name w).2 = drive w).
Proof.
  split.
  - intros Hf. unfold create_playlist. by rewrite Hf.
  - intros Hp Ht Hst.
    destruct (create_playlist_run sv name w pls Hst Hp Ht) as (w' & -> & ? & ?). done.
Qed.

Lemma create_playlist_spec_witness :
  create_playlist offline (VString "") playlists_world
    = (Returned (error_reply 400 "Playlist name required"), playlists_world) ∧
  (create_playlist offline (VString "Road") playlists_world).1
    = Returned (ok_reply (new_playlist offline (VString "Road"))) ∧
  files (create_playlist offline (VString "Road") playlists_world).2 =
    <[PLAYLISTS_FILE := Document (JArray ([mix []; bare_playlist]
                                          ++ [new_playlist offline (VString "Road")]))]>
      (files playlists_world) ∧
  drive (create_playlist offline (VString "Road") playlists_world).2 = drive playlists_world.
Proof.
  split.
  - exact (proj1 (create_playlist_spec offline (VString "") playlists_world []) eq_refl).
  - exact (proj2 (create_playlist_spec offline (VString "Road") playlists_world
                    [mix []; bare_playlist]) I eq_refl eq_refl).
Defined.

(** X21. GET /playlist/:id over stored playlists answers 200 with the
    first playlist that has the id, and 404 "Playlist not found" when
    none has; nothing changes on Drive or on disk (but for the reset a
    read performs). *)
Theorem get_playlist_spec (id : string) (w : world) (pls : list json) :
  stored (files w !! PLAYLISTS_FILE) pls →
  Forall (λ d, d ≠ JNull) pls →
  (get_playlist id w).1 =
    Returned (match List.find (has_json_id id) pls with
              | Some d => ok_reply d
              | None => error_reply 404 "Playlist not found"
              end) ∧
  untouched_but_reset PLAYLISTS_FILE w (get_playlist id w).2.
Proof.
  intros Hst Hnn. destruct (get_playlist_run id w pls Hst Hnn) as (w' & -> & Hf & Hd).
  split; [done|]. by eapply stored_untouched.
Qed.

Lemma get_playlist_spec_witness :
  ((get_playlist "p2" playlists_world).1 = Returned (ok_reply bare_playlist) ∧
   untouched_but_reset PLAYLISTS_FILE playlists_world (get_playlist "p2" playlists_world).2) ∧
  ((get_playlist "p9" playlists_world).1 = Returned (error_reply 404 "Playlist not found") ∧
   untouched_but_reset PLAYLISTS_FILE playlists_world (get_playlist "p9" playlists_world).2).
Proof.
  assert (Forall (λ d, d ≠ JNull) [mix []; bare_playlist]) as Hnn by (by repeat constructor).
  split.
  - exact (get_playlist_spec "p2" playlists_world [mix []; bare_playlist] eq_refl Hnn).
  - exact (get_playlist_spec "p9" playlists_world [mix []; bare_playlist] eq_refl Hnn).
Defined.

(** X22. A playlist can be fetched once it is created: when no stored
    playlist already has the identifier drawn, GET /playlist/:id with
    that identifier answers the playlist POST /playlist answered. *)
Theorem create_then_get (sv : services) (name : value) (w : world) (pls : list json) :
  primitive name → truthy name = true →
  stored (files w !! PLAYLISTS_FILE) pls →
  Forall (λ d, d ≠ JNull) pls →
  List.find (has_json_id (uuidv4 sv)) pls = None →
  (create_playlist sv name w).1 = Returned (ok_reply (new_playlist sv name)) ∧
  (get_playlist (uuidv4 sv) (create_playlist sv name w).2).1
    = Returned (ok_reply (new_playlist sv name)).
Proof.
  intros Hp Ht Hst Hnn Hfresh.
  destruct (create_playlist_run sv name w pls Hst Hp Ht) as (w' & -> & Hf & _).
  split; [done|]. cbn [snd].
  assert (stored (files w' !! PLAYLISTS_FILE) (pls ++ [new_playlist sv name])) as Hst'.
  { by rewrite Hf, lookup_insert_eq. }
  assert (Forall (λ d, d ≠ JNull) (pls ++ [new_playlist sv name])) as Hnn'.
  { apply Forall_app. split; [done|]. by repeat constructor. }
  destruct (get_playlist_run (uuidv4 sv) w' _ Hst' Hnn') as (w'' & -> & _).
  rewrite find_app_None by done. cbn [List.find new_playlist].
  unfold has_json_id, string_field. simpl. by rewrite bool_decide_eq_true_2.
Qed.

Lemma create_then_get_witness :
  (create_playlist offline (VString "Road") playlists_world).1
    = Returned (ok_reply (new_playlist offline (VString "Road"))) ∧
  (get_playlist (uuidv4 offline) (create_playlist offline (VString "Road") playlists_world).2).1
    = Returned (ok_reply (new_playlist offline (VString "Road"))).
Proof.
  assert (Forall (λ d, d ≠ JNull) [mix []; bare_playlist]) as Hnn by (by repeat constructor).
  exact (create_then_get offline (VString "Road") playlists_world [mix []; bare_playlist]
           I eq_refl eq_refl Hnn eq_refl).
Defined.

(** The two lookups of PUT /playlist/:id/add. *)
Lemma add_song_lookups id sid w pls ds :
  stored (files w !! PLAYLISTS_FILE) pls →
  Forall (λ d, d ≠ JNull) pls →
  stored (files w !! SONGS_FILE) ds →
  Forall (λ d, d ≠ JNull) ds →
  match List.find (has_json_id id) pls with
  | None =>
      ∃ w', add_song id (VString sid) w = (Returned (error_reply 404 "Playlist not found"), w') ∧
            files w' = <[PLAYLISTS_FILE := Document (JArray pls)]> (files w) ∧
            drive w' = drive w
  | Some pl =>
      match List.find (has_json_id sid) ds with
      | None =>
          ∃ w', add_song id (VString sid) w = (Returned (error_reply 404 "Song not found"), w') ∧
                files w' = <[SONGS_FILE := Document (JArray ds)]>
                             (<[PLAYLISTS_FILE := Document (JArray pls)]> (files w)) ∧
                drive w' = drive w
      | Some song =>
          nullish (field "songs" pl) = true →
          ∃ msg w', add_song id (VString sid) w = (Thrown (TypeError msg), w') ∧
                    files w' = <[SONGS_FILE := Document (JArray ds)]>
                                 (<[PLAYLISTS_FILE := Document (JArray pls)]> (files w)) ∧
                    drive w' = drive w
      end
  end.
Proof.
  intros Hpst Hpnn Hsst Hsnn.
  destruct (readJSON_stored _ _ _ Hpst)
    as (h1 & vs & w1 & Hread & Hheap & _ & Hvs & Hfiles & Hdrive).
  destruct (array_find_denotes w1 h1 vs pls id Hheap Hvs Hpnn) as (playlist & Hfind & Hpl).
  unfold add_song. ret Hread. ret Hfind.
  destruct (List.find (has_json_id id) pls) as [pl|] eqn:Hp; [|subst playlist; by exists w1].
  pose proof Hp as Hpid. apply find_some in Hpid as [_ Hpid].
  apply has_json_id_object in Hpid as [ps ->].
  rewrite (denotes_truthy _ _ _ Hpl). cbn [json_truthy negb].
  assert (stored (files w1 !! SONGS_FILE) ds) as Hsst1 by (by rewrite Hfiles, lookup_insert_ne).
  destruct (readJSON_stored _ _ _ Hsst1)
    as (h2 & vs2 & w2 & Hread2 & Hheap2 & (k & Hk) & Hvs2 & Hfiles2 & Hdrive2).
  destruct (array_find_denotes w2 h2 vs2 ds sid Hheap2 Hvs2 Hsnn) as (song & Hfind2 & Hsong).
  ret Hread2. ret Hfind2.
  assert (files w2 = <[SONGS_FILE := Document (JArray ds)]>
                       (<[PLAYLISTS_FILE := Document (JArray pls)]> (files w))) as Hf
    by (by rewrite Hfiles2, Hfiles).
  assert (drive w2 = drive w) as Hd by congruence.
  destruct (List.find (has_json_id sid) ds) as [sd|] eqn:Hs; [|subst song; by exists w2].
  pose proof Hs as Hsid. apply find_some in Hsid as [_ Hsid].
  apply has_json_id_object in Hsid as [qs ->].
  rewrite (denotes_truthy _ _ _ Hsong). cbn [json_truthy negb].
  intros Hnull.
  assert (denotes (heap w2) playlist (JObject ps)) as Hpl2.
  { rewrite Hheap2, Hk, <- app_assoc. by apply denotes_app. }
  pose proof (get_opt w2 playlist (Some (JObject ps)) "songs" Hpl2) as Hget.
  cbn [nullish] in Hget. destruct Hget as (in_playlist & Hget & Hin). ret Hget.
  cbn [mbind option_bind] in Hin.
  assert (in_playlist = VUndefined ∨ in_playlist = VNull) as Hcases.
  { destruct (field "songs" (JObject ps)) as [[]|]; try done.
    - right. by apply denotes_inv in Hin.
    - by left. }
  unfold Array_includes, elements.
  destruct Hcases as [-> | ->]; by eexists _, w2.
Qed.

(** X23. PUT /playlist/:id/add looks the playlist up first.  When no
    playlist has the id the answer is 404 "Playlist not found" and the
    songs file is not even read; when the playlist exists and no song has
    the requested id the answer is 404 "Song not found".  In neither case
    is a playlist or Drive changed: each file that was read holds the
    collection it stood for. *)
Theorem add_song_not_found (id sid : string) (w : world) (pls ds : list json) :
  stored (files w !! PLAYLISTS_FILE) pls →
  Forall (λ d, d ≠ JNull) pls →
  stored (files w !! SONGS_FILE) ds →
  Forall (λ d, d ≠ JNull) ds →
  (List.find (has_json_id id) pls = None →
     (add_song id (VString sid) w).1 = Returned (error_reply 404 "Playlist not found") ∧
     files (add_song id (VString sid) w).2 =
       <[PLAYLISTS_FILE := Document (JArray pls)]> (files w) ∧
     drive (add_song id (VString sid) w).2 = drive w) ∧
  (is_Some (List.find (has_json_id id) pls) → List.find (has_json_id sid) ds = None →
     (add_song id (VString sid) w).1 = Returned (error_reply 404 "Song not found") ∧
     files (add_song id (VString sid) w).2 =
       <[SONGS_FILE := Document (JArray ds)]>
         (<[PLAYLISTS_FILE := Document (JArray pls)]> (files w)) ∧
     drive (add_song id (VString sid) w).2 = drive w).
Proof.
  intros Hpst Hpnn Hsst Hsnn.
  pose proof (add_song_lookups id sid w pls ds Hpst Hpnn Hsst Hsnn) as H.
  split.
  - intros Hp. rewrite Hp in H. by destruct H as (w' & -> & ? & ?).
  - intros [pl Hp] Hs. rewrite Hp, Hs in H. by destruct H as (w' & -> & ? & ?).
Qed.

Lemma add_song_not_found_witness :
  ((add_song "p9" (VString "s1") playlists_world).1
     = Returned (error_reply 404 "Playlist not found") ∧
   files (add_song "p9" (VString "s1") playlists_world).2 =
     <[PLAYLISTS_FILE := Document (JArray [mix []; bare_playlist])]> (files playlists_world) ∧
   drive (add_song "p9" (VString "s1") playlists_world).2 = drive playlists_world) ∧
  ((add_song "p1" (VString "s9") playlists_world).1
     = Returned (error_reply 404 "Song not found") ∧
   files (add_song "p1" (VString "s9") playlists_world).2 =
     <[SONGS_FILE := Document (JArray [blue_skies])]>
       (<[PLAYLISTS_FILE := Document (JArray [mix []; bare_playlist])]> (files playlists_world)) ∧
   drive (add_song "p1" (VString "s9") playlists_world).2 = drive playlists_world).
Proof.
  assert (Forall (λ d, d ≠ JNull) [mix []; bare_playlist]) as Hpnn by (by repeat constructor).
  assert (Forall (λ d, d ≠ JNull) [blue_skies]) as Hsnn by (by repeat constructor).
  split.
  - exact (proj1 (add_song_not_found "p9" "s1" playlists_world [mix []; bare_playlist]
                    [blue_skies] eq_refl Hpnn eq_refl Hsnn) eq_refl).
  - exact (proj2 (add_song_not_found "p1" "s9" playlists_world [mix []; bare_playlist]
                    [blue_skies] eq_refl Hpnn eq_refl Hsnn) (mk_is_Some _ _ eq_refl) eq_refl).
Defined.

(** X24. A stored playlist that has no list of songs cannot be added to:
    when the playlist and the song are both found and the playlist's
    [songs] is absent or [null], the handler throws a TypeError instead of
    answering, and the playlists file is not rewritten. *)
Theorem add_song_without_list (id sid : string) (w : world) (pls ds : list json)
    (pl song : json) :
  stored (files w !! PLAYLISTS_FILE) pls →
  Forall (λ d, d ≠ JNull) pls →
  stored (files w !! SONGS_FILE) ds →
  Forall (λ d, d ≠ JNull) ds →
  List.find (has_json_id id) pls = Some pl →
  List.find (has_json_id sid) ds = Some song →
  nullish (field "songs" pl) = true →
  (∃ msg, (add_song id (VString sid) w).1 = Thrown (TypeError msg)) ∧
  files (add_song id (VString sid) w).2 !! PLAYLISTS_FILE = Some (Document (JArray pls)).
Proof.
  intros Hpst Hpnn Hsst Hsnn Hp Hs Hnull.
  pose proof (add_song_lookups id sid w pls ds Hpst Hpnn Hsst Hsnn) as H.
  rewrite Hp, Hs in H. destruct (H Hnull) as (msg & w' & -> & Hf & _).
  split; [by exists msg|]. cbn [snd].
  by rewrite Hf, lookup_insert_ne, lookup_insert_eq.
Qed.

Lemma add_song_without_list_witness :
  (∃ msg, (add_song "p2" (VString "s1") playlists_world).1 = Thrown (TypeError msg)) ∧
  files (add_song "p2" (VString "s1") playlists_world).2 !! PLAYLISTS_FILE
    = Some (Document (JArray [mix []; bare_playlist])).
Proof.
  assert (Forall (λ d, d ≠ JNull) [mix []; bare_playlist]) as Hpnn by (by repeat constructor).
  assert (Forall (λ d, d ≠ JNull) [blue_skies]) as Hsnn by (by repeat constructor).
  exact (add_song_without_list "p2" "s1" playlists_world [mix []; bare_playlist] [blue_skies]
           bare_playlist blue_skies eq_refl Hpnn eq_refl Hsnn eq_refl eq_refl eq_refl).
Defined.

(** PUT /playlist/:id/add when the playlist and the song are found: what
    is answered and what the playlists file holds afterwards. *)
Lemma add_song_run (id sid : string) (w : world) (pls ds items : list json)
    (i j : nat) (pl song : json) :
  stored (files w !! PLAYLISTS_FILE) pls →
  Forall (λ d, d ≠ JNull) pls →
  list_find (λ d, has_json_id id d) pls = Some (i, pl) →
  field "songs" pl = Some (JArray items) →
  stored (files w !! SONGS_FILE) ds →
  Forall (λ d, d ≠ JNull) ds →
  list_find (λ d, has_json_id sid d) ds = Some (j, song) →
  (add_song id (VString sid) w).1 =
    Returned (ok_reply (set_field "songs" (JArray (items ++ [song])) pl)) ∧
  files (add_song id (VString sid) w).2 =
    <[PLAYLISTS_FILE :=
        Document (JArray (<[i := set_field "songs" (JArray (items ++ [song])) pl]> pls))]>
      (<[SONGS_FILE := Document (JArray ds)]> (files w)) ∧
  drive (add_song id (VString sid) w).2 = drive w.
Proof.
  intros Hpst Hpnn Hpfind Hsongs Hsst Hsnn Hsfind.
  (* the playlists are read *)
  destruct (readJSON_laid_out _ _ _ Hpst)
    as (h1 & vs1 & w1 & Hread1 & Hheap1 & Hlen1 & Hpre1 & Hl1 & Hfiles1 & Hdrive1).
  assert (Forall2 (denotes (heap w1)) vs1 pls) as Hden1.
  { rewrite Hheap1. by eapply laid_out_denotes. }
  destruct (find_first_index w1 id vs1 pls i pl Hden1 Hpnn Hpfind) as (vp & Hvp & Hfind1).
  assert (Array_find (VRef (length h1)) (has_id (VString id)) w1 = (Returned vp, w1)) as Hfind1'.
  { assert (elements (VRef (length h1)) "find" w1 = (Returned vs1, w1)) as Hel.
    { unfold elements. by rewrite Hheap1, list_lookup_middle. }
    unfold Array_find. by rewrite (bind_returned _ _ _ _ _ Hel). }
  destruct pl as [ | | | | |ps]; simpl in Hsongs; try done.
  apply list_find_Some in Hpfind as (Hpi & _ & _).
  assert (Forall (λ d, ∀ lo hi v, built h1 d lo hi v → lo ≤ hi) pls) as Hrange1.
  { apply Forall_forall. intros d _. apply built_range. }
  destruct (laid_out_lookup _ pls Hrange1 _ _ _ _ _ Hl1 Hpi)
    as (vp' & lo_p & hi_p & Hvp' & Hlo_p & Hhi_p & Hbp & Hbefore & Hafter).
  rewrite Hvp in Hvp'. symmetry in Hvp'. simplify_eq.
  simpl in Hbp. destruct Hbp as (lp & qs & -> & -> & Hlp & Hprops).
  destruct (laid_out_field h1 "songs" ps _ _ qs _ Hprops Hsongs)
    as (jj & v_items & a & b & Hlookup & Ha & Hb & Hbi & Hq & Hpbefore & Hpafter & Hset).
  simpl in Hbi. destruct Hbi as (li & vitems & -> & -> & Hli & Hitems).
  assert (a ≤ li) as Hali.
  { eapply laid_out_range; [|exact Hitems]. apply Forall_forall. intros d _. apply built_range. }
  (* the songs are read *)
  assert (stored (files w1 !! SONGS_FILE) ds) as Hsst1.
  { by rewrite Hfiles1, lookup_insert_ne. }
  destruct (readJSON_laid_out _ _ _ Hsst1)
    as (h2 & vs2 & w2 & Hread2 & Hheap2 & Hlen2 & Hpre2 & Hl2 & Hfiles2 & Hdrive2).
  assert (length (heap w1) = S (length h1)) as Hlenw1.
  { rewrite Hheap1, length_app. simpl. lia. }
  assert (Forall2 (denotes (heap w2)) vs2 ds) as Hden2.
  { rewrite Hheap2. by eapply laid_out_denotes. }
  destruct (find_first_index w2 sid vs2 ds j song Hden2 Hsnn Hsfind) as (vsong & Hvsong & Hfind2).
  assert (Array_find (VRef (length h2)) (has_id (VString sid)) w2 = (Returned vsong, w2))
    as Hfind2'.
  { assert (elements (VRef (length h2)) "find" w2 = (Returned vs2, w2)) as Hel.
    { unfold elements. by rewrite Hheap2, list_lookup_middle. }
    unfold Array_find. by rewrite (bind_returned _ _ _ _ _ Hel). }
  apply list_find_Some in Hsfind as (Hsj & Hsid & _).
  apply Is_true_true in Hsid. apply has_json_id_object in Hsid as [sps ->].
  assert (Forall (λ d, ∀ lo hi v, built h2 d lo hi v → lo ≤ hi) ds) as Hrange2.
  { apply Forall_forall. intros d _. apply built_range. }
  destruct (laid_out_lookup _ ds Hrange2 _ _ _ _ _ Hl2 Hsj)
    as (vsong' & a_s & b_s & Hvsong' & Ha_s & Hb_s & Hbs & _ & _).
  rewrite Hvsong in Hvsong'. symmetry in Hvsong'. simplify_eq.
  pose proof (built_range _ _ _ _ _ Hbs) as Hrs.
  pose proof Hbs as Hbs'. simpl in Hbs'. destruct Hbs' as (ts & sqs & -> & -> & _ & _).
  (* the cells of the playlist as the second world has them *)
  assert (∀ l, l < length h1 → heap w2 !! l = h1 !! l) as Hw2h1.
  { intros l ?. rewrite Hheap2, lookup_app_l by lia.
    rewrite Hpre2 by lia. rewrite Hheap1. by apply lookup_app_l. }
  assert (get (VRef lp) "songs" w2 = (Returned (VRef li), w2)) as Hget.
  { unfold get. rewrite Hw2h1 by lia. by rewrite Hlp, Hlookup. }
  assert (Array_includes (VRef li) (VRef ts) w2 = (Returned false, w2)) as Hinc.
  { assert (elements (VRef li) "includes" w2 = (Returned vitems, w2)) as Hel.
    { unfold elements. rewrite Hw2h1 by lia. by rewrite Hli. }
    unfold Array_includes. rewrite (bind_returned _ _ _ _ _ Hel).
    unfold mret, js_ret. do 2 f_equal. apply not_true_is_false. intros Hex.
    apply existsb_exists in Hex as (x & Hin & Heq).
    unfold strict_eq in Heq. apply bool_decide_eq_true in Heq. subst x.
    apply list_elem_of_In in Hin. apply (laid_out_refs_below _ _ _ _ _ _ Hitems) in Hin. lia. }
  assert (heap w2 !! li = Some (OArray vitems)) as Hli2.
  { rewrite Hw2h1 by lia. done. }
  set (H3 := <[li := OArray (vitems ++ [VRef ts])]> (heap w2)).
  set (w3 := set_heap H3 w2).
  assert (length H3 = S (length h2)) as HlenH3.
  { unfold H3. rewrite length_insert, Hheap2, length_app. simpl. lia. }
  assert (∀ l, l < length h1 → l ≠ li → H3 !! l = h1 !! l) as HH1.
  { intros l ? ?. unfold H3. rewrite list_lookup_insert_ne by done. by apply Hw2h1. }
  assert (H3 !! li = Some (OArray (vitems ++ [VRef ts]))) as HHli.
  { unfold H3. apply list_lookup_insert_eq. by eapply lookup_lt_Some. }
  assert (∀ l, S (length h1) ≤ l < length h2 → H3 !! l = h2 !! l) as HH2.
  { intros l ?. unfold H3. rewrite list_lookup_insert_ne by lia.
    rewrite Hheap2. apply lookup_app_l. lia. }
  assert (H3 !! length h1 = Some (OArray vs1)) as HHroot.
  { unfold H3. rewrite list_lookup_insert_ne by lia.
    rewrite Hheap2, lookup_app_l by lia. rewrite Hpre2 by lia.
    rewrite Hheap1. by apply list_lookup_middle. }
  (* the shape of the playlist after the push *)
  assert (∀ m, length h2 ≤ m + 2 →
            inspect (S (S m)) H3 (VRef lp)
            = Some (of_json (JObject (set_field_in "songs" (JArray (items ++ [JObject sps])) ps))))
    as Hshape.
  { intros m Hm. rewrite inspect_ref, HH1, Hlp by lia. rewrite Hset.
    cbn [of_json].
    assert (mapM (λ p, pair p.1 <$> inspect (S m) H3 p.2) qs
            = Some ((λ p, (p.1, of_json p.2)) <$>
                      (take jj ps ++ ("songs", JArray (items ++ [JObject sps])) :: drop (S jj) ps)))
      as ->; [|done].
    apply mapM_Some, Forall2_fmap_r.
    rewrite <- (take_drop_middle qs jj _ Hq).
    apply Forall2_app; [|constructor].
    - eapply laid_out_props_inspect; [exact Hpbefore| |lia].
      intros l ?. apply HH1; lia.
    - cbn [fst snd]. rewrite inspect_ref, HHli.
      assert (mapM (inspect m H3) (vitems ++ [VRef ts])
              = Some (of_json <$> (items ++ [JObject sps]))) as ->; [|done].
      apply mapM_Some, Forall2_fmap_r, Forall2_app; [|constructor; [|constructor]].
      + eapply laid_out_inspect; [exact Hitems| |lia]. intros l ?. apply HH1; lia.
      + eapply built_inspect; [|shelve].
        eapply built_agree; [exact Hbs|]. intros l ?. apply HH2. lia.
    - eapply laid_out_props_inspect; [exact Hpafter| |lia].
      intros l ?. apply HH1; lia. }
  Unshelve. 2: lia.
  assert (holds w3 (VRef (length h1))
            (of_json (JArray (<[i := JObject (set_field_in "songs"
                                (JArray (items ++ [JObject sps])) ps)]> pls)))) as Hroot.
  { unfold holds, w3. cbn [heap set_heap]. rewrite HlenH3, inspect_ref, HHroot.
    cbn [of_json].
    assert (mapM (inspect (length h2) H3) vs1
            = Some (of_json <$> <[i := JObject (set_field_in "songs"
                                   (JArray (items ++ [JObject sps])) ps)]> pls)) as ->; [|done].
    apply mapM_Some, Forall2_fmap_r.
    rewrite insert_take_drop by (by eapply lookup_lt_Some).
    rewrite <- (take_drop_middle vs1 i _ Hvp).
    apply Forall2_app; [|constructor].
    - eapply laid_out_inspect; [exact Hbefore| |lia]. intros l ?. apply HH1; lia.
    - destruct (length h2) as [|[|m]] eqn:Hh2; [lia..|]. apply Hshape. lia.
    - eapply laid_out_inspect; [exact Hafter| |lia]. intros l ?. apply HH1; lia. }
  assert (holds w3 (VRef lp)
            (of_json (JObject (set_field_in "songs" (JArray (items ++ [JObject sps])) ps))))
    as Hpl.
  { unfold holds, w3. cbn [heap set_heap]. rewrite HlenH3.
    destruct (length h2) as [|m] eqn:Hh2; [lia|]. apply Hshape. lia. }
  (* the run *)
  assert (add_song id (VString sid) w =
            (Returned {| status := 200; headers := [];
               body_of := Json (Some (JObject (set_field_in "songs"
                                        (JArray (items ++ [JObject sps])) ps))) |},
             set_files (<[PLAYLISTS_FILE := Document (JArray (<[i := JObject
               (set_field_in "songs" (JArray (items ++ [JObject sps])) ps)]> pls))]> (files w3)) w3))
    as ->.
  { unfold add_song.
    rewrite (bind_returned _ _ _ _ _ Hread1), (bind_returned _ _ _ _ _ Hfind1').
    cbn [truthy negb].
    rewrite (bind_returned _ _ _ _ _ Hread2), (bind_returned _ _ _ _ _ Hfind2').
    cbn [truthy negb].
    rewrite (bind_returned _ _ _ _ _ Hget), (bind_returned _ _ _ _ _ Hinc).
    cbn [negb].
    erewrite bind_returned.
    2:{ rewrite (bind_returned _ _ _ _ _ Hget). by apply Array_push_at. }
    fold H3. fold w3.
    rewrite (bind_returned _ _ _ _ _
               (writeJSON_run PLAYLISTS_FILE _ _ _ _ Hroot (toJSON_of_json _))).
    rewrite res_json_run with (s := of_json (JObject (set_field_in "songs"
                                        (JArray (items ++ [JObject sps])) ps))).
    - by rewrite toJSON_of_json.
    - done. }
  simpl. split; [done|]. split; [|congruence].
  rewrite Hfiles2, Hfiles1.
  rewrite (insert_insert_ne _ SONGS_FILE PLAYLISTS_FILE) by done.
  by rewrite insert_insert_eq.
Qed.

Lemma field_in_set_other k k' d' ps :
  k ≠ k' → field_in k (set_field_in k' d' ps) = field_in k ps.
Proof.
  intros Hk. induction ps as [|[k0 d0] ps IH]; [done|]. simpl.
  case_bool_decide as H0; simpl.
  - subst k0. by rewrite !bool_decide_eq_false_2 by done.
  - case_bool_decide; [done|exact IH].
Qed.

Lemma has_json_id_set_songs id x d :
  has_json_id id (set_field "songs" x d) = has_json_id id d.
Proof.
  unfold has_json_id, string_field, field, set_field.
  destruct d; try done. by rewrite field_in_set_other.
Qed.

Lemma find_insert_first {A} (p : A → bool) (l : list A) i x y :
  list_find (λ a, p a) l = Some (i, x) → p y = p x →
  List.find p (<[i := y]> l) = Some y.
Proof.
  revert i. induction l as [|a l IH]; intros i Hfind Hp; [done|].
  cbn [list_find] in Hfind. destruct (p a) eqn:Ha.
  - rewrite decide_True in Hfind by done. simplify_eq. simpl. by rewrite Hp, Ha.
  - rewrite decide_False in Hfind by (simpl; auto).
    destruct (list_find _ l) as [[i' x']|] eqn:Hl; simplify_eq. simpl in Hfind. simplify_eq.
    simpl. rewrite Ha. by apply IH.
Qed.

(** X25. What was added can be fetched: when the playlist and the song
    are found and the playlist has a list of songs, GET /playlist/:id
    after PUT /playlist/:id/add answers the playlist with the whole
    record of the song, as the songs file holds it, at the end of its
    list. *)
Theorem add_then_get (id sid : string) (w : world) (pls ds items : list json)
    (i j : nat) (pl song : json) :
  stored (files w !! PLAYLISTS_FILE) pls →
  Forall (λ d, d ≠ JNull) pls →
  list_find (λ d, has_json_id id d) pls = Some (i, pl) →
  field "songs" pl = Some (JArray items) →
  stored (files w !! SONGS_FILE) ds →
  Forall (λ d, d ≠ JNull) ds →
  list_find (λ d, has_json_id sid d) ds = Some (j, song) →
  (get_playlist id (add_song id (VString sid) w).2).1
    = Returned (ok_reply (set_field "songs" (JArray (items ++ [song])) pl)).
Proof.
  intros Hpst Hpnn Hpfind Hsongs Hsst Hsnn Hsfind.
  destruct (add_song_run id sid w pls ds items i j pl song Hpst Hpnn Hpfind Hsongs
              Hsst Hsnn Hsfind) as (_ & Hf & _).
  set (pl' := set_field "songs" (JArray (items ++ [song])) pl) in *.
  assert (stored (files (add_song id (VString sid) w).2 !! PLAYLISTS_FILE) (<[i := pl']> pls))
    as Hst' by (by rewrite Hf, lookup_insert_eq).
  assert (pl' ≠ JNull) as Hpl'.
  { unfold pl', set_field. destruct pl; try done. }
  assert (Forall (λ d, d ≠ JNull) (<[i := pl']> pls)) as Hnn'.
  { apply Forall_insert; done. }
  destruct (get_playlist_run id _ _ Hst' Hnn') as (w'' & -> & _).
  rewrite (find_insert_first (has_json_id id) pls i pl pl'); [done|done|].
  apply has_json_id_set_songs.
Qed.

Lemma add_then_get_witness :
  (get_playlist "p1" (add_song "p1" (VString "s1") playlists_world).2).1
    = Returned (ok_reply (mix [blue_skies])).
Proof.
  assert (Forall (λ d, d ≠ JNull) [mix []; bare_playlist]) as Hpnn by (by repeat constructor).
  assert (Forall (λ d, d ≠ JNull) [blue_skies]) as Hsnn by (by repeat constructor).
  exact (add_then_get "p1" "s1" playlists_world [mix []; bare_playlist] [blue_skies] []
           0 0 (mix []) blue_skies eq_refl Hpnn eq_refl eq_refl eq_refl Hsnn eq_refl).
Defined.

(** X26. PUT /playlist/:id/add changes the playlist it addresses and
    nothing else: the other playlists keep their place and content, the
    songs file holds the collection it stood for, and Drive is as it
    was. *)
Theorem add_song_changes_one_playlist (id sid : string) (w : world)
    (pls ds items : list json) (i j : nat) (pl song : json) :
  stored (files w !! PLAYLISTS_FILE) pls →
  Forall (λ d, d ≠ JNull) pls →
  list_find (λ d, has_json_id id d) pls = Some (i, pl) →
  field "songs" pl = Some (JArray items) →
  stored (files w !! SONGS_FILE) ds →
  Forall (λ d, d ≠ JNull) ds →
  list_find (λ d, has_json_id sid d) ds = Some (j, song) →
  ∃ pl',
    files (add_song id (VString sid) w).2 =
      <[PLAYLISTS_FILE := Document (JArray (<[i := pl']> pls))]>
        (<[SONGS_FILE := Document (JArray ds)]> (files w)) ∧
    (∀ k, k ≠ "songs" → field k pl' = field k pl) ∧
    drive (add_song id (VString sid) w).2 = drive w.
Proof.
  intros Hpst Hpnn Hpfind Hsongs Hsst Hsnn Hsfind.
  destruct (add_song_run id sid w pls ds items i j pl song Hpst Hpnn Hpfind Hsongs
              Hsst Hsnn Hsfind) as (_ & Hf & Hd).
  exists (set_field "songs" (JArray (items ++ [song])) pl). split; [done|]. split; [|done].
  intros k Hk. unfold field, set_field. destruct pl; try done. by apply field_in_set_other.
Qed.

Lemma add_song_changes_one_playlist_witness :
  ∃ pl',
    files (add_song "p1" (VString "s1") playlists_world).2 =
      <[PLAYLISTS_FILE := Document (JArray (<[0 := pl']> [mix []; bare_playlist]))]>
        (<[SONGS_FILE := Document (JArray [blue_skies])]> (files playlists_world)) ∧
    (∀ k, k ≠ "songs" → field k pl' = field k (mix [])) ∧
    drive (add_song "p1" (VString "s1") playlists_world).2 = drive playlists_world.
Proof.
  assert (Forall (λ d, d ≠ JNull) [mix []; bare_playlist]) as Hpnn by (by repeat constructor).
  assert (Forall (λ d, d ≠ JNull) [blue_skies]) as Hsnn by (by repeat constructor).
  exact (add_song_changes_one_playlist "p1" "s1" playlists_world [mix []; bare_playlist]
           [blue_skies] [] 0 0 (mix []) blue_skies eq_refl Hpnn eq_refl eq_refl eq_refl Hsnn
           eq_refl).
Defined.
